(** * Technical-analysis engine: a shallow embedding of
      [src/utils/technical_indicators.py]

    The Python class [TechnicalIndicators] keeps a pandas DataFrame in
    [self.data], adds derived columns to it method by method, and distils a
    dictionary of results from which a trading recommendation is drawn.

    Conventions of the embedding.
    - Prices are exact rationals ([Q]); a value computed by numpy is a [num]:
      a rational, one of the two infinities, or NaN.  Arithmetic on [num]
      follows IEEE 754 on its special values (x/0, inf-inf, comparisons with
      NaN) and is exact on finite values: the methods of the engine are
      embedded without rounding, and the properties stated of them are those
      that do not hinge on the last place of a float.  Where a property does
      hinge on it - the clustering of levels - the operations are embedded
      a second time with their rounding to binary64 ([round64],
      [cluster_levels64]).  The sign of zero is not modelled.
    - A DataFrame is its list of rows (the six input columns) together with
      a finite map from column names to the derived columns; the order in
      which the columns were added is not kept.
    - A Python exception is a value [Raise e] of the type [Result]; methods
      of the engine are state transformers over [self.data].
    - Objects live in a store indexed by locations, so that copying a frame
      and aliasing it are different things. *)

From Stdlib Require Import ZArith QArith Qabs Qround Qpower Lqa Lia.
From Stdlib Require Import String Ascii List DecimalString Decimal.
From stdpp Require Import base option list gmap strings.

Local Open Scope Z_scope.
Local Open Scope Q_scope.

(* ================================================================== *)
(** ** Numbers *)
(* ================================================================== *)

(** A numpy [float64] value. *)
Inductive num : Type :=
| NaN
| NegInf
| Fin (q : Q)
| PosInf.

Definition Qltb (a b : Q) : bool := (Qnum a * QDen b <? Qnum b * QDen a)%Z.
Definition Qleb (a b : Q) : bool := (Qnum a * QDen b <=? Qnum b * QDen a)%Z.
Definition Qeqb (a b : Q) : bool := (Qnum a * QDen b =? Qnum b * QDen a)%Z.

(** Sign of a rational: -1, 0 or 1. *)
Definition Qsgn (a : Q) : Z := Z.sgn (Qnum a).

Definition isna (a : num) : bool :=
  match a with NaN => true | _ => false end.

Definition nneg (a : num) : num :=
  match a with
  | NaN => NaN
  | NegInf => PosInf
  | Fin q => Fin (- q)
  | PosInf => NegInf
  end.

Definition nabs (a : num) : num :=
  match a with
  | NaN => NaN
  | NegInf | PosInf => PosInf
  | Fin q => Fin (Qabs q)
  end.

Definition nadd (a b : num) : num :=
  match a, b with
  | NaN, _ | _, NaN => NaN
  | Fin x, Fin y => Fin (x + y)
  | PosInf, NegInf | NegInf, PosInf => NaN
  | PosInf, _ | _, PosInf => PosInf
  | NegInf, _ | _, NegInf => NegInf
  end.

Definition nsub (a b : num) : num := nadd a (nneg b).

(** An infinity of the given sign; NaN for sign 0. *)
Definition inf_of_sign (s : Z) : num :=
  match s with
  | Z0 => NaN
  | Zpos _ => PosInf
  | Zneg _ => NegInf
  end.

Definition nsign (a : num) : Z :=
  match a with
  | NaN => 0%Z
  | NegInf => (-1)%Z
  | Fin q => Qsgn q
  | PosInf => 1%Z
  end.

Definition nmul (a b : num) : num :=
  match a, b with
  | NaN, _ | _, NaN => NaN
  | Fin x, Fin y => Fin (x * y)
  | _, _ => inf_of_sign (nsign a * nsign b)
  end.

(** Division as numpy performs it on [float64]: a finite value over zero is
    an infinity (NaN for 0/0), a finite value over an infinity is zero. *)
Definition ndiv (a b : num) : num :=
  match a, b with
  | NaN, _ | _, NaN => NaN
  | Fin x, Fin y => if Qeqb y 0 then inf_of_sign (Qsgn x) else Fin (x / y)
  | Fin _, _ => Fin 0
  | _, Fin y => if Qeqb y 0 then a else inf_of_sign (nsign a * Qsgn y)
  | _, _ => NaN
  end.

(** Comparisons; every comparison with NaN is false. *)
Definition nlt (a b : num) : bool :=
  match a, b with
  | NaN, _ | _, NaN => false
  | Fin x, Fin y => Qltb x y
  | NegInf, NegInf => false
  | NegInf, _ => true
  | _, PosInf => match a with PosInf => false | _ => true end
  | _, _ => false
  end.

Definition nle (a b : num) : bool :=
  match a, b with
  | NaN, _ | _, NaN => false
  | Fin x, Fin y => Qleb x y
  | NegInf, _ => true
  | _, PosInf => true
  | _, _ => false
  end.

Definition ngt (a b : num) : bool := nlt b a.
Definition nge (a b : num) : bool := nle b a.

Declare Scope num_scope.
Delimit Scope num_scope with num.
Bind Scope num_scope with num.
Infix "+" := nadd : num_scope.
Infix "-" := nsub : num_scope.
Infix "*" := nmul : num_scope.
Infix "/" := ndiv : num_scope.
Infix "<?" := nlt : num_scope.
Infix "<=?" := nle : num_scope.
Infix ">?" := ngt : num_scope.
Infix ">=?" := nge : num_scope.

(** Integers and rationals as floats. *)
Definition of_Z (z : Z) : num := Fin (inject_Z z).
Definition of_nat (n : nat) : num := Fin (inject_Z (Z.of_nat n)).

(** [np.mean] / [Series.mean]: the sum over the count; NaN when empty. *)
Definition nsum (xs : list num) : num := foldr nadd (Fin 0) xs.
Definition nmean (xs : list num) : num := (nsum xs / of_nat (length xs))%num.

Definition Qsum (xs : list Q) : Q := foldr Qplus 0 xs.
(** The mean of a non-empty list of finite values. *)
Definition Qmean (xs : list Q) : Q := Qsum xs / inject_Z (Z.of_nat (length xs)).

(** Square root, rounded down to a multiple of 2^-40 (numpy rounds to the
    nearest [float64]); NaN below zero. *)
Definition Qsqrt (q : Q) : Q :=
  Z.sqrt (Qfloor (q * inject_Z (2 ^ 80))) # (2 ^ 40).

Definition nsqrt (a : num) : num :=
  match a with
  | NaN | NegInf => NaN
  | Fin q => if Qltb q 0 then NaN else Fin (Qsqrt q)
  | PosInf => PosInf
  end.

(** Python's builtin [max] and [min] on two arguments: the first argument
    unless the second is strictly larger (smaller). *)
Definition pymax (a b : Q) : Q := if Qltb a b then b else a.
Definition pymin (a b : Q) : Q := if Qltb b a then b else a.

(** [max(xs)] and [min(xs)] of a non-empty list ([None] stands for the
    empty list, which the callers test for first). *)
Definition max_of (xs : list Q) : option Q :=
  match xs with
  | [] => None
  | x :: xs' => Some (fold_left pymax xs' x)
  end.

Definition min_of (xs : list Q) : option Q :=
  match xs with
  | [] => None
  | x :: xs' => Some (fold_left pymin xs' x)
  end.

(** Wrap-around of a 64-bit signed integer ([np.int64]). *)
Definition wrap64 (z : Z) : Z := ((z + 2 ^ 63) mod 2 ^ 64 - 2 ^ 63)%Z.

(* ================================================================== *)
(** ** Strings and slices *)
(* ================================================================== *)

(** Python's [sub in s]. *)
Fixpoint str_in (sub s : string) : bool :=
  String.prefix sub s ||
  match s with
  | EmptyString => false
  | String _ s' => str_in sub s'
  end.

(** [str(n)] of an integer, as an f-string renders it. *)
Definition str_of_Z (z : Z) : string := NilZero.string_of_int (Z.to_int z).

(** [xs[-k:]]: the last [k] elements (all of them when there are fewer). *)
Definition last_n {A} (k : nat) (xs : list A) : list A :=
  drop (length xs - k) xs.

(** [xs[-a:-b]] for [b <= a]. *)
Definition slice_neg {A} (a b : nat) (xs : list A) : list A :=
  take ((length xs - b) - (length xs - a)) (drop (length xs - a) xs).

(** Round half to even, as the format [.0f] does. *)
Definition round_half_even (q : Q) : Z :=
  let f := Qfloor q in
  let r := q - inject_Z f in
  if Qltb r (1 # 2) then f
  else if Qltb (1 # 2) r then (f + 1)%Z
  else if Z.even f then f else (f + 1)%Z.

(** [f"{x:.0f}"]. *)
Definition format_0f (x : num) : string :=
  match x with
  | NaN => "nan"
  | PosInf => "inf"
  | NegInf => "-inf"
  | Fin q =>
      let z := round_half_even q in
      if Qltb q 0 && (z =? 0)%Z then "-0" else str_of_Z z
  end.

(* ================================================================== *)
(** ** Exceptions, state and the object store *)
(* ================================================================== *)

Inductive exn : Type :=
| IndexError
| KeyError
| ValueError
| TypeError.

Inductive Result (A : Type) : Type :=
| Ok (a : A)
| Raise (e : exn).

Arguments Ok {A} a.
Arguments Raise {A} e.

(** A computation over a mutable state [S] that may raise: the state
    reached is kept when an exception is thrown, as in Python. *)
Definition ST (S A : Type) : Type := S -> Result A * S.

Definition ret {S A} (a : A) : ST S A := fun s => (Ok a, s).

Definition raise {S A} (e : exn) : ST S A := fun s => (Raise e, s).

Definition bind {S A B} (m : ST S A) (k : A -> ST S B) : ST S B :=
  fun s =>
    match m s with
    | (Ok a, s') => k a s'
    | (Raise e, s') => (Raise e, s')
    end.

Notation "x <- m ;; k" := (bind m (fun x => k))
  (at level 100, m at next level, right associativity).
Notation "m ;;; k" := (bind m (fun _ => k))
  (at level 100, right associativity).

(** [for x in xs: body(x)]. *)
Fixpoint for_each {S A} (xs : list A) (body : A -> ST S unit) : ST S unit :=
  match xs with
  | [] => ret tt
  | x :: xs' => body x ;;; for_each xs' body
  end.

(** A [for] loop that updates a local variable [acc]. *)
Fixpoint for_acc {S A B} (xs : list A) (body : B -> A -> ST S B) (acc : B)
  : ST S B :=
  match xs with
  | [] => ret acc
  | x :: xs' => acc' <- body acc x ;; for_acc xs' body acc'
  end.

(** [xs.iloc[i]] / [xs[i]] for [0 <= i]. *)
Definition iloc {S A} (xs : list A) (i : nat) : ST S A :=
  match xs !! i with
  | Some x => ret x
  | None => raise IndexError
  end.

(** [xs.iloc[-1]] / [xs[-1]]. *)
Definition iloc_last {S A} (xs : list A) : ST S A :=
  match last xs with
  | Some x => ret x
  | None => raise IndexError
  end.

(** [range(a, b)]. *)
Definition range (a b : nat) : list nat := seq a (b - a).

(* ================================================================== *)
(** ** Data model *)
(* ================================================================== *)

(** One row of the input frame: columns
    ['Date', 'Open', 'High', 'Low', 'Close', 'Volume'].  Dates are
    timestamps. *)
Record Bar : Type := mkBar {
  Date : Z;
  Open : Q;
  High : Q;
  Low : Q;
  Close : Q;
  Volume : Z
}.

(** A derived column. *)
Inductive Column : Type :=
| NumCol (xs : list num)
| StrCol (xs : list string)
| BoolCol (xs : list bool)
| IntCol (xs : list Z).

Definition col_length (c : Column) : nat :=
  match c with
  | NumCol xs => length xs
  | StrCol xs => length xs
  | BoolCol xs => length xs
  | IntCol xs => length xs
  end.

(** A DataFrame: the input columns row by row, and the columns added by
    the indicator methods, by name.  pandas also keeps the order in which
    the columns were added; the map does not. *)
Record DataFrame : Type := mkDF {
  rows : list Bar;
  cols : gmap string Column
}.

(** Methods of [TechnicalIndicators] act on [self.data]. *)
Abbreviation M := (ST DataFrame).

(** [len(self.data)]. *)
Definition len : M nat := fun df => (Ok (length (rows df)), df).

(** [self.data['Close']] and the other input columns. *)
Definition column {A} (f : Bar -> A) : M (list A) :=
  fun df => (Ok (map f (rows df)), df).

(** [self.data[name] = values] on a frame with at least one row: pandas
    refuses a column whose length is not that of the frame.  (A frame
    without rows takes its index from a non-empty list instead and grows
    to that length; the model raises there too, and the properties of the
    methods that assign columns are stated for frames with a bar.) *)
Definition set_col (name : string) (c : Column) : M unit :=
  fun df =>
    if (col_length c =? length (rows df))%nat
    then (Ok tt, {| rows := rows df; cols := <[name := c]> (cols df) |})
    else (Raise ValueError, df).

(** [self.data[name] = 'label']: a scalar is broadcast to every row. *)
Definition set_col_scalar (name : string) (label : string) : M unit :=
  fun df =>
    (Ok tt, {| rows := rows df;
               cols := <[name := StrCol (replicate (length (rows df)) label)]>
                         (cols df) |}).

(** Reading a derived column. *)
Definition get_num (name : string) : M (list num) :=
  fun df =>
    match cols df !! name with
    | Some (NumCol xs) => (Ok xs, df)
    | Some _ => (Raise TypeError, df)
    | None => (Raise KeyError, df)
    end.

Definition get_str (name : string) : M (list string) :=
  fun df =>
    match cols df !! name with
    | Some (StrCol xs) => (Ok xs, df)
    | Some _ => (Raise TypeError, df)
    | None => (Raise KeyError, df)
    end.

Definition get_bool (name : string) : M (list bool) :=
  fun df =>
    match cols df !! name with
    | Some (BoolCol xs) => (Ok xs, df)
    | Some _ => (Raise TypeError, df)
    | None => (Raise KeyError, df)
    end.

Definition get_int (name : string) : M (list Z) :=
  fun df =>
    match cols df !! name with
    | Some (IntCol xs) => (Ok xs, df)
    | Some _ => (Raise TypeError, df)
    | None => (Raise KeyError, df)
    end.

(** [self.data.loc[mask, name] = label] on an existing label column (the
    engine always creates the column first). *)
Definition loc_set_mask (mask : list bool) (name : string) (label : string)
  : M unit :=
  xs <- get_str name ;;
  set_col name
    (StrCol (zip_with (fun (m : bool) x => if m then label else x) mask xs)).

(** [self.data.loc[i, name] = label]: the index is 0..n-1 after
    [reset_index], so the row labelled [i] is row [i]. *)
Definition loc_set_at (i : nat) (name : string) (label : string) : M unit :=
  xs <- get_str name ;;
  set_col name (StrCol (<[i := label]> xs)).

(* ================================================================== *)
(** ** pandas, numpy and scipy primitives *)
(* ================================================================== *)

(** [Series.diff()]: NaN, then the differences of consecutive values. *)
Definition diff (xs : list Q) : list num :=
  match xs with
  | [] => []
  | _ :: xs' => NaN :: zip_with (fun prev cur => Fin (cur - prev)) xs xs'
  end.

(** [Series.where(cond, other)]. *)
Definition where_ (cond : num -> bool) (other : num) (xs : list num)
  : list num :=
  map (fun x => if cond x then x else other) xs.

(** [Series.rolling(window=w).agg()]: NaN until [w] values are available,
    then the aggregate of the last [w] values. *)
Definition rolling (window : nat) (agg : list num -> num) (xs : list num)
  : list num :=
  map (fun i => if (S i <? window)%nat then NaN
                else agg (take window (drop (S i - window) xs)))
      (seq 0 (length xs)).

(** Sample standard deviation ([ddof=1]). *)
Definition nstd (xs : list num) : num :=
  let m := nmean xs in
  nsqrt (nsum (map (fun x => (x - m) * (x - m))%num xs)
         / of_Z (Z.of_nat (length xs) - 1))%num.

(** The smoothing factor of a span. *)
Definition alpha (span : Z) : Q := 2 / (inject_Z span + 1).

(** [Series.ewm(span=span, adjust=False).mean()]:
    y0 = x0, y_t = (1 - alpha) y_(t-1) + alpha x_t, alpha = 2 / (span + 1),
    in exact arithmetic (pandas rounds every step to float64, and refuses
    a span below 1). *)
Fixpoint ewm_from (alpha prev : Q) (xs : list Q) : list Q :=
  match xs with
  | [] => []
  | x :: xs' =>
      let y := (1 - alpha) * prev + alpha * x in
      y :: ewm_from alpha y xs'
  end.

Definition ewm_mean (span : Z) (xs : list Q) : list Q :=
  match xs with
  | [] => []
  | x0 :: xs' => x0 :: ewm_from (alpha span) x0 xs'
  end.

(** Index clipping of [numpy.take(..., mode='clip')]. *)
Definition clip_index (n : nat) (i : Z) : nat :=
  Z.to_nat (Z.max 0 (Z.min i (Z.of_nat n - 1))).

(** [scipy.signal.argrelextrema(data, comparator, order=order)[0]] with the
    default mode 'clip': the indices whose value compares true against the
    [order] neighbours on each side, indices beyond an edge standing for
    the edge.  (scipy refuses an order below 1.) *)
Definition argrelextrema (data : list Q) (comparator : Q -> Q -> bool)
  (order : nat) : list nat :=
  let n := length data in
  let at_ (i : Z) := nth (clip_index n i) data 0 in
  List.filter
    (fun i =>
       forallb (fun shift =>
                  comparator (at_ (Z.of_nat i)) (at_ (Z.of_nat i + Z.of_nat shift)%Z)
                  && comparator (at_ (Z.of_nat i)) (at_ (Z.of_nat i - Z.of_nat shift)%Z))
               (seq 1 order))
    (seq 0 n).

(** [sorted(levels)]: a stable sort, ascending. *)
Fixpoint insert_sorted (x : Q) (l : list Q) : list Q :=
  match l with
  | [] => [x]
  | y :: l' => if Qleb x y then x :: l else y :: insert_sorted x l'
  end.

Definition sorted (l : list Q) : list Q := foldr insert_sorted [] l.

(** [DataFrame.sort_values('Date').reset_index(drop=True)]: the permutation
    that orders the dates is applied to every column.  Rows with equal
    dates keep their order here; pandas leaves the order of ties to its
    sorting algorithm. *)
Fixpoint insert_by_date (x : nat * Z) (l : list (nat * Z)) : list (nat * Z) :=
  match l with
  | [] => [x]
  | y :: l' => if (snd x <=? snd y)%Z then x :: l else y :: insert_by_date x l'
  end.

Definition argsort_dates (dates : list Z) : list nat :=
  map fst (foldr insert_by_date [] (zip (seq 0 (length dates)) dates)).

Definition take_rows {A} (idx : list nat) (xs : list A) : list A :=
  omap (fun i => xs !! i) idx.

Definition take_column (idx : list nat) (c : Column) : Column :=
  match c with
  | NumCol xs => NumCol (take_rows idx xs)
  | StrCol xs => StrCol (take_rows idx xs)
  | BoolCol xs => BoolCol (take_rows idx xs)
  | IntCol xs => IntCol (take_rows idx xs)
  end.

Definition sort_values_Date (df : DataFrame) : DataFrame :=
  let idx := argsort_dates (map Date (rows df)) in
  {| rows := take_rows idx (rows df);
     cols := take_column idx <$> cols df |}.

(* ================================================================== *)
(** ** The analysis results *)
(* ================================================================== *)

(** A Python number held in a result dictionary: an [int] or a [float].
    [0] and [0.0] compare equal in Python and differ in type. *)
Inductive number : Type :=
  | PyInt (z : Z)
  | PyFloat (x : num).

(** The value of a number, as [float(n)] gives it. *)
Definition float_of (n : number) : num :=
  match n with
  | PyInt z => Fin (inject_Z z)
  | PyFloat x => x
  end.

(** [a == b] on Python numbers: the values are compared, not the types
    ([0 == 0.0] is [True]; NaN equals nothing). *)
Definition number_eqb (a b : number) : bool :=
  nle (float_of a) (float_of b) && nle (float_of b) (float_of a).

Record RsiResult : Type := mkRsi {
  rsi_value : number;
  rsi_signal : string;
  rsi_interpretation : string
}.

Record MacdResult : Type := mkMacd {
  macd_line : Q;
  signal_line : Q;
  histogram : Q;
  macd_signal : string;
  macd_interpretation : string
}.

Record BollingerResult : Type := mkBollinger {
  upper : num;
  middle : num;
  lower : num;
  width : num;
  bb_signal : string;
  bb_interpretation : string
}.

Record Levels : Type := mkLevels {
  support_levels : list Q;
  resistance_levels : list Q;
  nearest_support : option Q;
  nearest_resistance : option Q;
  levels_current_price : Q
}.

Record VolumeResult : Type := mkVolume {
  current_volume : Z;
  avg_volume : num;
  volume_trend : string;
  obv : Z;
  recent_spikes : Z
}.

Record Pattern : Type := mkPattern {
  date : Z;
  pattern : string;
  type : string;
  description : string
}.

Record Recommendation : Type := mkRecommendation {
  action : string;
  confidence : Z;
  reason : string
}.

(** The dictionary [results] before the recommendation is added. *)
Record Results : Type := mkResults {
  current_price : Q;
  trend : string;
  rsi : RsiResult;
  macd : MacdResult;
  bollinger_bands : BollingerResult;
  support_resistance : Levels;
  volume : VolumeResult;
  patterns : list Pattern;
  sma_20 : num;
  sma_50 : num
}.

(** The dictionary returned by [calculate_all_indicators]. *)
Record Analysis : Type := mkAnalysis {
  results : Results;
  recommendation : Recommendation
}.

(* ================================================================== *)
(** ** The class TechnicalIndicators *)
(* ================================================================== *)

(** The store of DataFrame objects; a reference is an index into it. *)
Abbreviation Store := (list DataFrame).

Module TechnicalIndicators.

(** [__init__(self, data)]: [self.data] is a new frame, a copy of [data]
    sorted by date.  The object is identified with the reference to its
    [self.data]. *)
Definition __init__ (data : nat) : ST Store nat :=
  fun st =>
    match st !! data with
    | None => (Raise KeyError, st)
    | Some df => (Ok (length st), st ++ [sort_values_Date df])
    end.


(** [calculate_rsi(self, period=14)]. *)
Definition calculate_rsi (period : nat) : M (list num) :=
  close <- column Close ;;
  let delta := diff close in
  let gain :=
    rolling period nmean (where_ (fun d => d >? Fin 0)%num (Fin 0) delta) in
  let loss :=
    rolling period nmean
      (map nneg (where_ (fun d => d <? Fin 0)%num (Fin 0) delta)) in
  let rs := zip_with ndiv gain loss in
  let rsi := map (fun r => Fin 100 - Fin 100 / (Fin 1 + r))%num rs in
  set_col "RSI" (NumCol rsi) ;;;
  set_col_scalar "RSI_Signal" "Neutral" ;;;
  loc_set_mask (map (fun r => r >? Fin 70)%num rsi) "RSI_Signal" "Overbought" ;;;
  loc_set_mask (map (fun r => r <? Fin 30)%num rsi) "RSI_Signal" "Oversold" ;;;
  ret rsi.

(** One iteration of the crossover loop of [calculate_macd]. *)
Definition macd_cross_body (macd_line signal_line : list Q) (i : nat)
  : M unit :=
  m <- iloc macd_line i ;;
  s <- iloc signal_line i ;;
  m' <- iloc macd_line (i - 1) ;;
  s' <- iloc signal_line (i - 1) ;;
  if Qltb s m && Qleb m' s' then loc_set_at i "MACD_Cross" "Buy"
  else if Qltb m s && Qleb s' m' then loc_set_at i "MACD_Cross" "Sell"
  else ret tt.

(** [calculate_macd(self, fast=12, slow=26, signal=9)]. *)
Definition calculate_macd (fast slow signal : Z)
  : M (list Q * list Q * list Q) :=
  close <- column Close ;;
  let ema_fast := ewm_mean fast close in
  let ema_slow := ewm_mean slow close in
  let macd_line := zip_with Qminus ema_fast ema_slow in
  let signal_line := ewm_mean signal macd_line in
  let histogram := zip_with Qminus macd_line signal_line in
  set_col "MACD" (NumCol (map Fin macd_line)) ;;;
  set_col "MACD_Signal" (NumCol (map Fin signal_line)) ;;;
  set_col "MACD_Histogram" (NumCol (map Fin histogram)) ;;;
  set_col_scalar "MACD_Cross" "Hold" ;;;
  n <- len ;;
  for_each (range 1 n) (macd_cross_body macd_line signal_line) ;;;
  ret (macd_line, signal_line, histogram).

(** [calculate_bollinger_bands(self, period=20, std_dev=2)]. *)
Definition calculate_bollinger_bands (period : nat) (std_dev : Z)
  : M (list num * list num * list num) :=
  close <- column Close ;;
  let sma := rolling period nmean (map Fin close) in
  let std := rolling period nstd (map Fin close) in
  let upper_band := zip_with (fun m s => m + of_Z std_dev * s)%num sma std in
  let lower_band := zip_with (fun m s => m - of_Z std_dev * s)%num sma std in
  set_col "BB_Middle" (NumCol sma) ;;;
  set_col "BB_Upper" (NumCol upper_band) ;;;
  set_col "BB_Lower" (NumCol lower_band) ;;;
  set_col "BB_Width" (NumCol (zip_with nsub upper_band lower_band)) ;;;
  set_col_scalar "BB_Signal" "Neutral" ;;;
  loc_set_mask (zip_with (fun c u => Fin c >=? u)%num close upper_band)
    "BB_Signal" "Overbought" ;;;
  loc_set_mask (zip_with (fun c l => Fin c <=? l)%num close lower_band)
    "BB_Signal" "Oversold" ;;;
  ret (upper_band, sma, lower_band).

(** One step of the loop of [cluster_levels]: the state is
    [(clusters, current_cluster)].  The means are exact here; the loop
    with means rounded as [np.mean] rounds them is [cluster_step64]. *)
Definition cluster_step (tolerance : Q) (st : list Q * list Q) (level : Q)
  : list Q * list Q :=
  let '(clusters, current_cluster) := st in
  if (nabs (Fin level - Fin (Qmean current_cluster))
      / Fin (Qmean current_cluster) <? Fin tolerance)%num
  then (clusters, current_cluster ++ [level])
  else (clusters ++ [Qmean current_cluster], [level]).

(** [cluster_levels(levels, tolerance=0.02)], local to
    [find_support_resistance]. *)
Definition cluster_levels (levels : list Q) (tolerance : Q) : list Q :=
  if (length levels =? 0)%nat then []
  else
    match sorted levels with
    | [] => []
    | level0 :: rest =>
        let '(clusters, current_cluster) :=
          fold_left (cluster_step tolerance) rest ([], [level0]) in
        clusters ++ [Qmean current_cluster]
    end.

(** [find_support_resistance(self, order=5)]. *)
Definition find_support_resistance (order : nat) : M Levels :=
  low <- column Low ;;
  high <- column High ;;
  let support_indices := argrelextrema low Qleb order in
  let support_levels := take_rows support_indices low in
  let resistance_indices := argrelextrema high (fun a b => Qleb b a) order in
  let resistance_levels := take_rows resistance_indices high in
  let support_levels := cluster_levels support_levels (2 # 100) in
  let resistance_levels := cluster_levels resistance_levels (2 # 100) in
  close <- column Close ;;
  current_price <- iloc_last close ;;
  let support_below :=
    List.filter (fun s => Qltb s current_price) support_levels in
  let resistance_above :=
    List.filter (fun r => Qltb current_price r) resistance_levels in
  ret {| support_levels := last_n 5 support_levels;
         resistance_levels := last_n 5 resistance_levels;
         nearest_support := max_of support_below;
         nearest_resistance := min_of resistance_above;
         levels_current_price := current_price |}.

(** One iteration of the On-Balance-Volume loop. *)
Definition obv_body (close : list Q) (volume : list Z) (obv : list Z)
  (i : nat) : M (list Z) :=
  c <- iloc close i ;;
  c' <- iloc close (i - 1) ;;
  if Qltb c' c then
    o <- iloc_last obv ;; v <- iloc volume i ;;
    ret (obv ++ [wrap64 (o + v)])
  else if Qltb c c' then
    o <- iloc_last obv ;; v <- iloc volume i ;;
    ret (obv ++ [wrap64 (o - v)])
  else
    o <- iloc_last obv ;; ret (obv ++ [o]).

(** [Series.sum()] of a boolean column. *)
Definition count_true (bs : list bool) : Z :=
  Z.of_nat (length (List.filter id bs)).

(** [analyze_volume(self)]. *)
Definition analyze_volume : M VolumeResult :=
  volume <- column Volume ;;
  set_col "Volume_MA" (NumCol (rolling 20 nmean (map of_Z volume))) ;;;
  volume_ma <- get_num "Volume_MA" ;;
  set_col "Volume_Spike"
    (BoolCol (zip_with (fun v m => of_Z v >? Fin 2 * m)%num volume volume_ma)) ;;;
  close <- column Close ;;
  n <- len ;;
  obv <- for_acc (range 1 n) (obv_body close volume) [0%Z] ;;
  set_col "OBV" (IntCol obv) ;;;
  let recent_volume := nmean (map of_Z (last_n 20 volume)) in
  let older_volume := nmean (map of_Z (slice_neg 40 20 volume)) in
  let volume_trend :=
    if (recent_volume >? older_volume)%num then "Increasing"
    else "Decreasing" in
  current_volume <- iloc_last volume ;;
  volume_ma <- get_num "Volume_MA" ;;
  avg_volume <- iloc_last volume_ma ;;
  obv_col <- get_int "OBV" ;;
  obv_last <- iloc_last obv_col ;;
  spikes <- get_bool "Volume_Spike" ;;
  ret {| current_volume := current_volume;
         avg_volume := avg_volume;
         volume_trend := volume_trend;
         obv := obv_last;
         recent_spikes := count_true (last_n 10 spikes) |}.

(** The events appended for one bar by the loop of
    [detect_candlestick_patterns]; [prev] is the bar before [cur].  The
    differences and the ratio are exact: a body of exactly a tenth of the
    range, or a shadow of exactly twice the body, sits on a comparison
    that float64 rounding can tip either way. *)
Definition candle_events (prev cur : Bar) : list Pattern :=
  let open_price := Open cur in
  let close := Close cur in
  let high := High cur in
  let low := Low cur in
  let prev_open := Open prev in
  let prev_close := Close prev in
  let body := Qabs (close - open_price) in
  let total_range := high - low in
  let upper_shadow := high - pymax open_price close in
  let lower_shadow := pymin open_price close - low in
  (if Qltb 0 total_range && Qltb (body / total_range) (1 # 10)
   then [ {| date := Date cur; pattern := "Doji"; type := "Neutral";
             description := "Indecision in the market" |} ]
   else [])
  ++
  (if Qltb 0 body && Qltb (2 * body) lower_shadow
      && Qltb upper_shadow body && Qltb open_price close
   then [ {| date := Date cur; pattern := "Hammer"; type := "Bullish";
             description := "Potential bullish reversal" |} ]
   else [])
  ++
  (if Qltb 0 body && Qltb (2 * body) upper_shadow
      && Qltb lower_shadow body && Qltb close open_price
   then [ {| date := Date cur; pattern := "Shooting Star"; type := "Bearish";
             description := "Potential bearish reversal" |} ]
   else [])
  ++
  (if Qltb open_price close && Qltb prev_close prev_open
      && Qltb prev_open close && Qltb open_price prev_close
   then [ {| date := Date cur; pattern := "Bullish Engulfing";
             type := "Bullish";
             description := "Strong bullish reversal signal" |} ]
   else [])
  ++
  (if Qltb close open_price && Qltb prev_open prev_close
      && Qltb close prev_open && Qltb prev_close open_price
   then [ {| date := Date cur; pattern := "Bearish Engulfing";
             type := "Bearish";
             description := "Strong bearish reversal signal" |} ]
   else []).

(** One iteration of the loop: read bar [i] and bar [i-1], append. *)
Definition patterns_body (patterns : list Pattern) (i : nat)
  : M (list Pattern) :=
  bars <- column id ;;
  cur <- iloc bars i ;;
  prev <- iloc bars (i - 1) ;;
  ret (patterns ++ candle_events prev cur).

(** [detect_candlestick_patterns(self)]. *)
Definition detect_candlestick_patterns : M (list Pattern) :=
  n <- len ;;
  patterns <- for_acc (range 2 n) patterns_body [] ;;
  ret (last_n 10 patterns).

(** [_interpret_rsi(self, rsi_value)]. *)
Definition _interpret_rsi (rsi_value : num) : string :=
  if isna rsi_value then "Insufficient data"
  else if (rsi_value >? Fin 70)%num then "Overbought - Consider selling"
  else if (rsi_value <? Fin 30)%num then "Oversold - Consider buying"
  else if (rsi_value >? Fin 50)%num then "Bullish momentum"
  else "Bearish momentum".

(** [_interpret_macd(self, histogram)]. *)
Definition _interpret_macd (histogram : Q) : string :=
  if Qltb 0 histogram then "Bullish momentum - MACD above signal"
  else if Qltb histogram 0 then "Bearish momentum - MACD below signal"
  else "Neutral".

(** [_interpret_bb(self, price, upper, lower)]. *)
Definition _interpret_bb (price : Q) (upper lower : num) : string :=
  if (Fin price >=? upper)%num
  then "Price at upper band - Overbought condition"
  else if (Fin price <=? lower)%num
  then "Price at lower band - Oversold condition"
  else
    let pct := ((Fin price - lower) / (upper - lower) * Fin 100)%num in
    "Price at " +:+ format_0f pct +:+ "% of band range".

(** [_generate_recommendation(self, results)], first half: the counters
    [(buy_signals, sell_signals)] once every signal has been scored. *)
Definition count_signals (results : Results) : Z * Z :=
  let buy_signals := 0%Z in
  let sell_signals := 0%Z in
  (* RSI signals *)
  let '(buy_signals, sell_signals) :=
    if String.eqb (rsi_signal (rsi results)) "Oversold"
    then ((buy_signals + 2)%Z, sell_signals)
    else if String.eqb (rsi_signal (rsi results)) "Overbought"
    then (buy_signals, (sell_signals + 2)%Z)
    else (buy_signals, sell_signals) in
  (* MACD signals *)
  let '(buy_signals, sell_signals) :=
    if String.eqb (macd_signal (macd results)) "Buy"
    then ((buy_signals + 2)%Z, sell_signals)
    else if String.eqb (macd_signal (macd results)) "Sell"
    then (buy_signals, (sell_signals + 2)%Z)
    else (buy_signals, sell_signals) in
  (* Bollinger Bands *)
  let '(buy_signals, sell_signals) :=
    if String.eqb (bb_signal (bollinger_bands results)) "Oversold"
    then ((buy_signals + 1)%Z, sell_signals)
    else if String.eqb (bb_signal (bollinger_bands results)) "Overbought"
    then (buy_signals, (sell_signals + 1)%Z)
    else (buy_signals, sell_signals) in
  (* Trend *)
  let '(buy_signals, sell_signals) :=
    if str_in "Uptrend" (trend results)
    then ((buy_signals + 1)%Z, sell_signals)
    else if str_in "Downtrend" (trend results)
    then (buy_signals, (sell_signals + 1)%Z)
    else (buy_signals, sell_signals) in
  (* Volume *)
  let buy_signals :=
    if String.eqb (volume_trend (volume results)) "Increasing"
       && (sell_signals <? buy_signals)%Z
    then (buy_signals + 1)%Z else buy_signals in
  (buy_signals, sell_signals).

(** Second half: the dictionary returned for given counters. *)
Definition recommend (buy_signals sell_signals : Z) : Recommendation :=
  if (sell_signals + 2 <? buy_signals)%Z then
    {| action := "Strong Buy";
       confidence := Z.min 95 (buy_signals * 15);
       reason := "Multiple bullish signals detected ("
                 +:+ str_of_Z buy_signals +:+ " buy vs "
                 +:+ str_of_Z sell_signals +:+ " sell signals)" |}
  else if (sell_signals <? buy_signals)%Z then
    {| action := "Buy";
       confidence := Z.min 80 (buy_signals * 12);
       reason := "Bullish indicators outweigh bearish ("
                 +:+ str_of_Z buy_signals +:+ " buy vs "
                 +:+ str_of_Z sell_signals +:+ " sell signals)" |}
  else if (buy_signals + 2 <? sell_signals)%Z then
    {| action := "Strong Sell";
       confidence := Z.min 95 (sell_signals * 15);
       reason := "Multiple bearish signals detected ("
                 +:+ str_of_Z sell_signals +:+ " sell vs "
                 +:+ str_of_Z buy_signals +:+ " buy signals)" |}
  else if (buy_signals <? sell_signals)%Z then
    {| action := "Sell";
       confidence := Z.min 80 (sell_signals * 12);
       reason := "Bearish indicators outweigh bullish ("
                 +:+ str_of_Z sell_signals +:+ " sell vs "
                 +:+ str_of_Z buy_signals +:+ " buy signals)" |}
  else
    {| action := "Hold";
       confidence := 50;
       reason := "Mixed signals - Wait for clearer trend" |}.

(** [_generate_recommendation(self, results)]. *)
Definition _generate_recommendation (results : Results) : Recommendation :=
  let '(buy_signals, sell_signals) := count_signals results in
  recommend buy_signals sell_signals.

(** The trend label of [calculate_all_indicators]; [a > b > c] is
    [a > b and b > c]. *)
Definition trend_label (current_price : Q) (sma_20 sma_50 : num) : string :=
  if (Fin current_price >? sma_20)%num && (sma_20 >? sma_50)%num
  then "Strong Uptrend"
  else if (Fin current_price >? sma_20)%num then "Uptrend"
  else if (Fin current_price <? sma_20)%num && (sma_20 <? sma_50)%num
  then "Strong Downtrend"
  else if (Fin current_price <? sma_20)%num then "Downtrend"
  else "Sideways".

(** [calculate_all_indicators(self)]. *)
Definition calculate_all_indicators : M Analysis :=
  rsi <- calculate_rsi 14 ;;
  macd_out <- calculate_macd 12 26 9 ;;
  let '(macd, signal, histogram) := macd_out in
  bb_out <- calculate_bollinger_bands 20 2 ;;
  let '(bb_upper, bb_middle, bb_lower) := bb_out in
  support_resistance <- find_support_resistance 5 ;;
  volume_analysis <- analyze_volume ;;
  patterns <- detect_candlestick_patterns ;;
  (* latest values *)
  close <- column Close ;;
  sma_20 <- iloc_last (rolling 20 nmean (map Fin close)) ;;
  sma_50 <- iloc_last (rolling 50 nmean (map Fin close)) ;;
  current_price <- iloc_last close ;;
  let trend := trend_label current_price sma_20 sma_50 in
  (* compile results *)
  rsi_last <- iloc_last rsi ;;
  rsi_signal_col <- get_str "RSI_Signal" ;;
  rsi_signal_last <- iloc_last rsi_signal_col ;;
  macd_last <- iloc_last macd ;;
  signal_last <- iloc_last signal ;;
  histogram_last <- iloc_last histogram ;;
  macd_cross_col <- get_str "MACD_Cross" ;;
  macd_cross_last <- iloc_last macd_cross_col ;;
  bb_upper_last <- iloc_last bb_upper ;;
  bb_middle_last <- iloc_last bb_middle ;;
  bb_lower_last <- iloc_last bb_lower ;;
  bb_width_col <- get_num "BB_Width" ;;
  bb_width_last <- iloc_last bb_width_col ;;
  bb_signal_col <- get_str "BB_Signal" ;;
  bb_signal_last <- iloc_last bb_signal_col ;;
  let results :=
    {| current_price := current_price;
       trend := trend;
       rsi := {| rsi_value := if negb (isna rsi_last) then PyFloat rsi_last
                              else PyInt 0;
                 rsi_signal := rsi_signal_last;
                 rsi_interpretation := _interpret_rsi rsi_last |};
       macd := {| macd_line := macd_last;
                  signal_line := signal_last;
                  histogram := histogram_last;
                  macd_signal := macd_cross_last;
                  macd_interpretation := _interpret_macd histogram_last |};
       bollinger_bands :=
         {| upper := bb_upper_last;
            middle := bb_middle_last;
            lower := bb_lower_last;
            width := bb_width_last;
            bb_signal := bb_signal_last;
            bb_interpretation :=
              _interpret_bb current_price bb_upper_last bb_lower_last |};
       support_resistance := support_resistance;
       volume := volume_analysis;
       patterns := patterns;
       sma_20 := sma_20;
       sma_50 := sma_50 |} in
  (* overall recommendation *)
  ret {| results := results;
         recommendation := _generate_recommendation results |}.

(** [get_data_with_indicators(self)]: [self.data] itself, with whatever
    columns the methods have added so far. *)
Definition get_data_with_indicators : M DataFrame :=
  fun df => (Ok df, df).

End TechnicalIndicators.

Import TechnicalIndicators.

(* ================================================================== *)
(** ** Callers of the engine *)
(* ================================================================== *)

(** Calling a method on the object whose [self.data] is at [self]. *)
Definition call {A} (self : nat) (method : M A) : ST Store A :=
  fun st =>
    match st !! self with
    | None => (Raise KeyError, st)
    | Some df => let '(r, df') := method df in (r, <[self := df']> st)
    end.

(** [ti = TechnicalIndicators(data); ti.calculate_all_indicators()]: the
    analysis of the frame at [data], as the routes of the application and
    [analyze_stock_technical] run it. *)
Definition analyze (data : nat) : ST Store Analysis :=
  ti <- __init__ data ;;
  call ti calculate_all_indicators.

(** [analyze_stock_technical(stock_symbol)], from the value [stock_data]
    returned by [fetch_stock_data]: [None], or a reference to a frame.
    [None] is returned when there is no data or the frame is empty. *)
Definition analyze_stock_technical (stock_data : option nat)
  : ST Store (option Analysis) :=
  match stock_data with
  | None => ret None
  | Some data =>
      fun st =>
        match st !! data with
        | None => (Raise KeyError, st)
        | Some df =>
            if (length (rows df) =? 0)%nat then (Ok None, st)
            else (results <- analyze data ;; ret (Some results)) st
        end
  end.


(** One row of the table built by [technical_scanner]: the keys 'symbol',
    'price', 'trend', 'rsi', 'rsi_signal', 'macd_signal' and
    'recommendation'. *)
Record ScannerRow : Type := mkScannerRow {
  scan_symbol : string;
  scan_price : Q;
  scan_trend : string;
  scan_rsi : number;
  scan_rsi_signal : string;
  scan_macd_signal : string;
  scan_recommendation : Recommendation
}.

(** The symbols scanned by [technical_scanner]. *)
Definition default_stocks : list string :=
  ["RELIANCE.NS"; "TCS.NS"; "INFY.NS"; "HDFCBANK.NS";
   "ICICIBANK.NS"; "HINDUNILVR.NS"; "SBIN.NS"; "BHARTIARTL.NS"].

(** One iteration of the loop of [technical_scanner] in [src/app.py];
    [stock_data symbol] is the value [fetch_stock_data] returns for the
    symbol.  A row is appended when the analysis is a dictionary; the bare
    [except] swallows every exception and moves on. *)
Definition scanner_body (stock_data : string -> option nat)
  (scanner_results : list ScannerRow) (symbol : string)
  : ST Store (list ScannerRow) :=
  fun st =>
    match analyze_stock_technical (stock_data symbol) st with
    | (Ok (Some analysis), st') =>
        (Ok (scanner_results
             ++ [ {| scan_symbol := symbol;
                     scan_price := current_price (results analysis);
                     scan_trend := trend (results analysis);
                     scan_rsi := rsi_value (rsi (results analysis));
                     scan_rsi_signal := rsi_signal (rsi (results analysis));
                     scan_macd_signal :=
                       macd_signal (macd (results analysis));
                     scan_recommendation := recommendation analysis |} ]),
         st')
    | (Ok None, st') => (Ok scanner_results, st')
    | (Raise _, st') => (Ok scanner_results, st')
    end.

(** The scan of [technical_scanner]: the list [scanner_results] handed to
    the page template. *)
Definition technical_scanner (stock_data : string -> option nat)
  : ST Store (list ScannerRow) :=
  for_acc default_stocks (scanner_body stock_data) [].

(* ================================================================== *)
(** ** The specification's reference definitions *)
(* ================================================================== *)

(** The scoring rule of the recommendation engine, in the words of the
    specification: each signal adds its weight to one counter, and an
    increasing volume adds one more to [buy] when [buy] already leads. *)
Definition spec_score
  (rsi_sig macd_cross bb_sig trend_lbl volume_trend_lbl : string) : Z * Z :=
  let weight (c : bool) (w : Z) : Z := if c then w else 0%Z in
  let buy :=
    (weight (String.eqb rsi_sig "Oversold") 2
     + weight (String.eqb macd_cross "Buy") 2
     + weight (String.eqb bb_sig "Oversold") 1
     + weight (str_in "Uptrend" trend_lbl) 1)%Z in
  let sell :=
    (weight (String.eqb rsi_sig "Overbought") 2
     + weight (String.eqb macd_cross "Sell") 2
     + weight (String.eqb bb_sig "Overbought") 1
     + weight (str_in "Downtrend" trend_lbl) 1)%Z in
  let bonus :=
    weight (String.eqb volume_trend_lbl "Increasing" && (buy >? sell)%Z) 1%Z in
  ((buy + bonus)%Z, sell).

(** The final mapping of the specification, first match wins. *)
Definition spec_mapping (buy sell : Z) : string * Z :=
  if (buy >? sell + 2)%Z then ("Strong Buy", Z.min 95 (buy * 15))
  else if (buy >? sell)%Z then ("Buy", Z.min 80 (buy * 12))
  else if (sell >? buy + 2)%Z then ("Strong Sell", Z.min 95 (sell * 15))
  else if (sell >? buy)%Z then ("Sell", Z.min 80 (sell * 12))
  else ("Hold", 50%Z).

(** The score of the specification on the signals of a result. *)
Definition spec_score_of (r : Results) : Z * Z :=
  spec_score (rsi_signal (rsi r)) (macd_signal (macd r))
    (bb_signal (bollinger_bands r)) (trend r) (volume_trend (volume r)).

(** The input contract of the specification: bars strictly increasing by
    date, at least one bar, no negative price or volume. *)
Fixpoint strictly_increasing (zs : list Z) : bool :=
  match zs with
  | [] => true
  | z :: zs' =>
      match zs' with
      | [] => true
      | z' :: _ => (z <? z')%Z && strictly_increasing zs'
      end
  end.

Definition bar_nonnegative (b : Bar) : bool :=
  Qleb 0 (Open b) && Qleb 0 (High b) && Qleb 0 (Low b) && Qleb 0 (Close b)
  && (0 <=? Volume b)%Z.

Definition well_formed (bars : list Bar) : bool :=
  negb (length bars =? 0)%nat
  && strictly_increasing (map Date bars)
  && forallb bar_nonnegative bars.

(** The outcome of a computation is a value, not an exception. *)
Definition is_ok {A} (r : Result A) : bool :=
  match r with Ok _ => true | Raise _ => false end.

(* ================================================================== *)
(** ** The series behind the indicators *)
(* ================================================================== *)

(** The rolling gain and loss of [calculate_rsi], and the RSI it returns,
    as functions of the closes. *)
Definition rsi_gain (period : nat) (close : list Q) : list num :=
  rolling period nmean (where_ (fun d => d >? Fin 0)%num (Fin 0) (diff close)).

Definition rsi_loss (period : nat) (close : list Q) : list num :=
  rolling period nmean
    (map nneg (where_ (fun d => d <? Fin 0)%num (Fin 0) (diff close))).

Definition rsi_of (gain loss : num) : num :=
  (Fin 100 - Fin 100 / (Fin 1 + gain / loss))%num.

Definition rsi_series (period : nat) (close : list Q) : list num :=
  map (fun r => Fin 100 - Fin 100 / (Fin 1 + r))%num
    (zip_with ndiv (rsi_gain period close) (rsi_loss period close)).

(** The label written to 'RSI_Signal' for one RSI value. *)
Definition rsi_label (r : num) : string :=
  if (r <? Fin 30)%num then "Oversold"
  else if (r >? Fin 70)%num then "Overbought"
  else "Neutral".

(** The three series returned by [calculate_macd]. *)
Definition macd_series (fast slow : Z) (close : list Q) : list Q :=
  zip_with Qminus (ewm_mean fast close) (ewm_mean slow close).

Definition signal_series (fast slow signal : Z) (close : list Q) : list Q :=
  ewm_mean signal (macd_series fast slow close).

Definition histogram_series (fast slow signal : Z) (close : list Q)
  : list Q :=
  zip_with Qminus (macd_series fast slow close)
    (signal_series fast slow signal close).

(** The effect of the crossover loop on the labels: iteration [i] rewrites
    label [i] or leaves the labels alone. *)
Definition cross_step (macd_line signal_line : list Q) (labels : list string)
  (i : nat) : list string :=
  let m := nth i macd_line 0 in
  let s := nth i signal_line 0 in
  let m' := nth (i - 1) macd_line 0 in
  let s' := nth (i - 1) signal_line 0 in
  if Qltb s m && Qleb m' s' then <[i := "Buy"]> labels
  else if Qltb m s && Qleb s' m' then <[i := "Sell"]> labels
  else labels.

Definition cross_labels (macd_line signal_line : list Q) : list string :=
  fold_left (cross_step macd_line signal_line)
    (range 1 (length macd_line))
    (replicate (length macd_line) "Hold").

(* ================================================================== *)
(** ** The frame and the results, method by method *)
(* ================================================================== *)

(** [self.data] after [calculate_rsi]: columns 'RSI' and 'RSI_Signal'. *)
Definition rsi_frame (period : nat) (df : DataFrame) : DataFrame :=
  let rsi := rsi_series period (map Close (rows df)) in
  {| rows := rows df;
     cols := <["RSI_Signal" := StrCol (map rsi_label rsi)]>
               (<["RSI" := NumCol rsi]> (cols df)) |}.

(** [self.data] after [calculate_macd]. *)
Definition macd_frame (fast slow signal : Z) (df : DataFrame) : DataFrame :=
  let close := map Close (rows df) in
  let m := macd_series fast slow close in
  let s := signal_series fast slow signal close in
  let h := histogram_series fast slow signal close in
  {| rows := rows df;
     cols := <["MACD_Cross" := StrCol (cross_labels m s)]>
               (<["MACD_Histogram" := NumCol (map Fin h)]>
                  (<["MACD_Signal" := NumCol (map Fin s)]>
                     (<["MACD" := NumCol (map Fin m)]> (cols df)))) |}.

(** The series of [calculate_bollinger_bands]: middle band, rolling
    deviation, upper and lower bands, and the labels of 'BB_Signal'. *)
Definition bb_sma (period : nat) (close : list Q) : list num :=
  rolling period nmean (map Fin close).

Definition bb_std (period : nat) (close : list Q) : list num :=
  rolling period nstd (map Fin close).

Definition bb_upper (period : nat) (std_dev : Z) (close : list Q) : list num :=
  zip_with (fun m s => m + of_Z std_dev * s)%num
    (bb_sma period close) (bb_std period close).

Definition bb_lower (period : nat) (std_dev : Z) (close : list Q) : list num :=
  zip_with (fun m s => m - of_Z std_dev * s)%num
    (bb_sma period close) (bb_std period close).

Definition bb_labels (period : nat) (std_dev : Z) (close : list Q)
  : list string :=
  zip_with (fun (m : bool) x => if m then "Oversold" else x)
    (zip_with (fun c l => Fin c <=? l)%num close (bb_lower period std_dev close))
    (zip_with (fun (m : bool) x => if m then "Overbought" else x)
       (zip_with (fun c u => Fin c >=? u)%num close
          (bb_upper period std_dev close))
       (replicate (length close) "Neutral")).

(** [self.data] after [calculate_bollinger_bands]. *)
Definition bb_frame (period : nat) (std_dev : Z) (df : DataFrame)
  : DataFrame :=
  let close := map Close (rows df) in
  {| rows := rows df;
     cols :=
       <["BB_Signal" := StrCol (bb_labels period std_dev close)]>
         (<["BB_Width" := NumCol (zip_with nsub (bb_upper period std_dev close)
                                    (bb_lower period std_dev close))]>
            (<["BB_Lower" := NumCol (bb_lower period std_dev close)]>
               (<["BB_Upper" := NumCol (bb_upper period std_dev close)]>
                  (<["BB_Middle" := NumCol (bb_sma period close)]>
                     (cols df))))) |}.

(** The dictionary returned by [find_support_resistance] when the current
    price is [current_price]. *)
Definition levels_of (order : nat) (bars : list Bar) (current_price : Q)
  : Levels :=
  let low := map Low bars in
  let high := map High bars in
  let support :=
    cluster_levels (take_rows (argrelextrema low Qleb order) low) (2 # 100) in
  let resistance :=
    cluster_levels
      (take_rows (argrelextrema high (fun a b => Qleb b a) order) high)
      (2 # 100) in
  {| support_levels := last_n 5 support;
     resistance_levels := last_n 5 resistance;
     nearest_support :=
       max_of (List.filter (fun s => Qltb s current_price) support);
     nearest_resistance :=
       min_of (List.filter (fun r => Qltb current_price r) resistance);
     levels_current_price := current_price |}.

(** The effect of one iteration of the On-Balance-Volume loop on [obv]. *)
Definition obv_step (close : list Q) (volume : list Z) (obv : list Z)
  (i : nat) : list Z :=
  let c := nth i close 0 in
  let c' := nth (i - 1) close 0 in
  let o := default 0%Z (last obv) in
  let v := nth i volume 0%Z in
  if Qltb c' c then obv ++ [wrap64 (o + v)]
  else if Qltb c c' then obv ++ [wrap64 (o - v)]
  else obv ++ [o].

(** The list [obv] when the loop ends. *)
Definition obv_series (close : list Q) (volume : list Z) : list Z :=
  fold_left (obv_step close volume) (range 1 (length close)) [0%Z].

(** The columns 'Volume_MA' and 'Volume_Spike'. *)
Definition volume_ma (volume : list Z) : list num :=
  rolling 20 nmean (map of_Z volume).

Definition volume_spikes (volume : list Z) : list bool :=
  zip_with (fun v m => of_Z v >? Fin 2 * m)%num volume (volume_ma volume).

(** [self.data] after [analyze_volume]. *)
Definition volume_frame (df : DataFrame) : DataFrame :=
  let volume := map Volume (rows df) in
  {| rows := rows df;
     cols :=
       <["OBV" := IntCol (obv_series (map Close (rows df)) volume)]>
         (<["Volume_Spike" := BoolCol (volume_spikes volume)]>
            (<["Volume_MA" := NumCol (volume_ma volume)]> (cols df))) |}.

(** The dictionary returned by [analyze_volume] on a non-empty frame. *)
Definition volume_of (bars : list Bar) : VolumeResult :=
  let volume := map Volume bars in
  {| current_volume := default 0%Z (last volume);
     avg_volume := default NaN (last (volume_ma volume));
     volume_trend :=
       if (nmean (map of_Z (last_n 20 volume))
           >? nmean (map of_Z (slice_neg 40 20 volume)))%num
       then "Increasing" else "Decreasing";
     obv := default 0%Z (last (obv_series (map Close bars) volume));
     recent_spikes := count_true (last_n 10 (volume_spikes volume)) |}.

(** A default bar, for total indexing. *)
Definition bar0 : Bar := mkBar 0 0 0 0 0 0.

(** The events of bar [i]. *)
Definition events_at (bars : list Bar) (i : nat) : list Pattern :=
  candle_events (nth (i - 1) bars bar0) (nth i bars bar0).

(** Every event of the series, in the order of the loop. *)
Definition all_events (bars : list Bar) : list Pattern :=
  flat_map (events_at bars) (range 2 (length bars)).

(** The dictionary compiled by [calculate_all_indicators] on a non-empty
    frame, as a function of its rows. *)
Definition results_of (bars : list Bar) : Results :=
  let close := map Close bars in
  let current_price := default 0 (last close) in
  let sma_20 := default NaN (last (rolling 20 nmean (map Fin close))) in
  let sma_50 := default NaN (last (rolling 50 nmean (map Fin close))) in
  let rsi_last := default NaN (last (rsi_series 14 close)) in
  let histogram_last := default 0 (last (histogram_series 12 26 9 close)) in
  let bb_upper_last := default NaN (last (bb_upper 20 2 close)) in
  let bb_lower_last := default NaN (last (bb_lower 20 2 close)) in
  {| current_price := current_price;
     trend := trend_label current_price sma_20 sma_50;
     rsi :=
       {| rsi_value := if negb (isna rsi_last) then PyFloat rsi_last
                       else PyInt 0;
          rsi_signal := default "" (last (map rsi_label (rsi_series 14 close)));
          rsi_interpretation := _interpret_rsi rsi_last |};
     macd :=
       {| macd_line := default 0 (last (macd_series 12 26 close));
          signal_line := default 0 (last (signal_series 12 26 9 close));
          histogram := histogram_last;
          macd_signal :=
            default "" (last (cross_labels (macd_series 12 26 close)
                                (signal_series 12 26 9 close)));
          macd_interpretation := _interpret_macd histogram_last |};
     bollinger_bands :=
       {| upper := bb_upper_last;
          middle := default NaN (last (bb_sma 20 close));
          lower := bb_lower_last;
          width := default NaN (last (zip_with nsub (bb_upper 20 2 close)
                                        (bb_lower 20 2 close)));
          bb_signal := default "" (last (bb_labels 20 2 close));
          bb_interpretation :=
            _interpret_bb current_price bb_upper_last bb_lower_last |};
     support_resistance := levels_of 5 bars current_price;
     volume := volume_of bars;
     patterns := last_n 10 (all_events bars);
     sma_20 := sma_20;
     sma_50 := sma_50 |}.

(** The value returned by [calculate_all_indicators] on a non-empty
    frame. *)
Definition analysis_of (bars : list Bar) : Analysis :=
  {| results := results_of bars;
     recommendation := _generate_recommendation (results_of bars) |}.

(** The frame once every indicator method has run. *)
Definition indicator_frame (df : DataFrame) : DataFrame :=
  volume_frame (bb_frame 20 2 (macd_frame 12 26 9 (rsi_frame 14 df))).

(* ================================================================== *)
(** ** Predicates on series *)
(* ================================================================== *)

(** Dates in date order (equal dates allowed). *)
Fixpoint nondecreasing (zs : list Z) : Prop :=
  match zs with
  | [] => True
  | z :: zs' =>
      match zs' with
      | [] => True
      | z' :: _ => (z <= z')%Z /\ nondecreasing zs'
      end
  end.

(** A series is strictly increasing. *)
Fixpoint Qincreasing (xs : list Q) : Prop :=
  match xs with
  | [] => True
  | x :: xs' =>
      match xs' with
      | [] => True
      | y :: _ => x < y /\ Qincreasing xs'
      end
  end.

(** Closes that rise by steps that never shrink: from the close [c], reached
    by a step [d], every step is positive and at least the one before. *)
Fixpoint steps_grow (c d : Q) (xs : list Q) : Prop :=
  match xs with
  | [] => True
  | x :: xs' => 0 < x - c /\ d <= x - c /\ steps_grow x (x - c) xs'
  end.

Definition Qaccelerating (close : list Q) : Prop :=
  match close with
  | [] => True
  | c :: xs => steps_grow c 0 xs
  end.

(** A finite, non-negative value. *)
Definition fin_nonneg (x : num) : Prop :=
  match x with
  | Fin q => 0 <= q
  | _ => False
  end.

(** A difference of closes: NaN (first bar) or finite. *)
Definition nan_or_fin (x : num) : Prop :=
  match x with
  | NaN | Fin _ => True
  | _ => False
  end.

(* ================================================================== *)
(** ** Clustering, level by level *)
(* ================================================================== *)

(** The test of [cluster_levels]: [level] joins the cluster of mean [m]. *)
Definition near (tolerance m level : Q) : bool :=
  (nabs (Fin level - Fin m) / Fin m <? Fin tolerance)%num.

(** The loop of [cluster_levels] from the state [([], current_cluster)],
    with the closing [clusters.append] included. *)
Fixpoint cluster_from (tolerance : Q) (current_cluster rest : list Q)
  : list Q :=
  match rest with
  | [] => [Qmean current_cluster]
  | level :: rest' =>
      if near tolerance (Qmean current_cluster) level
      then cluster_from tolerance (current_cluster ++ [level]) rest'
      else Qmean current_cluster :: cluster_from tolerance [level] rest'
  end.

(** Every element is at most the elements after it. *)
Fixpoint ascending (l : list Q) : Prop :=
  match l with
  | [] => True
  | a :: l' => Forall (Qle a) l' /\ ascending l'
  end.

(** Consecutive levels are in order and the second does not join the
    first. *)
Fixpoint separated (tolerance : Q) (l : list Q) : Prop :=
  match l with
  | [] => True
  | a :: l' =>
      match l' with
      | [] => True
      | b :: _ => a <= b /\ near tolerance a b = false /\ separated tolerance l'
      end
  end.

(* ================================================================== *)
(** ** Sample frames *)
(* ================================================================== *)

(** One bar per close, dated by its position: open = close, high one
    above, low one below, volume 1000. *)
Definition frame_of_closes (closes : list Z) : DataFrame :=
  mkDF (imap (fun i c => mkBar (Z.of_nat i) (inject_Z c) (inject_Z c + 1)
                           (inject_Z c - 1) (inject_Z c) 1000) closes) ∅.

(** No bar at all. *)
Definition empty_frame : DataFrame := mkDF [] ∅.

(** A single bar. *)
Definition single_frame : DataFrame := mkDF [ mkBar 1 10 11 9 10 100 ] ∅.

(** Two bars, the later one first. *)
Definition unsorted_frame : DataFrame :=
  mkDF [ mkBar 2 10 11 9 10 100; mkBar 1 12 13 11 12 100 ] ∅.

(** A bar with negative prices and a negative volume. *)
Definition negative_frame : DataFrame :=
  mkDF [ mkBar 1 (-5) 1 (-6) (-5) (-100) ] ∅.

(** Three well-formed bars. *)
Definition short_frame : DataFrame :=
  mkDF [ mkBar 1 10 11 9 10 100; mkBar 2 11 12 10 11 100;
         mkBar 3 12 13 11 12 100 ] ∅.

(** Fifteen bars closing at 100. *)
Definition flat_frame : DataFrame := frame_of_closes (replicate 15 100%Z).

(** Fourteen bars closing at 100, 101, ..., 113. *)
Definition rising_frame : DataFrame :=
  frame_of_closes (map Z.of_nat (seq 100 14)).

(** Fourteen bars closing at 200, 199, ..., 187. *)
Definition falling_frame : DataFrame :=
  frame_of_closes (map (fun i => (200 - Z.of_nat i)%Z) (seq 0 14)).

(** A jump from 1 to 1001, then sixteen rises of 1. *)
Definition slowing_frame : DataFrame :=
  frame_of_closes (1%Z :: map Z.of_nat (seq 1001 16)).

(** Rises of 1, 2 and 3. *)
Definition steady_frame : DataFrame := frame_of_closes [10; 11; 13; 16]%Z.

(** The label of bar [i] once the crossover loop of [calculate_macd] has
    run. *)
Definition cross_label (macd_line signal_line : list Q) (i : nat) : string :=
  if (i =? 0)%nat then "Hold"
  else if Qltb (nth i signal_line 0) (nth i macd_line 0)
          && Qleb (nth (i - 1) macd_line 0) (nth (i - 1) signal_line 0)
  then "Buy"
  else if Qltb (nth i macd_line 0) (nth i signal_line 0)
          && Qleb (nth (i - 1) signal_line 0) (nth (i - 1) macd_line 0)
  then "Sell"
  else "Hold".

(** The value appended to [obv] for bar [i] when the last value is [o]. *)
Definition obv_next (close : list Q) (volume : list Z) (o : Z) (i : nat)
  : Z :=
  if Qltb (nth (i - 1) close 0) (nth i close 0)
  then wrap64 (o + nth i volume 0%Z)
  else if Qltb (nth i close 0) (nth (i - 1) close 0)
  then wrap64 (o - nth i volume 0%Z)
  else o.

(** The close of bar [j] is above the close of the bar before it. *)
Definition rose (close : list Q) (j : nat) : Prop :=
  (1 <= j)%nat /\ nth (j - 1) close 0 < nth j close 0.

(** The close of bar [j] is below the close of the bar before it. *)
Definition fell (close : list Q) (j : nat) : Prop :=
  (1 <= j)%nat /\ nth j close 0 < nth (j - 1) close 0.

(** A finite value that is zero; a finite value above zero. *)
Definition fin_zero (x : num) : Prop :=
  match x with
  | Fin q => q == 0
  | _ => False
  end.

Definition fin_pos (x : num) : Prop :=
  match x with
  | Fin q => 0 < q
  | _ => False
  end.

(** The columns that the six indicator methods add to the frame. *)
Definition indicator_columns : list string :=
  ["RSI"; "RSI_Signal"; "MACD"; "MACD_Signal"; "MACD_Histogram";
   "MACD_Cross"; "BB_Middle"; "BB_Upper"; "BB_Lower"; "BB_Width";
   "BB_Signal"; "Volume_MA"; "Volume_Spike"; "OBV"].

(** The dictionary [results] with another volume trend. *)
Definition with_volume_trend (r : Results) (t : string) : Results :=
  {| current_price := current_price r;
     trend := trend r;
     rsi := rsi r;
     macd := macd r;
     bollinger_bands := bollinger_bands r;
     support_resistance := support_resistance r;
     volume := {| current_volume := current_volume (volume r);
                  avg_volume := avg_volume (volume r);
                  volume_trend := t;
                  obv := obv (volume r);
                  recent_spikes := recent_spikes (volume r) |};
     patterns := patterns r;
     sma_20 := sma_20 r;
     sma_50 := sma_50 r |}.

(** The row of the scanner for one symbol, from the frames of the store:
    none when there is no data or the frame is empty. *)
(** Two frames hold the same bars and, under every name, the same column.
    The order in which the columns were added is not compared. *)
Definition same_columns (f1 f2 : DataFrame) : Prop :=
  rows f1 = rows f2 /\ forall name, cols f1 !! name = cols f2 !! name.

(** The row that [technical_scanner] builds from an analysis. *)
Definition scanner_row (symbol : string) (analysis : Analysis) : ScannerRow :=
  {| scan_symbol := symbol;
     scan_price := current_price (results analysis);
     scan_trend := trend (results analysis);
     scan_rsi := rsi_value (rsi (results analysis));
     scan_rsi_signal := rsi_signal (rsi (results analysis));
     scan_macd_signal := macd_signal (macd (results analysis));
     scan_recommendation := recommendation analysis |}.

(** The symbols for which [fetch_stock_data] returns a frame with at least
    one bar. *)
Definition has_bars (st : Store) (stock_data : string -> option nat)
  (symbol : string) : bool :=
  match stock_data symbol with
  | None => false
  | Some data =>
      match st !! data with
      | None => false
      | Some df => negb (length (rows df) =? 0)%nat
      end
  end.

Definition scanned (st : Store) (stock_data : string -> option nat)
  (symbol : string) : option ScannerRow :=
  match stock_data symbol with
  | None => None
  | Some data =>
      match st !! data with
      | None => None
      | Some df =>
          if (length (rows df) =? 0)%nat then None
          else
            let analysis := analysis_of (rows (sort_values_Date df)) in
            Some {| scan_symbol := symbol;
                    scan_price := current_price (results analysis);
                    scan_trend := trend (results analysis);
                    scan_rsi := rsi_value (rsi (results analysis));
                    scan_rsi_signal := rsi_signal (rsi (results analysis));
                    scan_macd_signal :=
                      macd_signal (macd (results analysis));
                    scan_recommendation := recommendation analysis |}
      end
  end.

(* ================================================================== *)
(** ** float64 arithmetic with its rounding *)
(* ================================================================== *)

(** The binary exponent of a positive rational: the [e] with
    [2^e <= a < 2^(e+1)]. *)
Definition floor_log2 (a : Q) : Z :=
  let e := (Z.log2 (Qnum a) - Z.log2 (QDen a))%Z in
  if Qleb (2 ^ e) a then e else (e - 1)%Z.

(** A positive rational rounded to 53 significant bits, ties to even; the
    unit in the last place is [2^(e-52)] for the exponent [e] of the
    number, and [2^-1074] for the subnormal numbers below [2^-1022]. *)
Definition round_magnitude (a : Q) : Q :=
  let e := Z.max (floor_log2 a) (-1022) in
  let ulp := 2 ^ (e - 52) in
  inject_Z (round_half_even (a / ulp)) * ulp.

(** Rounding to the nearest binary64 number; from [2^1024] on the result
    is an infinity.  The result is in lowest terms. *)
Definition round64 (q : Q) : num :=
  let q := Qred q in
  if Qeqb q 0 then Fin 0
  else
    let r := round_magnitude (Qabs q) in
    if Qleb (2 ^ 1024) r then (if Qltb q 0 then NegInf else PosInf)
    else Fin (Qred (if Qltb q 0 then - r else r)).

(** The value of a float64 operation: the exact result, rounded. *)
Definition fl (x : num) : num :=
  match x with
  | Fin q => round64 q
  | _ => x
  end.

Definition fadd (a b : num) : num := fl (a + b)%num.
Definition fsub (a b : num) : num := fl (a - b)%num.
Definition fdiv (a b : num) : num := fl (a / b)%num.

(** A rational that is a binary64 number (in lowest terms). *)
Definition binary64 (q : Q) : Prop := round64 q = Fin q.

(** The float64 number that a decimal literal or an input value denotes. *)
Definition f64 (q : Q) : Q :=
  match round64 q with
  | Fin r => r
  | _ => 0
  end.

(** numpy's pairwise summation of a contiguous float64 array
    ([DOUBLE_pairwise_sum]), on which [np.add.reduce], and so [np.mean],
    rest: fewer than 8 numbers are added from left to right; up to 128
    numbers are added into 8 accumulators which are then combined, the
    remainder being added one by one; a longer array is split near its
    middle, at a multiple of 8. *)
Definition pairwise_block (a : list Q) : num :=
  let n := length a in
  let m := (n - n mod 8)%nat in
  let r :=
    fold_left (fun r i => zip_with fadd r (map Fin (take 8 (drop i a))))
      (map (fun k => 8 * k)%nat (seq 1 (m / 8 - 1)))
      (map Fin (take 8 a)) in
  let res :=
    match r with
    | [r0; r1; r2; r3; r4; r5; r6; r7] =>
        fadd (fadd (fadd r0 r1) (fadd r2 r3))
             (fadd (fadd r4 r5) (fadd r6 r7))
    | _ => NaN
    end in
  fold_left (fun res x => fadd res (Fin x)) (drop m a) res.

(** The recursion is on [fuel], of which the length of the array is
    enough: each half is shorter than the whole. *)
Fixpoint pairwise_sum_rec (fuel : nat) (a : list Q) : num :=
  let n := length a in
  if (n <? 8)%nat then fold_left (fun res x => fadd res (Fin x)) a (Fin 0)
  else if (n <=? 128)%nat then pairwise_block a
  else
    match fuel with
    | O => NaN
    | S fuel' =>
        let n2 := (n / 2 - (n / 2) mod 8)%nat in
        fadd (pairwise_sum_rec fuel' (take n2 a))
             (pairwise_sum_rec fuel' (drop n2 a))
    end.

Definition pairwise_sum (a : list Q) : num := pairwise_sum_rec (length a) a.

(** [np.mean] of a list of float64 numbers: the pairwise sum over the
    count, rounded. *)
Definition mean64 (xs : list Q) : num :=
  fdiv (pairwise_sum xs) (of_nat (length xs)).

(** The test of [cluster_levels] in float64:
    [abs(level - mean) / mean < tolerance]. *)
Definition near64 (tolerance m : num) (level : Q) : bool :=
  (fdiv (nabs (fsub (Fin level) m)) m <? tolerance)%num.

(** One step of the loop of [cluster_levels], in float64: the state is
    [(clusters, current_cluster)]. *)
Definition cluster_step64 (tolerance : num) (st : list num * list Q)
  (level : Q) : list num * list Q :=
  let '(clusters, current_cluster) := st in
  if near64 tolerance (mean64 current_cluster) level
  then (clusters, current_cluster ++ [level])
  else (clusters ++ [mean64 current_cluster], [level]).

(** [cluster_levels(levels, tolerance)] on float64 levels, every operation
    rounded as numpy rounds it. *)
Definition cluster_levels64 (levels : list Q) (tolerance : num) : list num :=
  if (length levels =? 0)%nat then []
  else
    match sorted levels with
    | [] => []
    | level0 :: rest =>
        let '(clusters, current_cluster) :=
          fold_left (cluster_step64 tolerance) rest ([], [level0]) in
        clusters ++ [mean64 current_cluster]
    end.

(** The default [tolerance=0.02]. *)
Definition tolerance64 : num := round64 (2 # 100).

(** The loop of [cluster_levels64] from the state [([], current_cluster)],
    with the closing [clusters.append] included. *)
Fixpoint cluster_from64 (tolerance : num) (current_cluster rest : list Q)
  : list num :=
  match rest with
  | [] => [mean64 current_cluster]
  | level :: rest' =>
      if near64 tolerance (mean64 current_cluster) level
      then cluster_from64 tolerance (current_cluster ++ [level]) rest'
      else mean64 current_cluster
           :: cluster_from64 tolerance [level] rest'
  end.

(** No level joins the level before it. *)
Fixpoint unmerged (tolerance : num) (l : list Q) : Prop :=
  match l with
  | [] => True
  | a :: l' =>
      match l' with
      | [] => True
      | b :: _ => near64 tolerance (Fin a) b = false /\ unmerged tolerance l'
      end
  end.

(** Lows of 11.5 and, three times, 11.73. *)
Definition rounded_lows : list Q :=
  [f64 (115 # 10); f64 (1173 # 100); f64 (1173 # 100); f64 (1173 # 100)].

(* ================================================================== *)
(** * Properties *)
(* ================================================================== *)

(** ** Rational comparisons *)

Lemma Qltb_lt (a b : Q) : Qltb a b = true <-> a < b.
Proof. unfold Qltb, Qlt. apply Z.ltb_lt. Qed.

Lemma Qleb_le (a b : Q) : Qleb a b = true <-> a <= b.
Proof. unfold Qleb, Qle. apply Z.leb_le. Qed.

Lemma Qeqb_eq (a b : Q) : Qeqb a b = true <-> a == b.
Proof. unfold Qeqb, Qeq. apply Z.eqb_eq. Qed.

Lemma Qltb_nlt (a b : Q) : Qltb a b = false <-> b <= a.
Proof.
  unfold Qltb, Qle. rewrite Z.ltb_ge. reflexivity.
Qed.

Lemma Qleb_nle (a b : Q) : Qleb a b = false <-> b < a.
Proof.
  unfold Qleb, Qlt. rewrite Z.leb_gt. reflexivity.
Qed.

Lemma Qeqb_neq (a b : Q) : Qeqb a b = false <-> ~ a == b.
Proof.
  unfold Qeqb, Qeq. rewrite Z.eqb_neq. reflexivity.
Qed.

(** Case analysis on the rational comparisons of a goal or hypothesis. *)
Ltac qcases :=
  repeat match goal with
    | |- context [Qltb ?a ?b] =>
        let E := fresh "E" in
        destruct (Qltb a b) eqn:E;
        [apply Qltb_lt in E | apply Qltb_nlt in E]
    | |- context [Qleb ?a ?b] =>
        let E := fresh "E" in
        destruct (Qleb a b) eqn:E;
        [apply Qleb_le in E | apply Qleb_nle in E]
    | |- context [Qeqb ?a ?b] =>
        let E := fresh "E" in
        destruct (Qeqb a b) eqn:E;
        [apply Qeqb_eq in E | apply Qeqb_neq in E]
    end.

(** ** The interpretation of the RSI *)

(** C9 (as stated): at an RSI of exactly 50 the text is "Bearish momentum",
    not the "Bullish momentum" of the 50-70 bracket; and an RSI below 30
    is "Oversold - Consider buying", not "Bearish momentum". *)
Lemma interpret_rsi_50_not_bullish :
  _interpret_rsi (Fin 50) = "Bearish momentum"
  /\ _interpret_rsi (Fin 50) <> "Bullish momentum"
  /\ _interpret_rsi (Fin 20) <> "Bearish momentum".
Proof. vm_compute. repeat split; discriminate. Qed.

(** C9 (amended): the interpretation is "Insufficient data" for an
    undefined RSI, "Overbought - Consider selling" above 70, "Oversold -
    Consider buying" below 30, "Bullish momentum" for 50 < RSI <= 70 and
    "Bearish momentum" for 30 <= RSI <= 50. *)
Theorem interpret_rsi_brackets (v : Q) :
  _interpret_rsi NaN = "Insufficient data"
  /\ (70 < v -> _interpret_rsi (Fin v) = "Overbought - Consider selling")
  /\ (v < 30 -> _interpret_rsi (Fin v) = "Oversold - Consider buying")
  /\ (50 < v <= 70 -> _interpret_rsi (Fin v) = "Bullish momentum")
  /\ (30 <= v <= 50 -> _interpret_rsi (Fin v) = "Bearish momentum").
Proof.
  unfold _interpret_rsi, ngt, nlt; simpl.
  repeat split; intros; qcases; try reflexivity; lra.
Qed.

Lemma interpret_rsi_brackets_witness :
  _interpret_rsi (Fin 60) = "Bullish momentum"
  /\ _interpret_rsi (Fin 40) = "Bearish momentum"
  /\ _interpret_rsi (Fin 10) = "Oversold - Consider buying"
  /\ _interpret_rsi (Fin 71) = "Overbought - Consider selling".
Proof.
  split; [ apply (interpret_rsi_brackets 60); lra |].
  split; [ apply (interpret_rsi_brackets 40); lra |].
  split; [ apply (interpret_rsi_brackets 10); lra |].
  apply (interpret_rsi_brackets 71); lra.
Defined.

(** ** The recommendation rule *)

(** Case analysis on every test made by [count_signals]. *)
Ltac signal_cases r :=
  destruct (String.eqb_spec (rsi_signal (rsi r)) "Oversold");
  destruct (String.eqb_spec (rsi_signal (rsi r)) "Overbought");
  destruct (String.eqb_spec (macd_signal (macd r)) "Buy");
  destruct (String.eqb_spec (macd_signal (macd r)) "Sell");
  destruct (String.eqb_spec (bb_signal (bollinger_bands r)) "Oversold");
  destruct (String.eqb_spec (bb_signal (bollinger_bands r)) "Overbought");
  destruct (str_in "Uptrend" (trend r)) eqn:?;
  destruct (str_in "Downtrend" (trend r)) eqn:?;
  destruct (String.eqb_spec (volume_trend (volume r)) "Increasing");
  try congruence.

(** The counters stay small: at most 7 buy signals and 6 sell signals. *)
Lemma count_signals_range (r : Results) :
  (0 <= fst (count_signals r) <= 7)%Z /\ (0 <= snd (count_signals r) <= 6)%Z.
Proof.
  unfold count_signals. signal_cases r; simpl; lia.
Qed.

(** The counters are those of the specification, unless the trend label
    contains both "Uptrend" and "Downtrend". *)
Lemma count_signals_spec (r : Results) :
  str_in "Uptrend" (trend r) && str_in "Downtrend" (trend r) = false ->
  count_signals r = spec_score_of r.
Proof.
  unfold count_signals, spec_score_of, spec_score.
  signal_cases r; simpl; intros; try discriminate; f_equal; lia.
Qed.

(** The decision is the mapping of the specification. *)
Lemma recommend_spec (buy sell : Z) :
  (action (recommend buy sell), confidence (recommend buy sell))
  = spec_mapping buy sell.
Proof.
  unfold recommend, spec_mapping.
  rewrite !Z.gtb_ltb.
  repeat match goal with
         | |- context [Z.ltb ?a ?b] => destruct (Z.ltb a b)
         end; reflexivity.
Qed.

(** The reason string of every action but "Hold" shows both counters. *)
Lemma recommend_reason (buy sell : Z) :
  (0 <= buy <= 7)%Z -> (0 <= sell <= 6)%Z ->
  if String.eqb (action (recommend buy sell)) "Hold"
  then reason (recommend buy sell) = "Mixed signals - Wait for clearer trend"
  else str_in (str_of_Z buy) (reason (recommend buy sell)) = true
       /\ str_in (str_of_Z sell) (reason (recommend buy sell)) = true.
Proof.
  intros Hb Hs.
  assert (Hb' : In buy [0; 1; 2; 3; 4; 5; 6; 7]%Z) by (simpl; lia).
  assert (Hs' : In sell [0; 1; 2; 3; 4; 5; 6]%Z) by (simpl; lia).
  simpl in Hb', Hs'.
  repeat (destruct Hb' as [<- | Hb']; [| ]); try contradiction;
    repeat (destruct Hs' as [<- | Hs']; [| ]); try contradiction;
    vm_compute; auto.
Qed.

(** C6: the confidence of a recommendation is an integer between 0 and 100
    and its action is one of the five labels; the buy counter never exceeds
    7 and the sell counter never exceeds 6. *)
Theorem recommendation_confidence_and_action (r : Results) :
  (0 <= confidence (_generate_recommendation r) <= 100)%Z
  /\ In (action (_generate_recommendation r))
        ["Strong Buy"; "Buy"; "Hold"; "Sell"; "Strong Sell"]
  /\ (0 <= fst (count_signals r) <= 7)%Z
  /\ (0 <= snd (count_signals r) <= 6)%Z.
Proof.
  pose proof (count_signals_range r) as [Hb Hs].
  unfold _generate_recommendation.
  destruct (count_signals r) as [buy sell]; simpl in *.
  split; [| split; [| split; assumption]].
  - unfold recommend.
    repeat match goal with
           | |- context [Z.ltb ?a ?b] => destruct (Z.ltb a b)
           end; simpl; lia.
  - unfold recommend.
    repeat match goal with
           | |- context [Z.ltb ?a ?b] => destruct (Z.ltb a b)
           end; simpl; tauto.
Qed.

(** ** Running monadic code *)

Lemma bind_run {S A B} (m : ST S A) (k : A -> ST S B) s a s1 :
  m s = (Ok a, s1) -> bind m k s = k a s1.
Proof. intros H. unfold bind. rewrite H. reflexivity. Qed.

Lemma bind_raise {S A B} (m : ST S A) (k : A -> ST S B) s e s1 :
  m s = (Raise e, s1) -> bind m k s = (Raise e, s1).
Proof. intros H. unfold bind. rewrite H. reflexivity. Qed.

Lemma set_col_run name c df :
  col_length c = length (rows df) ->
  set_col name c df
  = (Ok tt, {| rows := rows df; cols := <[name := c]> (cols df) |}).
Proof.
  intros H. unfold set_col. rewrite H, Nat.eqb_refl. reflexivity.
Qed.

Lemma get_str_run name xs df :
  cols df !! name = Some (StrCol xs) -> get_str name df = (Ok xs, df).
Proof. intros H. unfold get_str. rewrite H. reflexivity. Qed.

Lemma get_num_run name xs df :
  cols df !! name = Some (NumCol xs) -> get_num name df = (Ok xs, df).
Proof. intros H. unfold get_num. rewrite H. reflexivity. Qed.

Lemma get_bool_run name xs df :
  cols df !! name = Some (BoolCol xs) -> get_bool name df = (Ok xs, df).
Proof. intros H. unfold get_bool. rewrite H. reflexivity. Qed.

Lemma get_int_run name xs df :
  cols df !! name = Some (IntCol xs) -> get_int name df = (Ok xs, df).
Proof. intros H. unfold get_int. rewrite H. reflexivity. Qed.

Lemma loc_set_mask_run mask name label xs df :
  cols df !! name = Some (StrCol xs) ->
  length mask = length (rows df) -> length xs = length (rows df) ->
  loc_set_mask mask name label df
  = (Ok tt,
     {| rows := rows df;
        cols := <[name := StrCol (zip_with (fun (m : bool) x =>
                                              if m then label else x) mask xs)]>
                  (cols df) |}).
Proof.
  intros H Hm Hx. unfold loc_set_mask.
  rewrite (bind_run _ _ _ _ _ (get_str_run _ _ _ H)).
  apply set_col_run. simpl. rewrite length_zip_with. lia.
Qed.

Lemma loc_set_at_run i name label xs df :
  cols df !! name = Some (StrCol xs) ->
  length xs = length (rows df) ->
  loc_set_at i name label df
  = (Ok tt,
     {| rows := rows df;
        cols := <[name := StrCol (<[i := label]> xs)]> (cols df) |}).
Proof.
  intros H Hx. unfold loc_set_at.
  rewrite (bind_run _ _ _ _ _ (get_str_run _ _ _ H)).
  apply set_col_run. simpl. rewrite length_insert. exact Hx.
Qed.

Lemma iloc_run {S A} (xs : list A) i x (s : S) :
  xs !! i = Some x -> iloc xs i s = (Ok x, s).
Proof. intros H. unfold iloc. rewrite H. reflexivity. Qed.

Lemma iloc_last_run {S A} (xs : list A) x (s : S) :
  last xs = Some x -> iloc_last xs s = (Ok x, s).
Proof. intros H. unfold iloc_last. rewrite H. reflexivity. Qed.

(** ** Lengths *)

Lemma diff_length xs : length (diff xs) = length xs.
Proof.
  destruct xs as [| x xs]; [reflexivity |].
  unfold diff. cbn [length]. rewrite length_zip_with. cbn [length]. lia.
Qed.

Lemma where_length c o xs : length (where_ c o xs) = length xs.
Proof. unfold where_. apply length_map. Qed.

Lemma rolling_length w agg xs : length (rolling w agg xs) = length xs.
Proof. unfold rolling. rewrite length_map, length_seq. reflexivity. Qed.

Lemma ewm_from_length a p xs : length (ewm_from a p xs) = length xs.
Proof.
  revert p. induction xs as [| x xs IH]; intros p; simpl; [reflexivity |].
  rewrite IH. reflexivity.
Qed.

Lemma ewm_mean_length span xs : length (ewm_mean span xs) = length xs.
Proof.
  destruct xs; simpl; [reflexivity |]. rewrite ewm_from_length. reflexivity.
Qed.

Lemma rsi_gain_length p close : length (rsi_gain p close) = length close.
Proof.
  unfold rsi_gain. rewrite rolling_length, where_length. apply diff_length.
Qed.

Lemma rsi_loss_length p close : length (rsi_loss p close) = length close.
Proof.
  unfold rsi_loss.
  rewrite rolling_length, length_map, where_length. apply diff_length.
Qed.

Lemma rsi_series_length p close : length (rsi_series p close) = length close.
Proof.
  unfold rsi_series.
  rewrite length_map, length_zip_with, rsi_gain_length, rsi_loss_length. lia.
Qed.

Lemma macd_series_length f s close :
  length (macd_series f s close) = length close.
Proof.
  unfold macd_series. rewrite length_zip_with, !ewm_mean_length. lia.
Qed.

Lemma signal_series_length f s g close :
  length (signal_series f s g close) = length close.
Proof.
  unfold signal_series. rewrite ewm_mean_length. apply macd_series_length.
Qed.

Lemma histogram_series_length f s g close :
  length (histogram_series f s g close) = length close.
Proof.
  unfold histogram_series.
  rewrite length_zip_with, macd_series_length, signal_series_length. lia.
Qed.

(** ** calculate_rsi *)

Lemma rsi_labels_masks (rsi : list num) :
  zip_with (fun (m : bool) x => if m then "Oversold" else x)
    (map (fun r => r <? Fin 30)%num rsi)
    (zip_with (fun (m : bool) x => if m then "Overbought" else x)
       (map (fun r => r >? Fin 70)%num rsi)
       (replicate (length rsi) "Neutral"))
  = map rsi_label rsi.
Proof.
  induction rsi as [| r rsi IH]; [reflexivity |].
  cbn [map length replicate zip_with]. rewrite IH. unfold rsi_label.
  destruct (r <? Fin 30)%num, (r >? Fin 70)%num; reflexivity.
Qed.

Lemma calculate_rsi_run period df :
  calculate_rsi period df
  = (Ok (rsi_series period (map Close (rows df))), rsi_frame period df).
Proof.
  unfold calculate_rsi.
  unfold bind at 1. unfold column at 1.
  fold (rsi_gain period (map Close (rows df))).
  fold (rsi_loss period (map Close (rows df))).
  fold (rsi_series period (map Close (rows df))).
  set (rsi := rsi_series period (map Close (rows df))).
  assert (Hlen : length rsi = length (rows df)).
  { subst rsi. rewrite rsi_series_length. apply length_map. }
  rewrite (bind_run _ _ _ _ _ (set_col_run "RSI" (NumCol rsi) df Hlen)).
  unfold bind at 1. unfold set_col_scalar at 1. cbn [rows cols].
  erewrite bind_run; cycle 1.
  { eapply loc_set_mask_run; cbn [rows cols].
    - apply lookup_insert_eq.
    - rewrite length_map. exact Hlen.
    - apply length_replicate. }
  cbn [rows cols].
  erewrite bind_run; cycle 1.
  { eapply loc_set_mask_run; cbn [rows cols].
    - apply lookup_insert_eq.
    - rewrite length_map. exact Hlen.
    - rewrite length_zip_with, length_map, length_replicate. lia. }
  cbn [rows cols]. unfold ret, rsi_frame. fold rsi.
  rewrite <- Hlen, rsi_labels_masks.
  rewrite !insert_insert_eq. reflexivity.
Qed.

(** ** calculate_macd *)

Lemma lookup_nth {A} (l : list A) (i : nat) (d : A) :
  (i < length l)%nat -> l !! i = Some (nth i l d).
Proof.
  revert i. induction l as [| x l IH]; intros [| i] H; simpl in *;
    try lia; [reflexivity |]. apply IH. lia.
Qed.

Lemma frame_eta df : {| rows := rows df; cols := cols df |} = df.
Proof. destruct df; reflexivity. Qed.

Lemma cross_step_length m s labels i :
  length (cross_step m s labels i) = length labels.
Proof.
  unfold cross_step.
  repeat match goal with |- context [if ?b then _ else _] => destruct b end;
    rewrite ?length_insert; reflexivity.
Qed.

Lemma cross_body_run m s i labels df :
  length m = length (rows df) -> length s = length (rows df) ->
  (1 <= i < length (rows df))%nat ->
  cols df !! "MACD_Cross" = Some (StrCol labels) ->
  length labels = length (rows df) ->
  macd_cross_body m s i df
  = (Ok tt,
     {| rows := rows df;
        cols := <["MACD_Cross" := StrCol (cross_step m s labels i)]>
                  (cols df) |}).
Proof.
  intros Hm Hs Hi Hc Hl. unfold macd_cross_body.
  rewrite (bind_run _ _ _ _ _ (iloc_run m i _ df (lookup_nth m i 0 ltac:(lia)))).
  rewrite (bind_run _ _ _ _ _ (iloc_run s i _ df (lookup_nth s i 0 ltac:(lia)))).
  rewrite (bind_run _ _ _ _ _
             (iloc_run m (i - 1) _ df (lookup_nth m (i - 1) 0 ltac:(lia)))).
  rewrite (bind_run _ _ _ _ _
             (iloc_run s (i - 1) _ df (lookup_nth s (i - 1) 0 ltac:(lia)))).
  unfold cross_step.
  destruct (Qltb (nth i s 0) (nth i m 0) && Qleb (nth (i - 1) m 0) (nth (i - 1) s 0)).
  { apply loc_set_at_run; assumption. }
  destruct (Qltb (nth i m 0) (nth i s 0) && Qleb (nth (i - 1) s 0) (nth (i - 1) m 0)).
  { apply loc_set_at_run; assumption. }
  unfold ret. rewrite (insert_id _ _ _ Hc), frame_eta. reflexivity.
Qed.

Lemma cross_loop_run m s idx : forall labels df,
  length m = length (rows df) -> length s = length (rows df) ->
  Forall (fun i => 1 <= i < length (rows df))%nat idx ->
  cols df !! "MACD_Cross" = Some (StrCol labels) ->
  length labels = length (rows df) ->
  for_each idx (macd_cross_body m s) df
  = (Ok tt,
     {| rows := rows df;
        cols := <["MACD_Cross" := StrCol (fold_left (cross_step m s) idx labels)]>
                  (cols df) |}).
Proof.
  induction idx as [| i idx IH]; intros labels df Hm Hs Hidx Hc Hl.
  - simpl. unfold ret. rewrite (insert_id _ _ _ Hc), frame_eta. reflexivity.
  - inversion Hidx as [| ? ? Hi Hrest]; subst.
    cbn [for_each fold_left].
    rewrite (bind_run _ _ _ _ _ (cross_body_run m s i labels df Hm Hs Hi Hc Hl)).
    rewrite IH with (labels := cross_step m s labels i); cbn [rows cols];
      try assumption.
    + rewrite insert_insert_eq. reflexivity.
    + apply lookup_insert_eq.
    + rewrite cross_step_length. exact Hl.
Qed.

Lemma range_bounds a b : Forall (fun i => a <= i < b)%nat (range a b).
Proof.
  unfold range. apply Forall_forall. intros i Hi.
  apply elem_of_seq in Hi. lia.
Qed.

Lemma calculate_macd_run fast slow signal df :
  calculate_macd fast slow signal df
  = (Ok (macd_series fast slow (map Close (rows df)),
         signal_series fast slow signal (map Close (rows df)),
         histogram_series fast slow signal (map Close (rows df))),
     macd_frame fast slow signal df).
Proof.
  unfold calculate_macd.
  unfold bind at 1. unfold column at 1.
  fold (macd_series fast slow (map Close (rows df))).
  fold (signal_series fast slow signal (map Close (rows df))).
  fold (histogram_series fast slow signal (map Close (rows df))).
  set (m := macd_series fast slow (map Close (rows df))).
  set (s := signal_series fast slow signal (map Close (rows df))).
  set (h := histogram_series fast slow signal (map Close (rows df))).
  assert (Hm : length m = length (rows df)).
  { subst m. rewrite macd_series_length. apply length_map. }
  assert (Hs : length s = length (rows df)).
  { subst s. rewrite signal_series_length. apply length_map. }
  assert (Hh : length h = length (rows df)).
  { subst h. rewrite histogram_series_length. apply length_map. }
  erewrite bind_run by (apply set_col_run; simpl; rewrite length_map; exact Hm).
  erewrite bind_run
    by (apply set_col_run; simpl; rewrite length_map; exact Hs).
  erewrite bind_run
    by (apply set_col_run; simpl; rewrite length_map; exact Hh).
  cbn [rows cols].
  unfold bind at 1. unfold set_col_scalar at 1. cbn [rows cols].
  unfold bind at 1. unfold len at 1. cbn [rows cols].
  erewrite bind_run; cycle 1.
  { apply cross_loop_run with (labels := replicate (length (rows df)) "Hold");
      cbn [rows cols]; try assumption.
    - apply range_bounds.
    - apply lookup_insert_eq.
    - apply length_replicate. }
  cbn [rows cols]. unfold ret, macd_frame, cross_labels.
  fold m s h. rewrite Hm, insert_insert_eq. reflexivity.
Qed.

(** ** calculate_bollinger_bands *)

Lemma bb_sma_length p close : length (bb_sma p close) = length close.
Proof. unfold bb_sma. rewrite rolling_length. apply length_map. Qed.

Lemma bb_std_length p close : length (bb_std p close) = length close.
Proof. unfold bb_std. rewrite rolling_length. apply length_map. Qed.

Lemma bb_upper_length p sd close : length (bb_upper p sd close) = length close.
Proof.
  unfold bb_upper. rewrite length_zip_with, bb_sma_length, bb_std_length. lia.
Qed.

Lemma bb_lower_length p sd close : length (bb_lower p sd close) = length close.
Proof.
  unfold bb_lower. rewrite length_zip_with, bb_sma_length, bb_std_length. lia.
Qed.

Lemma bb_labels_length p sd close : length (bb_labels p sd close) = length close.
Proof.
  unfold bb_labels.
  rewrite !length_zip_with, length_replicate, bb_upper_length, bb_lower_length.
  lia.
Qed.

Lemma calculate_bollinger_bands_run period std_dev df :
  calculate_bollinger_bands period std_dev df
  = (Ok (bb_upper period std_dev (map Close (rows df)),
         bb_sma period (map Close (rows df)),
         bb_lower period std_dev (map Close (rows df))),
     bb_frame period std_dev df).
Proof.
  unfold calculate_bollinger_bands.
  unfold bind at 1. unfold column at 1.
  fold (bb_sma period (map Close (rows df))).
  fold (bb_std period (map Close (rows df))).
  fold (bb_upper period std_dev (map Close (rows df))).
  fold (bb_lower period std_dev (map Close (rows df))).
  set (close := map Close (rows df)).
  assert (Hc : length close = length (rows df)) by apply length_map.
  erewrite bind_run
    by (apply set_col_run; simpl; rewrite bb_sma_length; exact Hc).
  erewrite bind_run
    by (apply set_col_run; simpl; rewrite bb_upper_length; exact Hc).
  erewrite bind_run
    by (apply set_col_run; simpl; rewrite bb_lower_length; exact Hc).
  erewrite bind_run
    by (apply set_col_run; simpl;
        rewrite length_zip_with, bb_upper_length, bb_lower_length; cbn [rows]; lia).
  cbn [rows cols].
  unfold bind at 1. unfold set_col_scalar at 1. cbn [rows cols].
  erewrite bind_run; cycle 1.
  { eapply loc_set_mask_run; cbn [rows cols].
    - apply lookup_insert_eq.
    - rewrite length_zip_with, bb_upper_length. lia.
    - apply length_replicate. }
  cbn [rows cols].
  erewrite bind_run; cycle 1.
  { eapply loc_set_mask_run; cbn [rows cols].
    - apply lookup_insert_eq.
    - rewrite length_zip_with, bb_lower_length. lia.
    - rewrite !length_zip_with, length_replicate, bb_upper_length. lia. }
  cbn [rows cols]. unfold ret, bb_frame, bb_labels. fold close.
  rewrite <- Hc, !insert_insert_eq. reflexivity.
Qed.

(** ** find_support_resistance *)

Lemma find_support_resistance_run order df :
  find_support_resistance order df
  = (match last (map Close (rows df)) with
     | Some current_price => Ok (levels_of order (rows df) current_price)
     | None => Raise IndexError
     end, df).
Proof.
  unfold find_support_resistance, bind, column, iloc_last, levels_of.
  destruct (last (map Close (rows df))); reflexivity.
Qed.

Lemma last_default {A} (xs : list A) (d : A) :
  (0 < length xs)%nat -> last xs = Some (default d (last xs)).
Proof.
  intros H. destruct (last xs) eqn:E; [reflexivity |].
  apply last_None in E. subst. simpl in H. lia.
Qed.

Lemma find_support_resistance_ok order df :
  (0 < length (rows df))%nat ->
  find_support_resistance order df
  = (Ok (levels_of order (rows df) (default 0 (last (map Close (rows df))))),
     df).
Proof.
  intros Hn. rewrite find_support_resistance_run.
  rewrite (last_default (map Close (rows df)) 0) by (rewrite length_map; lia).
  reflexivity.
Qed.

(** ** analyze_volume *)

Lemma obv_step_length close volume obv i :
  length (obv_step close volume obv i) = S (length obv).
Proof.
  unfold obv_step.
  repeat match goal with |- context [if ?b then _ else _] => destruct b end;
    rewrite length_app; simpl; lia.
Qed.

Lemma obv_fold_length close volume idx : forall obv,
  length (fold_left (obv_step close volume) idx obv)
  = (length obv + length idx)%nat.
Proof.
  induction idx as [| i idx IH]; intros obv; simpl; [lia |].
  rewrite IH, obv_step_length. lia.
Qed.

Lemma obv_series_length close volume :
  (0 < length close)%nat ->
  length (obv_series close volume) = length close.
Proof.
  intros H. unfold obv_series, range.
  rewrite obv_fold_length, length_seq. simpl. lia.
Qed.

Lemma obv_body_run close volume obv i df :
  length close = length (rows df) -> length volume = length (rows df) ->
  (1 <= i < length (rows df))%nat -> (0 < length obv)%nat ->
  obv_body close volume obv i df = (Ok (obv_step close volume obv i), df).
Proof.
  intros Hc Hv Hi Ho. unfold obv_body, obv_step.
  rewrite (bind_run _ _ _ _ _
             (iloc_run close i _ df (lookup_nth close i 0 ltac:(lia)))).
  rewrite (bind_run _ _ _ _ _
             (iloc_run close (i - 1) _ df
                (lookup_nth close (i - 1) 0 ltac:(lia)))).
  pose proof (iloc_last_run obv _ df (last_default obv 0%Z Ho)) as Hlast.
  pose proof (iloc_run volume i _ df (lookup_nth volume i 0%Z ltac:(lia)))
    as Hvol.
  destruct (Qltb (nth (i - 1) close 0) (nth i close 0)).
  { rewrite (bind_run _ _ _ _ _ Hlast), (bind_run _ _ _ _ _ Hvol).
    reflexivity. }
  destruct (Qltb (nth i close 0) (nth (i - 1) close 0)).
  { rewrite (bind_run _ _ _ _ _ Hlast), (bind_run _ _ _ _ _ Hvol).
    reflexivity. }
  rewrite (bind_run _ _ _ _ _ Hlast). reflexivity.
Qed.

Lemma obv_loop_run close volume idx : forall obv df,
  length close = length (rows df) -> length volume = length (rows df) ->
  Forall (fun i => 1 <= i < length (rows df))%nat idx ->
  (0 < length obv)%nat ->
  for_acc idx (obv_body close volume) obv df
  = (Ok (fold_left (obv_step close volume) idx obv), df).
Proof.
  induction idx as [| i idx IH]; intros obv df Hc Hv Hidx Ho.
  - reflexivity.
  - inversion Hidx as [| ? ? Hi Hrest]; subst.
    cbn [for_acc fold_left].
    rewrite (bind_run _ _ _ _ _ (obv_body_run close volume obv i df Hc Hv Hi Ho)).
    apply IH; try assumption.
    rewrite obv_step_length. lia.
Qed.

Lemma volume_ma_length volume : length (volume_ma volume) = length volume.
Proof. unfold volume_ma. rewrite rolling_length. apply length_map. Qed.

Lemma volume_spikes_length volume :
  length (volume_spikes volume) = length volume.
Proof.
  unfold volume_spikes. rewrite length_zip_with, volume_ma_length. lia.
Qed.

Lemma analyze_volume_run df :
  (0 < length (rows df))%nat ->
  analyze_volume df = (Ok (volume_of (rows df)), volume_frame df).
Proof.
  intros Hn. unfold analyze_volume.
  unfold bind at 1. unfold column at 1.
  set (volume := map Volume (rows df)).
  assert (Hv : length volume = length (rows df)) by apply length_map.
  fold (volume_ma volume).
  erewrite bind_run
    by (apply set_col_run; simpl; rewrite volume_ma_length; exact Hv).
  erewrite bind_run
    by (apply get_num_run; cbn [rows cols]; apply lookup_insert_eq).
  fold (volume_spikes volume).
  erewrite bind_run
    by (apply set_col_run; simpl; rewrite volume_spikes_length; exact Hv).
  cbn [rows cols].
  unfold bind at 1. unfold column at 1. cbn [rows cols].
  unfold bind at 1. unfold len at 1. cbn [rows cols].
  set (close := map Close (rows df)).
  assert (Hc : length close = length (rows df)) by apply length_map.
  erewrite bind_run; cycle 1.
  { apply obv_loop_run; cbn [rows cols]; try assumption.
    - apply range_bounds.
    - simpl. lia. }
  replace (fold_left (obv_step close volume) (range 1 (length (rows df))) [0%Z])
    with (obv_series close volume)
    by (unfold obv_series; rewrite Hc; reflexivity).
  erewrite bind_run
    by (apply set_col_run; simpl; rewrite obv_series_length; cbn [rows]; lia).
  cbn [rows cols].
  erewrite bind_run
    by (apply iloc_last_run, (last_default _ 0%Z); lia).
  erewrite bind_run; cycle 1.
  { apply get_num_run; cbn [rows cols].
    rewrite lookup_insert_ne by discriminate.
    rewrite lookup_insert_ne by discriminate.
    apply lookup_insert_eq. }
  erewrite bind_run
    by (apply iloc_last_run, (last_default _ NaN);
        rewrite volume_ma_length; lia).
  erewrite bind_run
    by (apply get_int_run; cbn [rows cols]; apply lookup_insert_eq).
  erewrite bind_run
    by (apply iloc_last_run, (last_default _ 0%Z);
        rewrite obv_series_length; lia).
  erewrite bind_run; cycle 1.
  { apply get_bool_run; cbn [rows cols].
    rewrite lookup_insert_ne by discriminate.
    apply lookup_insert_eq. }
  reflexivity.
Qed.

(** ** detect_candlestick_patterns *)

Lemma patterns_body_run acc i df :
  (1 <= i < length (rows df))%nat ->
  patterns_body acc i df = (Ok (acc ++ events_at (rows df) i), df).
Proof.
  intros Hi. unfold patterns_body, bind, column, iloc, events_at.
  replace (map id (rows df)) with (rows df) by (symmetry; apply map_id).
  rewrite (lookup_nth (rows df) i bar0) by lia.
  unfold ret at 1.
  rewrite (lookup_nth (rows df) (i - 1) bar0) by lia.
  reflexivity.
Qed.

Lemma patterns_loop_run idx : forall acc df,
  Forall (fun i => 1 <= i < length (rows df))%nat idx ->
  for_acc idx patterns_body acc df
  = (Ok (acc ++ flat_map (events_at (rows df)) idx), df).
Proof.
  induction idx as [| i idx IH]; intros acc df Hidx.
  - simpl. rewrite app_nil_r. reflexivity.
  - inversion Hidx as [| ? ? Hi Hrest]; subst.
    cbn [for_acc flat_map].
    rewrite (bind_run _ _ _ _ _ (patterns_body_run acc i df Hi)).
    rewrite IH by assumption.
    rewrite <- app_assoc. reflexivity.
Qed.

Lemma detect_candlestick_patterns_run df :
  detect_candlestick_patterns df
  = (Ok (last_n 10 (all_events (rows df))), df).
Proof.
  unfold detect_candlestick_patterns.
  unfold bind at 1. unfold len at 1.
  erewrite bind_run; cycle 1.
  { apply patterns_loop_run.
    eapply Forall_impl; [apply range_bounds |].
    simpl. intros. lia. }
  reflexivity.
Qed.

(** ** calculate_all_indicators *)

Lemma cross_fold_length m s idx : forall labels,
  length (fold_left (cross_step m s) idx labels) = length labels.
Proof.
  induction idx as [| i idx IH]; intros labels; simpl; [reflexivity |].
  rewrite IH. apply cross_step_length.
Qed.

Lemma cross_labels_length m s : length (cross_labels m s) = length m.
Proof.
  unfold cross_labels. rewrite cross_fold_length. apply length_replicate.
Qed.

Ltac lookup_frame :=
  unfold indicator_frame, volume_frame, bb_frame, macd_frame, rsi_frame;
  cbn [rows cols];
  repeat (rewrite lookup_insert_ne by discriminate);
  apply lookup_insert_eq.

Lemma indicator_frame_rsi_signal df :
  cols (indicator_frame df) !! "RSI_Signal"
  = Some (StrCol (map rsi_label (rsi_series 14 (map Close (rows df))))).
Proof. lookup_frame. Qed.

Lemma indicator_frame_macd_cross df :
  cols (indicator_frame df) !! "MACD_Cross"
  = Some (StrCol (cross_labels (macd_series 12 26 (map Close (rows df)))
                    (signal_series 12 26 9 (map Close (rows df))))).
Proof. lookup_frame. Qed.

Lemma indicator_frame_bb_width df :
  cols (indicator_frame df) !! "BB_Width"
  = Some (NumCol (zip_with nsub (bb_upper 20 2 (map Close (rows df)))
                    (bb_lower 20 2 (map Close (rows df))))).
Proof. lookup_frame. Qed.

Lemma indicator_frame_bb_signal df :
  cols (indicator_frame df) !! "BB_Signal"
  = Some (StrCol (bb_labels 20 2 (map Close (rows df)))).
Proof. lookup_frame. Qed.

Ltac solve_len :=
  rewrite ?length_map, ?length_zip_with, ?rolling_length, ?rsi_series_length,
    ?macd_series_length, ?signal_series_length, ?histogram_series_length,
    ?cross_labels_length, ?macd_series_length, ?bb_upper_length,
    ?bb_lower_length, ?bb_sma_length, ?bb_labels_length, ?length_map;
  lia.

Lemma calculate_all_indicators_run df :
  (0 < length (rows df))%nat ->
  calculate_all_indicators df = (Ok (analysis_of (rows df)), indicator_frame df).
Proof.
  intros Hn. unfold calculate_all_indicators.
  rewrite (bind_run _ _ _ _ _ (calculate_rsi_run 14 df)).
  rewrite (bind_run _ _ _ _ _ (calculate_macd_run 12 26 9 _)).
  rewrite (bind_run _ _ _ _ _ (calculate_bollinger_bands_run 20 2 _)).
  set (df3 := bb_frame 20 2 (macd_frame 12 26 9 (rsi_frame 14 df))).
  rewrite (bind_run _ _ _ _ _ (find_support_resistance_ok 5 df3 Hn)).
  erewrite bind_run by (apply analyze_volume_run; exact Hn).
  rewrite (bind_run _ _ _ _ _ (detect_candlestick_patterns_run _)).
  change (rows df3) with (rows df).
  change (rows (rsi_frame 14 df)) with (rows df).
  change (rows (macd_frame 12 26 9 (rsi_frame 14 df))) with (rows df).
  change (volume_frame df3) with (indicator_frame df).
  unfold bind at 1. unfold column at 1.
  change (rows (indicator_frame df)) with (rows df).
  erewrite bind_run by (apply iloc_last_run, (last_default _ NaN); solve_len).
  erewrite bind_run by (apply iloc_last_run, (last_default _ NaN); solve_len).
  erewrite bind_run by (apply iloc_last_run, (last_default _ 0); solve_len).
  erewrite bind_run by (apply iloc_last_run, (last_default _ NaN); solve_len).
  erewrite bind_run by (apply get_str_run, indicator_frame_rsi_signal).
  erewrite bind_run by (apply iloc_last_run, (last_default _ ""); solve_len).
  erewrite bind_run by (apply iloc_last_run, (last_default _ 0); solve_len).
  erewrite bind_run by (apply iloc_last_run, (last_default _ 0); solve_len).
  erewrite bind_run by (apply iloc_last_run, (last_default _ 0); solve_len).
  erewrite bind_run by (apply get_str_run, indicator_frame_macd_cross).
  erewrite bind_run by (apply iloc_last_run, (last_default _ ""); solve_len).
  erewrite bind_run by (apply iloc_last_run, (last_default _ NaN); solve_len).
  erewrite bind_run by (apply iloc_last_run, (last_default _ NaN); solve_len).
  erewrite bind_run by (apply iloc_last_run, (last_default _ NaN); solve_len).
  erewrite bind_run by (apply get_num_run, indicator_frame_bb_width).
  erewrite bind_run by (apply iloc_last_run, (last_default _ NaN); solve_len).
  erewrite bind_run by (apply get_str_run, indicator_frame_bb_signal).
  erewrite bind_run by (apply iloc_last_run, (last_default _ ""); solve_len).
  reflexivity.
Qed.

Lemma calculate_all_indicators_empty df :
  rows df = [] -> fst (calculate_all_indicators df) = Raise IndexError.
Proof.
  intros Hn. unfold calculate_all_indicators.
  rewrite (bind_run _ _ _ _ _ (calculate_rsi_run 14 df)).
  rewrite (bind_run _ _ _ _ _ (calculate_macd_run 12 26 9 _)).
  rewrite (bind_run _ _ _ _ _ (calculate_bollinger_bands_run 20 2 _)).
  erewrite bind_raise; [reflexivity |].
  rewrite find_support_resistance_run.
  change (rows (bb_frame 20 2 (macd_frame 12 26 9 (rsi_frame 14 df))))
    with (rows df).
  rewrite Hn. reflexivity.
Qed.

(** ** The constructor: a sorted copy *)

Lemma insert_by_date_perm x l : insert_by_date x l ≡ₚ x :: l.
Proof.
  induction l as [| y l IH]; simpl; [reflexivity |].
  destruct (snd x <=? snd y)%Z; [reflexivity |].
  rewrite IH. apply perm_swap.
Qed.

Lemma sort_pairs_perm l : foldr insert_by_date [] l ≡ₚ l.
Proof.
  induction l as [| x l IH]; simpl; [reflexivity |].
  rewrite insert_by_date_perm, IH. reflexivity.
Qed.

Lemma insert_by_date_sorted x l :
  nondecreasing (map snd l) -> nondecreasing (map snd (insert_by_date x l)).
Proof.
  induction l as [| y l IH]; intros Hl; [exact I |].
  cbn [insert_by_date].
  destruct (snd x <=? snd y)%Z eqn:E.
  - apply Z.leb_le in E. cbn [map nondecreasing]. cbn [map] in Hl.
    split; assumption.
  - apply Z.leb_gt in E.
    cbn [map] in *.
    destruct l as [| z l].
    + cbn. split; [lia | exact I].
    + cbn [map nondecreasing] in Hl. destruct Hl as [Hyz Hl].
      specialize (IH Hl). cbn [insert_by_date] in *.
      destruct (snd x <=? snd z)%Z eqn:E'.
      * apply Z.leb_le in E'. cbn [map nondecreasing] in *.
        split; [lia | exact IH].
      * cbn [map nondecreasing] in *. split; [lia | exact IH].
Qed.

Lemma sort_pairs_sorted l : nondecreasing (map snd (foldr insert_by_date [] l)).
Proof.
  induction l as [| x l IH]; [exact I |].
  simpl. apply insert_by_date_sorted, IH.
Qed.

Lemma take_rows_dates (bars : list Bar) (sp : list (nat * Z)) :
  Forall (fun p => map Date bars !! fst p = Some (snd p)) sp ->
  map Date (take_rows (map fst sp) bars) = map snd sp
  /\ length (take_rows (map fst sp) bars) = length sp.
Proof.
  induction 1 as [| [i d] sp Hp _ [IH1 IH2]]; [split; reflexivity |].
  cbn [map fst snd] in *. unfold take_rows in *.
  rewrite list_lookup_fmap in Hp.
  destruct (bars !! i) as [b |] eqn:E; [| discriminate].
  simpl in Hp. injection Hp as Hp.
  change (omap (fun i => bars !! i) (i :: map fst sp))
    with (match bars !! i with
          | Some b => b :: omap (fun i => bars !! i) (map fst sp)
          | None => omap (fun i => bars !! i) (map fst sp)
          end).
  rewrite E. cbn [map length]. rewrite IH1, IH2, Hp. split; reflexivity.
Qed.

Lemma zip_indices_lookup {A} (xs : list A) :
  Forall (fun p => xs !! fst p = Some (snd p)) (zip (seq 0 (length xs)) xs).
Proof.
  apply Forall_forall. intros [i x] Hin.
  apply list_elem_of_lookup in Hin as [k Hk].
  apply lookup_zip_with_Some in Hk as (i' & x' & Heq & Hi & Hx).
  injection Heq as -> ->.
  apply lookup_seq in Hi as [-> _]. exact Hx.
Qed.

Lemma sorted_pairs_lookup (dates : list Z) :
  Forall (fun p => dates !! fst p = Some (snd p))
    (foldr insert_by_date [] (zip (seq 0 (length dates)) dates)).
Proof.
  rewrite sort_pairs_perm. apply zip_indices_lookup.
Qed.

Lemma take_rows_suffix {A} (xs : list A) : forall pre,
  take_rows (seq (length pre) (length xs)) (pre ++ xs) = xs.
Proof.
  unfold take_rows.
  induction xs as [| x xs IH]; intros pre; [reflexivity |].
  cbn [length seq].
  change (omap (fun i => (pre ++ x :: xs) !! i)
            (length pre :: seq (S (length pre)) (length xs)))
    with (match (pre ++ x :: xs) !! length pre with
          | Some b => b :: omap (fun i => (pre ++ x :: xs) !! i)
                             (seq (S (length pre)) (length xs))
          | None => omap (fun i => (pre ++ x :: xs) !! i)
                      (seq (S (length pre)) (length xs))
          end).
  rewrite list_lookup_middle by reflexivity.
  f_equal.
  specialize (IH (pre ++ [x])).
  rewrite length_app, Nat.add_1_r, <- app_assoc in IH. exact IH.
Qed.

Lemma take_rows_all {A} (xs : list A) :
  take_rows (seq 0 (length xs)) xs = xs.
Proof. apply (take_rows_suffix xs []). Qed.

Lemma sort_values_Date_rows df :
  rows (sort_values_Date df) ≡ₚ rows df
  /\ nondecreasing (map Date (rows (sort_values_Date df)))
  /\ length (rows (sort_values_Date df)) = length (rows df).
Proof.
  unfold sort_values_Date, argsort_dates. cbn [rows].
  set (sp := foldr insert_by_date []
               (zip (seq 0 (length (map Date (rows df)))) (map Date (rows df)))).
  destruct (take_rows_dates (rows df) sp (sorted_pairs_lookup _)) as [Hd Hl].
  assert (Hperm : take_rows (map fst sp) (rows df) ≡ₚ rows df).
  { rewrite <- (take_rows_all (rows df)) at 2.
    unfold take_rows. apply omap_Permutation.
    subst sp. rewrite sort_pairs_perm, fst_zip.
    - rewrite length_map. reflexivity.
    - rewrite length_seq. lia. }
  split; [exact Hperm |]. split.
  - rewrite Hd. apply sort_pairs_sorted.
  - apply Permutation_length, Hperm.
Qed.

(** ** The analysis of a frame of the store *)

Lemma analyze_run st data df :
  st !! data = Some df ->
  analyze data st
  = (fst (calculate_all_indicators (sort_values_Date df)),
     <[length st := snd (calculate_all_indicators (sort_values_Date df))]>
       (st ++ [sort_values_Date df])).
Proof.
  intros Hd. unfold analyze.
  assert (Hinit : __init__ data st
                  = (Ok (length st), st ++ [sort_values_Date df])).
  { unfold __init__. rewrite Hd. reflexivity. }
  rewrite (bind_run _ _ _ _ _ Hinit). unfold call.
  rewrite lookup_app_r by lia. rewrite Nat.sub_diag. cbn [lookup list_lookup].
  destruct (calculate_all_indicators (sort_values_Date df)) as [r df'].
  reflexivity.
Qed.

Lemma analyze_dangling st data :
  st !! data = None -> analyze data st = (Raise KeyError, st).
Proof.
  intros Hd. unfold analyze, bind, __init__. rewrite Hd. reflexivity.
Qed.

(** The frame handed to the constructor is not written to. *)
Lemma analyze_keeps_input st data :
  snd (analyze data st) !! data = st !! data.
Proof.
  destruct (st !! data) as [df |] eqn:Hd.
  - rewrite (analyze_run st data df Hd). cbn [snd].
    assert (data < length st)%nat by (apply lookup_lt_is_Some; eauto).
    rewrite list_lookup_insert_ne by lia.
    rewrite lookup_app_l by lia. exact Hd.
  - rewrite (analyze_dangling st data Hd). exact Hd.
Qed.

Lemma analyze_outcome st data :
  fst (analyze data st)
  = match st !! data with
    | Some df => fst (calculate_all_indicators (sort_values_Date df))
    | None => Raise KeyError
    end.
Proof.
  destruct (st !! data) as [df |] eqn:Hd.
  - rewrite (analyze_run st data df Hd). reflexivity.
  - rewrite (analyze_dangling st data Hd). reflexivity.
Qed.

(** The outcome of [calculate_all_indicators] depends on the rows alone:
    columns left by an earlier run are overwritten before they are read. *)
Lemma calculate_all_indicators_rows df1 df2 :
  rows df1 = rows df2 ->
  fst (calculate_all_indicators df1) = fst (calculate_all_indicators df2).
Proof.
  intros Hr.
  destruct (rows df1) as [| b bars] eqn:E.
  - rewrite (calculate_all_indicators_empty df1 E).
    rewrite (calculate_all_indicators_empty df2) by congruence.
    reflexivity.
  - assert (H1 : (0 < length (rows df1))%nat) by (rewrite E; simpl; lia).
    assert (H2 : (0 < length (rows df2))%nat) by (rewrite <- Hr; simpl; lia).
    rewrite (calculate_all_indicators_run df1 H1).
    rewrite (calculate_all_indicators_run df2 H2).
    cbn [fst]. congruence.
Qed.

Lemma calculate_all_indicators_keeps_rows df :
  rows (snd (calculate_all_indicators df)) = rows df.
Proof.
  destruct (rows df) as [| b bars] eqn:E.
  - unfold calculate_all_indicators.
    rewrite (bind_run _ _ _ _ _ (calculate_rsi_run 14 df)).
    rewrite (bind_run _ _ _ _ _ (calculate_macd_run 12 26 9 _)).
    rewrite (bind_run _ _ _ _ _ (calculate_bollinger_bands_run 20 2 _)).
    assert (Hraise :
      find_support_resistance 5
        (bb_frame 20 2 (macd_frame 12 26 9 (rsi_frame 14 df)))
      = (Raise IndexError,
         bb_frame 20 2 (macd_frame 12 26 9 (rsi_frame 14 df)))).
    { rewrite find_support_resistance_run.
      change (rows (bb_frame 20 2 (macd_frame 12 26 9 (rsi_frame 14 df))))
        with (rows df).
      rewrite E. reflexivity. }
    rewrite (bind_raise _ _ _ _ _ Hraise). cbn [snd]. exact E.
  - assert (H1 : (0 < length (rows df))%nat) by (rewrite E; simpl; lia).
    rewrite (calculate_all_indicators_run df H1). exact E.
Qed.

(** C8: the analysis is deterministic and leaves no trace on its input:
    analysing the same frame of the store twice gives the same outcome, in
    every field, the frame handed to the constructor is never written to
    (the engine works on a copy), and running [calculate_all_indicators]
    again on the same engine object, whose frame now holds the derived
    columns, gives the same outcome once more. *)
Theorem analysis_deterministic_and_pure (st : Store) (data : nat) :
  let first := analyze data st in
  let second := analyze data (snd first) in
  fst second = fst first
  /\ snd first !! data = st !! data
  /\ snd second !! data = st !! data
  /\ (forall df : DataFrame,
        let run1 := calculate_all_indicators df in
        let run2 := calculate_all_indicators (snd run1) in
        fst run2 = fst run1).
Proof.
  cbv zeta. repeat split.
  - rewrite !analyze_outcome, analyze_keeps_input. reflexivity.
  - apply analyze_keeps_input.
  - rewrite !analyze_keeps_input. reflexivity.
  - intros df. apply calculate_all_indicators_rows.
    apply calculate_all_indicators_keeps_rows.
Qed.

(** C2 (amended): the engine validates nothing and has no typed errors.
    The constructor sorts a copy of the bars by date, and for every frame
    with at least one bar - whatever the order of its dates, the sign of its
    prices and volumes, and its length - the analysis returns a result,
    computed from the bars in date order. *)
Theorem analyze_returns_on_nonempty (st : Store) (data : nat) (df : DataFrame) :
  st !! data = Some df ->
  rows df <> [] ->
  exists bars st',
    analyze data st = (Ok (analysis_of bars), st')
    /\ bars ≡ₚ rows df
    /\ nondecreasing (map Date bars).
Proof.
  intros Hd Hne.
  destruct (sort_values_Date_rows df) as (Hperm & Hsorted & Hlen).
  exists (rows (sort_values_Date df)).
  eexists. split; [| split; assumption].
  rewrite (analyze_run st data df Hd).
  rewrite calculate_all_indicators_run; [reflexivity |].
  rewrite Hlen. destruct (rows df); [congruence | simpl; lia].
Qed.

(** C2 (as stated): an unsorted series, a series with negative prices and
    volume, and a well-formed series of three bars (fewer than 60) are all
    analysed to a result; no MalformedSeries or InsufficientData error
    exists in the engine. *)
Lemma no_validation_errors :
  (well_formed (rows unsorted_frame) = false
   /\ is_ok (fst (analyze 0 [unsorted_frame])) = true)
  /\ (well_formed (rows negative_frame) = false
      /\ is_ok (fst (analyze 0 [negative_frame])) = true)
  /\ (well_formed (rows short_frame) = true
      /\ (length (rows short_frame) < 60)%nat
      /\ is_ok (fst (analyze 0 [short_frame])) = true).
Proof.
  repeat split; try (vm_compute; reflexivity). simpl. lia.
Qed.

Lemma analyze_returns_on_nonempty_witness :
  exists bars st',
    analyze 0 [unsorted_frame] = (Ok (analysis_of bars), st')
    /\ bars ≡ₚ rows unsorted_frame
    /\ nondecreasing (map Date bars).
Proof.
  apply (analyze_returns_on_nonempty [unsorted_frame] 0 unsorted_frame).
  - reflexivity.
  - discriminate.
Defined.

(** ** The recommendation of an analysed series *)

Lemma calculate_all_indicators_inv df a df' :
  calculate_all_indicators df = (Ok a, df') ->
  a = analysis_of (rows df) /\ (0 < length (rows df))%nat.
Proof.
  intros H.
  destruct (rows df) as [| b bars] eqn:E.
  - pose proof (calculate_all_indicators_empty df E) as He.
    rewrite H in He. discriminate.
  - assert (H1 : (0 < length (rows df))%nat) by (rewrite E; simpl; lia).
    rewrite (calculate_all_indicators_run df H1) in H.
    injection H as <- _. rewrite E. split; [reflexivity | simpl; lia].
Qed.

(** The recommendation of an analysis is drawn from its own results. *)
Lemma analysis_recommendation df a df' :
  calculate_all_indicators df = (Ok a, df') ->
  recommendation a = _generate_recommendation (results a).
Proof.
  intros H. apply calculate_all_indicators_inv in H as [-> _]. reflexivity.
Qed.

Lemma trend_label_cases p s20 s50 :
  In (trend_label p s20 s50)
    ["Strong Uptrend"; "Uptrend"; "Strong Downtrend"; "Downtrend"; "Sideways"].
Proof.
  unfold trend_label.
  repeat match goal with |- context [if ?b then _ else _] => destruct b end;
    simpl; tauto.
Qed.

Lemma trend_label_one_direction p s20 s50 :
  str_in "Uptrend" (trend_label p s20 s50)
  && str_in "Downtrend" (trend_label p s20 s50) = false.
Proof.
  pose proof (trend_label_cases p s20 s50) as H. simpl in H.
  repeat destruct H as [<- | H]; try reflexivity. contradiction.
Qed.

(** C1 (as stated): on a one-bar series both counters are 0 and the action
    is "Hold", whose reason string shows neither count. *)
Lemma hold_reason_omits_counts :
  exists a,
    fst (calculate_all_indicators single_frame) = Ok a
    /\ spec_score_of (results a) = (0%Z, 0%Z)
    /\ action (recommendation a) = "Hold"
    /\ str_in (str_of_Z 0) (reason (recommendation a)) = false.
Proof.
  eexists. split; [vm_compute; reflexivity |].
  vm_compute. repeat split.
Qed.

(** C1 (amended): for every analysed series the counters, the action and
    the confidence are those of the specification's scoring rule and
    ordered mapping; the reason string shows both counters for every action
    but "Hold", whose reason is the fixed text "Mixed signals - Wait for
    clearer trend". *)
Theorem recommendation_follows_rule (df df' : DataFrame) (a : Analysis) :
  calculate_all_indicators df = (Ok a, df') ->
  let buy := fst (spec_score_of (results a)) in
  let sell := snd (spec_score_of (results a)) in
  let rec := recommendation a in
  count_signals (results a) = (buy, sell)
  /\ (action rec, confidence rec) = spec_mapping buy sell
  /\ (if String.eqb (action rec) "Hold"
      then reason rec = "Mixed signals - Wait for clearer trend"
      else str_in (str_of_Z buy) (reason rec) = true
           /\ str_in (str_of_Z sell) (reason rec) = true).
Proof.
  intros H. apply calculate_all_indicators_inv in H as [-> Hn].
  cbn [results recommendation analysis_of]. cbv zeta.
  set (r := results_of (rows df)).
  assert (Hspec : count_signals r = spec_score_of r).
  { apply count_signals_spec. subst r. apply trend_label_one_direction. }
  pose proof (count_signals_range r) as [Hb Hs].
  unfold _generate_recommendation.
  rewrite <- Hspec.
  destruct (count_signals r) as [buy sell]. cbn [fst snd] in *.
  split; [reflexivity |]. split.
  - apply recommend_spec.
  - apply recommend_reason; assumption.
Qed.

Lemma recommendation_follows_rule_witness :
  exists a df',
    calculate_all_indicators short_frame = (Ok a, df')
    /\ (action (recommendation a), confidence (recommendation a))
       = spec_mapping (fst (spec_score_of (results a)))
           (snd (spec_score_of (results a))).
Proof.
  eexists. eexists. split.
  - apply calculate_all_indicators_run. simpl. lia.
  - eapply (recommendation_follows_rule short_frame).
    apply calculate_all_indicators_run. simpl. lia.
Defined.

(** ** Candlestick patterns *)

Lemma bullish_engulfing_rises prev cur :
  In "Bullish Engulfing" (map pattern (candle_events prev cur)) ->
  Open cur < Close cur.
Proof.
  unfold candle_events. rewrite !map_app, !in_app_iff.
  intros [H | [H | [H | [H | H]]]];
    match type of H with
    | context [if ?c then _ else _] => destruct c eqn:E
    end; simpl in H; try tauto; destruct H as [H | []]; try discriminate.
  rewrite !andb_true_iff in E. apply Qltb_lt. tauto.
Qed.

Lemma bearish_engulfing_falls prev cur :
  In "Bearish Engulfing" (map pattern (candle_events prev cur)) ->
  Close cur < Open cur.
Proof.
  unfold candle_events. rewrite !map_app, !in_app_iff.
  intros [H | [H | [H | [H | H]]]];
    match type of H with
    | context [if ?c then _ else _] => destruct c eqn:E
    end; simpl in H; try tauto; destruct H as [H | []]; try discriminate.
  rewrite !andb_true_iff in E. apply Qltb_lt. tauto.
Qed.

(** C7: the events appended for one bar never contain both a "Bullish
    Engulfing" and a "Bearish Engulfing", and the detector returns the last
    ten of the events appended bar by bar from the third bar on. *)
Theorem engulfing_patterns_exclusive (df : DataFrame) (i : nat) :
  ~ (In "Bullish Engulfing" (map pattern (events_at (rows df) i))
     /\ In "Bearish Engulfing" (map pattern (events_at (rows df) i)))
  /\ detect_candlestick_patterns df
     = (Ok (last_n 10 (flat_map (events_at (rows df))
                         (range 2 (length (rows df))))), df).
Proof.
  split.
  - unfold events_at. intros [Hup Hdown].
    apply bullish_engulfing_rises in Hup.
    apply bearish_engulfing_falls in Hdown.
    apply (Qlt_irrefl (Open (nth i (rows df) bar0))).
    apply Qlt_trans with (1 := Hup). exact Hdown.
  - apply detect_candlestick_patterns_run.
Qed.

(** Every event of a bar carries the date of that bar. *)
Lemma candle_events_date prev cur e :
  In e (candle_events prev cur) -> date e = Date cur.
Proof.
  unfold candle_events. rewrite !in_app_iff.
  intros [H | [H | [H | [H | H]]]];
    match type of H with
    | context [if ?c then _ else _] => destruct c
    end; simpl in H; try tauto; destruct H as [<- | []]; reflexivity.
Qed.

Lemma all_events_bar bars e :
  In e (all_events bars) ->
  exists i, (i < length bars)%nat /\ In e (events_at bars i).
Proof.
  unfold all_events. rewrite in_flat_map. intros (i & Hi & He).
  exists i. split; [| exact He].
  unfold range in Hi. apply in_seq in Hi. lia.
Qed.

Lemma last_n_incl {A} (k : nat) (xs : list A) (x : A) :
  In x (last_n k xs) -> In x xs.
Proof.
  unfold last_n. rewrite <- !list_elem_of_In. apply subseteq_drop.
Qed.

(** With one bar per date, the events returned for one date never hold
    both engulfing patterns. *)
Lemma engulfing_exclusive_by_date df out df' e1 e2 :
  NoDup (map Date (rows df)) ->
  detect_candlestick_patterns df = (Ok out, df') ->
  In e1 out -> In e2 out -> date e1 = date e2 ->
  ~ (pattern e1 = "Bullish Engulfing" /\ pattern e2 = "Bearish Engulfing").
Proof.
  intros Hnd Hrun H1 H2 Hdate [Hp1 Hp2].
  rewrite detect_candlestick_patterns_run in Hrun. injection Hrun as <- _.
  apply last_n_incl, all_events_bar in H1 as (i1 & Hi1 & He1).
  apply last_n_incl, all_events_bar in H2 as (i2 & Hi2 & He2).
  pose proof (candle_events_date _ _ _ He1) as Hd1.
  pose proof (candle_events_date _ _ _ He2) as Hd2.
  assert (Hnth : forall i, nth i (map Date (rows df)) 0%Z
                           = Date (nth i (rows df) bar0)).
  { intros i. apply (map_nth Date (rows df) bar0). }
  assert (Heq : i1 = i2).
  { apply (proj1 (List.NoDup_nth (map Date (rows df)) 0%Z)
             (proj1 (NoDup_ListNoDup _) Hnd));
      rewrite ?length_map; try assumption.
    rewrite !Hnth. unfold events_at in *. congruence. }
  subst i2.
  assert (Hup : In "Bullish Engulfing" (map pattern (events_at (rows df) i1))).
  { rewrite <- Hp1. apply in_map, He1. }
  assert (Hdown : In "Bearish Engulfing" (map pattern (events_at (rows df) i1))).
  { rewrite <- Hp2. apply in_map, He2. }
  unfold events_at in Hup, Hdown.
  apply bullish_engulfing_rises in Hup.
  apply bearish_engulfing_falls in Hdown.
  apply (Qlt_irrefl (Open (nth i1 (rows df) bar0))).
  apply Qlt_trans with (1 := Hup). exact Hdown.
Qed.

(** ** The RSI series *)

Lemma rolling_lookup w agg xs i :
  (i < length xs)%nat ->
  rolling w agg xs !! i
  = Some (if (S i <? w)%nat then NaN
          else agg (take w (drop (S i - w) xs))).
Proof.
  intros Hi. unfold rolling.
  rewrite list_lookup_fmap, lookup_seq_lt by exact Hi. reflexivity.
Qed.

Lemma diff_nan_or_fin close : Forall nan_or_fin (diff close).
Proof.
  destruct close as [| x xs]; [constructor |].
  unfold diff. constructor; [exact I |].
  apply Forall_forall. intros d Hd.
  apply list_elem_of_lookup in Hd as [k Hk].
  apply lookup_zip_with_Some in Hk as (a & b & -> & _ & _). exact I.
Qed.

Lemma gain_raw_nonneg close :
  Forall fin_nonneg (where_ (fun d => d >? Fin 0)%num (Fin 0) (diff close)).
Proof.
  unfold where_. apply Forall_fmap.
  eapply Forall_impl; [apply diff_nan_or_fin |].
  intros [| | q |] H; try contradiction; unfold ngt, nlt; simpl.
  - lra.
  - qcases; simpl; lra.
Qed.

Lemma loss_raw_nonneg close :
  Forall fin_nonneg
    (map nneg (where_ (fun d => d <? Fin 0)%num (Fin 0) (diff close))).
Proof.
  unfold where_. apply Forall_fmap, Forall_fmap.
  eapply Forall_impl; [apply diff_nan_or_fin |].
  intros [| | q |] H; try contradiction; unfold nlt; simpl.
  - lra.
  - qcases; simpl; lra.
Qed.

Lemma nsum_nonneg xs :
  Forall fin_nonneg xs -> exists s, nsum xs = Fin s /\ 0 <= s.
Proof.
  induction 1 as [| x xs Hx _ (s & Hs & Hs0)].
  - exists 0. split; [reflexivity | lra].
  - destruct x as [| | q |]; try contradiction. simpl in Hx.
    exists (q + s). unfold nsum in *. cbn [foldr]. rewrite Hs.
    split; [reflexivity | lra].
Qed.

Lemma inject_nat_pos (n : nat) : (1 <= n)%nat -> 0 < inject_Z (Z.of_nat n).
Proof.
  intros H. change 0 with (inject_Z 0). rewrite <- Zlt_Qlt. lia.
Qed.

Lemma nmean_nonneg xs :
  Forall fin_nonneg xs -> (1 <= length xs)%nat ->
  exists m, nmean xs = Fin m /\ 0 <= m.
Proof.
  intros Hxs Hlen.
  destruct (nsum_nonneg xs Hxs) as (s & Hs & Hs0).
  pose proof (inject_nat_pos (length xs) Hlen) as Hpos.
  exists (s / inject_Z (Z.of_nat (length xs))).
  unfold nmean, of_nat. rewrite Hs. unfold ndiv.
  destruct (Qeqb (inject_Z (Z.of_nat (length xs))) 0) eqn:E.
  - apply Qeqb_eq in E. lra.
  - split; [reflexivity |].
    apply Qle_shift_div_l; [exact Hpos | lra].
Qed.

Lemma window_length {A} (w i : nat) (xs : list A) :
  (w <= S i)%nat -> (i < length xs)%nat ->
  length (take w (drop (S i - w) xs)) = w.
Proof.
  intros Hw Hi. rewrite length_take, length_drop. lia.
Qed.

Lemma rolling_mean_nonneg w xs i :
  Forall fin_nonneg xs -> (1 <= w)%nat -> (w <= S i)%nat ->
  (i < length xs)%nat ->
  exists m, rolling w nmean xs !! i = Some (Fin m) /\ 0 <= m.
Proof.
  intros Hxs Hw Hi Hlen.
  rewrite rolling_lookup by exact Hlen.
  destruct (S i <? w)%nat eqn:E; [apply Nat.ltb_lt in E; lia |].
  destruct (nmean_nonneg (take w (drop (S i - w) xs))) as (m & Hm & Hm0).
  - apply Forall_take, Forall_drop, Hxs.
  - rewrite window_length by assumption. exact Hw.
  - exists m. rewrite Hm. split; [reflexivity | exact Hm0].
Qed.

Lemma rsi_series_lookup p close i :
  (i < length close)%nat ->
  exists g l,
    rsi_gain p close !! i = Some g /\ rsi_loss p close !! i = Some l
    /\ rsi_series p close !! i = Some (rsi_of g l).
Proof.
  intros Hi.
  destruct (lookup_lt_is_Some_2 (rsi_gain p close) i) as [g Hg];
    [rewrite rsi_gain_length; exact Hi |].
  destruct (lookup_lt_is_Some_2 (rsi_loss p close) i) as [l Hl];
    [rewrite rsi_loss_length; exact Hi |].
  exists g, l. split; [exact Hg |]. split; [exact Hl |].
  unfold rsi_series. rewrite list_lookup_fmap.
  rewrite lookup_zip_with, Hg. simpl. rewrite Hl. reflexivity.
Qed.

Lemma rsi_early p close i :
  (i < length close)%nat -> (S i < p)%nat ->
  rsi_series p close !! i = Some NaN.
Proof.
  intros Hi Hp.
  destruct (rsi_series_lookup p close i Hi) as (g & l & Hg & Hl & ->).
  unfold rsi_gain in Hg.
  rewrite rolling_lookup in Hg
    by (rewrite where_length, diff_length; exact Hi).
  apply Nat.ltb_lt in Hp. rewrite Hp in Hg. injection Hg as <-.
  reflexivity.
Qed.

(** The relative strength for a finite non-negative gain and loss. *)
Lemma rs_cases (g l : Q) :
  0 <= g -> 0 <= l ->
  (g == 0 /\ l == 0 /\ (Fin g / Fin l)%num = NaN)
  \/ (0 < g /\ l == 0 /\ (Fin g / Fin l)%num = PosInf)
  \/ (0 < l /\ (Fin g / Fin l)%num = Fin (g / l)).
Proof.
  intros Hg Hl. unfold ndiv.
  destruct (Qeqb l 0) eqn:El.
  - apply Qeqb_eq in El.
    assert (Hsgn : g == 0 /\ Qsgn g = 0%Z \/ 0 < g /\ Qsgn g = 1%Z).
    { unfold Qsgn, Qeq, Qlt, Qle in *. simpl in *.
      destruct (Qnum g) eqn:En; simpl; [left | right | lia]; split; lia. }
    destruct Hsgn as [[Hg0 ->] | [Hg0 ->]]; [left | right; left];
      repeat split; assumption.
  - apply Qeqb_neq in El. right. right. split; [| reflexivity].
    destruct (Qlt_le_dec 0 l); [assumption | lra].
Qed.

(** The RSI for a finite non-negative gain and loss. *)
Lemma rsi_of_cases (g l : Q) :
  0 <= g -> 0 <= l ->
  (g == 0 /\ l == 0 /\ rsi_of (Fin g) (Fin l) = NaN)
  \/ (~ (g == 0 /\ l == 0)
      /\ exists q, rsi_of (Fin g) (Fin l) = Fin q
                   /\ 0 <= q <= 100 /\ (l == 0 -> q == 100)).
Proof.
  intros Hg Hl. unfold rsi_of.
  destruct (rs_cases g l Hg Hl) as [(Hg0 & Hl0 & ->) | [(Hg0 & Hl0 & ->) | (Hl0 & ->)]].
  - left. repeat split; assumption.
  - right. split; [intros [H _]; lra |].
    exists (100 + - 0). split; [reflexivity |]. repeat split; lra.
  - right. split; [intros [_ H]; lra |].
    assert (Hx : 0 <= g / l) by (apply Qle_shift_div_l; [exact Hl0 | lra]).
    set (x := g / l) in *.
    cbn [nadd]. unfold ndiv.
    destruct (Qeqb (1 + x) 0) eqn:Ey; [apply Qeqb_eq in Ey; lra |].
    exists (100 + - (100 / (1 + x))). split; [reflexivity |].
    assert (Ht0 : 0 < 100 / (1 + x)) by (apply Qlt_shift_div_l; lra).
    assert (Ht1 : 100 / (1 + x) <= 100) by (apply Qle_shift_div_r; lra).
    repeat split; lra.
Qed.




(** ** The RSI of the result *)

Lemma results_rsi_undefined bars v :
  last (rsi_series 14 (map Close bars)) = Some v -> isna v = true ->
  rsi_value (rsi (results_of bars)) = PyInt 0
  /\ rsi_interpretation (rsi (results_of bars)) = "Insufficient data".
Proof.
  intros Hlast Hna. unfold results_of. cbn [rsi rsi_value rsi_interpretation].
  rewrite Hlast. cbn [default]. destruct v; try discriminate.
  split; reflexivity.
Qed.

Lemma rsi_last_short bars :
  (0 < length bars < 14)%nat ->
  last (rsi_series 14 (map Close bars)) = Some NaN.
Proof.
  intros Hn. rewrite last_lookup, rsi_series_length, length_map.
  apply rsi_early; rewrite ?length_map; lia.
Qed.

(** C10 (as stated): a series of 14 rising bars is shorter than period + 1
    = 15 bars, yet its latest RSI is defined: the result reports 100 with
    the interpretation "Overbought - Consider selling".  And the value
    field does tell missing data from a genuine RSI of 0: the first is the
    integer [0] (a short series), the second the float [0.0] (fourteen
    falling bars). *)
Lemma rsi_defined_at_fourteen_bars :
  (length (rows rising_frame) < 14 + 1)%nat
  /\ (exists a q,
        fst (calculate_all_indicators rising_frame) = Ok a
        /\ rsi_value (rsi (results a)) = PyFloat (Fin q) /\ q == 100
        /\ rsi_interpretation (rsi (results a))
           = "Overbought - Consider selling")
  /\ (exists missing genuine q,
        fst (calculate_all_indicators short_frame) = Ok missing
        /\ fst (calculate_all_indicators falling_frame) = Ok genuine
        /\ rsi_value (rsi (results missing)) = PyInt 0
        /\ rsi_value (rsi (results genuine)) = PyFloat (Fin q) /\ q == 0
        /\ rsi_value (rsi (results genuine))
           <> rsi_value (rsi (results missing))).
Proof.
  split; [simpl; lia |]. split.
  - eexists. eexists. split; [vm_compute; reflexivity |].
    split; [vm_compute; reflexivity |].
    split; [reflexivity | vm_compute; reflexivity].
  - eexists. eexists. eexists.
    split; [vm_compute; reflexivity |].
    split; [vm_compute; reflexivity |].
    split; [vm_compute; reflexivity |].
    split; [vm_compute; reflexivity |].
    split; [reflexivity | vm_compute; discriminate].
Qed.

(** C10 (amended): when the latest RSI is undefined - which is the case for
    every series shorter than [period] = 14 bars - the result reports the
    RSI value as the integer [0], not NaN, and the interpretation
    "Insufficient data".  A genuine RSI of 0 (fourteen falling bars) is
    reported as the float [0.0] with the interpretation "Oversold -
    Consider buying": the two values are equal as numbers ([0 == 0.0]) and
    differ in their type. *)
Theorem rsi_undefined_reported_as_zero
  (df df' : DataFrame) (a : Analysis) :
  calculate_all_indicators df = (Ok a, df') ->
  (forall v, last (rsi_series 14 (map Close (rows df))) = Some v ->
             isna v = true ->
             rsi_value (rsi (results a)) = PyInt 0
             /\ rsi_interpretation (rsi (results a)) = "Insufficient data")
  /\ ((length (rows df) < 14)%nat ->
      rsi_value (rsi (results a)) = PyInt 0
      /\ rsi_interpretation (rsi (results a)) = "Insufficient data")
  /\ (exists a0 q,
        fst (calculate_all_indicators falling_frame) = Ok a0
        /\ rsi_value (rsi (results a0)) = PyFloat (Fin q) /\ q == 0
        /\ number_eqb (rsi_value (rsi (results a0))) (PyInt 0) = true
        /\ rsi_value (rsi (results a0)) <> PyInt 0
        /\ rsi_interpretation (rsi (results a0))
           = "Oversold - Consider buying").
Proof.
  intros H. apply calculate_all_indicators_inv in H as [-> Hn].
  cbn [results analysis_of].
  split; [| split].
  - intros v Hv Hna. apply (results_rsi_undefined _ v Hv Hna).
  - intros Hshort.
    apply (results_rsi_undefined _ NaN); [| reflexivity].
    apply rsi_last_short. lia.
  - eexists. eexists. split; [vm_compute; reflexivity |].
    split; [vm_compute; reflexivity |].
    split; [reflexivity |].
    split; [vm_compute; reflexivity |].
    split; [vm_compute; discriminate | vm_compute; reflexivity].
Qed.

Lemma rsi_undefined_reported_as_zero_witness :
  exists a,
    fst (calculate_all_indicators short_frame) = Ok a
    /\ rsi_value (rsi (results a)) = PyInt 0
    /\ rsi_interpretation (rsi (results a)) = "Insufficient data".
Proof.
  exists (analysis_of (rows short_frame)).
  assert (Hrun : calculate_all_indicators short_frame
                 = (Ok (analysis_of (rows short_frame)),
                    indicator_frame short_frame)).
  { apply calculate_all_indicators_run. simpl. lia. }
  split; [rewrite Hrun; reflexivity |].
  apply (rsi_undefined_reported_as_zero short_frame _ _ Hrun).
  simpl. lia.
Defined.

(** ** MACD on rising closes *)

Lemma alpha_range span : (1 <= span)%Z -> 0 < alpha span /\ alpha span <= 1.
Proof.
  intros H. unfold alpha.
  assert (Hs : 1 <= inject_Z span).
  { change 1 with (inject_Z 1). rewrite <- Zle_Qle. exact H. }
  split.
  - apply Qlt_shift_div_l; lra.
  - apply Qle_shift_div_r; lra.
Qed.

Lemma alpha_decreasing fast slow :
  (1 <= fast < slow)%Z -> alpha slow < alpha fast.
Proof.
  intros [H1 H2]. unfold alpha.
  assert (Hf : 1 <= inject_Z fast).
  { change 1 with (inject_Z 1). rewrite <- Zle_Qle. exact H1. }
  assert (Hs : inject_Z fast < inject_Z slow) by (rewrite <- Zlt_Qlt; exact H2).
  apply Qlt_shift_div_l; [lra |].
  assert (E : 2 / (inject_Z slow + 1) * (inject_Z fast + 1)
              == 2 * (inject_Z fast + 1) / (inject_Z slow + 1)).
  { field. lra. }
  rewrite E. apply Qlt_shift_div_r; lra.
Qed.

Section Ema.

Variables a b g : Q.
Hypothesis Hb : 0 < b.
Hypothesis Hab : b < a.
Hypothesis Ha : a <= 1.
Hypothesis Hg0 : 0 < g.
Hypothesis Hg1 : g <= 1.

(** While the closes rise the fast average stays between the slow average
    and the close, and the MACD line is positive. *)
Lemma macd_positive_from xs : forall f s c,
  s <= f -> f <= c -> Qincreasing (c :: xs) ->
  Forall (fun m => 0 < m) (zip_with Qminus (ewm_from a f xs) (ewm_from b s xs)).
Proof.
  induction xs as [| x xs IH]; intros f s c Hsf Hfc Hinc; [constructor |].
  destruct Hinc as [Hcx Hinc].
  cbn [ewm_from zip_with].
  assert (H1 : 0 <= (1 - a) * (f - s)) by (apply Qmult_le_0_compat; lra).
  assert (H2 : 0 < (a - b) * (x - s)) by (apply Qmult_lt_0_compat; lra).
  assert (H3 : 0 <= (1 - a) * (x - f)) by (apply Qmult_le_0_compat; lra).
  constructor.
  - unfold Qminus. lra.
  - apply (IH _ _ x); [lra | lra | exact Hinc].
Qed.

(** While the steps never shrink the MACD line never falls, so its
    average, the signal line, stays below it. *)
Lemma signal_below_macd_from xs : forall f s c d sg,
  a * (c - f) <= (1 - a) * d ->
  0 <= (a - b) * d + a * (c - f) - b * (c - s) ->
  0 <= d -> sg <= f - s -> steps_grow c d xs ->
  Forall2 (fun m sig => sig <= m)
    (zip_with Qminus (ewm_from a f xs) (ewm_from b s xs))
    (ewm_from g sg (zip_with Qminus (ewm_from a f xs) (ewm_from b s xs))).
Proof.
  induction xs as [| x xs IH]; intros f s c d sg P1 K Hd Hsg Hgrow;
    [constructor |].
  destruct Hgrow as (Hx & Hdx & Hgrow).
  cbn [ewm_from zip_with].
  set (f' := (1 - a) * f + a * x).
  set (s' := (1 - b) * s + b * x).
  assert (P1' : a * (x - f') <= (1 - a) * (x - c)).
  { unfold f'.
    assert (0 <= (1 - a) * ((1 - a) * (x - c - d)))
      by (repeat apply Qmult_le_0_compat; lra).
    assert (0 <= (1 - a) * ((1 - a) * d - a * (c - f)))
      by (apply Qmult_le_0_compat; lra).
    lra. }
  assert (Hdm : f - s <= f' - s').
  { unfold f', s'.
    assert (0 <= (a - b) * (x - c - d)) by (apply Qmult_le_0_compat; lra).
    lra. }
  assert (K' : 0 <= (a - b) * (x - c) + a * (x - f') - b * (x - s')).
  { unfold f', s'.
    assert (0 <= (1 - b) * ((a - b) * d + a * (c - f) - b * (c - s)))
      by (apply Qmult_le_0_compat; lra).
    assert (0 <= (a - b) * ((1 - a) * d - a * (c - f)))
      by (apply Qmult_le_0_compat; lra).
    assert (0 <= (a - b) * ((2 - a - b) * (x - c - d)))
      by (repeat apply Qmult_le_0_compat; lra).
    lra. }
  assert (Hsg' : (1 - g) * sg + g * (f' - s') <= f' - s').
  { assert (0 <= (1 - g) * (f' - s' - sg)) by (apply Qmult_le_0_compat; lra).
    lra. }
  constructor; [exact Hsg' |].
  apply (IH f' s' x (x - c)); try assumption. lra.
Qed.

End Ema.

Lemma macd_series_cons fast slow c xs :
  macd_series fast slow (c :: xs)
  = (c - c) :: zip_with Qminus (ewm_from (alpha fast) c xs)
                 (ewm_from (alpha slow) c xs).
Proof. reflexivity. Qed.

Lemma signal_series_cons fast slow signal c xs :
  signal_series fast slow signal (c :: xs)
  = (c - c) :: ewm_from (alpha signal) (c - c)
                 (zip_with Qminus (ewm_from (alpha fast) c xs)
                    (ewm_from (alpha slow) c xs)).
Proof. reflexivity. Qed.

Lemma macd_positive fast slow close :
  (1 <= fast < slow)%Z -> Qincreasing close ->
  forall i m, macd_series fast slow close !! i = Some m ->
              0 <= m /\ ((1 <= i)%nat -> 0 < m).
Proof.
  intros Hspan Hinc i m Hm.
  destruct close as [| c xs]; [discriminate |].
  rewrite macd_series_cons in Hm.
  destruct (alpha_range fast) as [Hf0 Hf1]; [lia |].
  destruct (alpha_range slow) as [Hs0 Hs1]; [lia |].
  pose proof (alpha_decreasing fast slow Hspan) as Hdec.
  assert (Hpos : Forall (fun m => 0 < m)
                   (zip_with Qminus (ewm_from (alpha fast) c xs)
                      (ewm_from (alpha slow) c xs))).
  { apply macd_positive_from with (c := c); try assumption; lra. }
  destruct i as [| i].
  - injection Hm as <-. split; [lra | lia].
  - cbn in Hm. rewrite Forall_lookup in Hpos.
    specialize (Hpos i m Hm). simpl in Hpos. split; [lra | intros _; exact Hpos].
Qed.

Lemma signal_below_macd fast slow signal close :
  (1 <= fast < slow)%Z -> (1 <= signal)%Z -> Qaccelerating close ->
  Forall2 (fun m sig => sig <= m) (macd_series fast slow close)
    (signal_series fast slow signal close).
Proof.
  intros Hspan Hsig Hacc.
  destruct close as [| c xs]; [constructor |].
  rewrite macd_series_cons, signal_series_cons.
  destruct (alpha_range fast) as [Hf0 Hf1]; [lia |].
  destruct (alpha_range slow) as [Hs0 Hs1]; [lia |].
  destruct (alpha_range signal) as [Hg0 Hg1]; [lia |].
  pose proof (alpha_decreasing fast slow Hspan) as Hdec.
  constructor; [lra |].
  apply signal_below_macd_from with (c := c) (d := 0);
    try assumption; lra.
Qed.

Lemma histogram_nonneg (ms sigs : list Q) :
  Forall2 (fun m sig => sig <= m) ms sigs ->
  Forall (fun h => 0 <= h) (zip_with Qminus ms sigs).
Proof.
  induction 1 as [| m sig ms sigs H _ IH]; [constructor |].
  cbn [zip_with]. constructor; [unfold Qminus; lra | exact IH].
Qed.

Lemma Forall2_nth (ms sigs : list Q) :
  Forall2 (fun m sig => sig <= m) ms sigs ->
  forall i, nth i sigs 0 <= nth i ms 0.
Proof.
  induction 1 as [| m sig ms sigs H _ IH]; intros [| i]; simpl;
    try lra; apply IH.
Qed.

(** A loop that never meets a MACD line below its signal line writes no
    "Sell". *)
Lemma cross_step_no_sell (ms sigs : list Q) (labels : list string) (i : nat) :
  (forall j, nth j sigs 0 <= nth j ms 0) ->
  Forall (fun l => l <> "Sell") labels ->
  Forall (fun l => l <> "Sell") (cross_step ms sigs labels i).
Proof.
  intros Hnth Hl. unfold cross_step.
  destruct (Qltb (nth i sigs 0) (nth i ms 0)
            && Qleb (nth (i - 1) ms 0) (nth (i - 1) sigs 0)).
  { apply Forall_insert; [exact Hl | discriminate]. }
  destruct (Qltb (nth i ms 0) (nth i sigs 0)) eqn:E.
  { apply Qltb_lt in E. specialize (Hnth i). lra. }
  exact Hl.
Qed.

Lemma cross_labels_no_sell (ms sigs : list Q) :
  (forall j, nth j sigs 0 <= nth j ms 0) ->
  Forall (fun l => l <> "Sell") (cross_labels ms sigs).
Proof.
  intros Hnth. unfold cross_labels.
  generalize (range 1 (length ms)) as idx.
  assert (H0 : Forall (fun l => l <> "Sell") (replicate (length ms) "Hold")).
  { apply Forall_replicate. discriminate. }
  revert H0. generalize (replicate (length ms) "Hold") as labels.
  intros labels H0 idx. revert labels H0.
  induction idx as [| i idx IH]; intros labels H0; [exact H0 |].
  cbn [fold_left]. apply IH, cross_step_no_sell; assumption.
Qed.

(** C3 (as stated): the closes 1, 1001, 1002, ..., 1016 rise at every bar,
    yet bar 15 is labelled "Sell" and the histogram is negative at the last
    bars: after the jump the MACD line decays and falls below its signal
    line. *)
Lemma sell_on_rising_closes :
  Qincreasing (map Close (rows slowing_frame))
  /\ exists macd sig hist df' labels h15 h16,
       calculate_macd 12 26 9 slowing_frame = (Ok (macd, sig, hist), df')
       /\ cols df' !! "MACD_Cross" = Some (StrCol labels)
       /\ labels !! 15%nat = Some "Sell"
       /\ hist !! 15%nat = Some h15 /\ h15 < 0
       /\ hist !! 16%nat = Some h16 /\ h16 < 0
       /\ length hist = 17%nat.
Proof.
  split.
  - vm_compute. repeat split.
  - do 7 eexists.
    split; [apply calculate_macd_run |].
    split; [unfold macd_frame; cbn [cols]; apply lookup_insert_eq |].
    split; [vm_compute; reflexivity |].
    split; [vm_compute; reflexivity |].
    split; [apply Qltb_lt; vm_compute; reflexivity |].
    split; [vm_compute; reflexivity |].
    split; [apply Qltb_lt; vm_compute; reflexivity |].
    vm_compute; reflexivity.
Qed.

(** With exact averages: for every strictly increasing close series the
    MACD line is never negative and is positive from the second bar on (the
    fast average is above the slow one); if moreover the rises never
    shrink - each step is at least as large as the one before - the
    histogram is non-negative at every bar and no bar is labelled "Sell".
    This is a property of the recurrences, not of their float64 values:
    when the rises are constant the exact histogram tends to zero, and its
    computed value can come out below zero by a rounding error. *)
Theorem macd_on_rising_closes
  (fast slow signal : Z) (df df' : DataFrame) (macd sig hist : list Q) :
  (1 <= fast < slow)%Z -> (1 <= signal)%Z ->
  calculate_macd fast slow signal df = (Ok (macd, sig, hist), df') ->
  Qincreasing (map Close (rows df)) ->
  (forall i m, macd !! i = Some m -> 0 <= m /\ ((1 <= i)%nat -> 0 < m))
  /\ (Qaccelerating (map Close (rows df)) ->
      (forall i h, hist !! i = Some h -> 0 <= h)
      /\ exists labels,
           cols df' !! "MACD_Cross" = Some (StrCol labels)
           /\ length labels = length (rows df)
           /\ forall i, labels !! i <> Some "Sell").
Proof.
  intros Hspan Hsig Hrun Hinc.
  rewrite calculate_macd_run in Hrun.
  injection Hrun as <- <- <- <-.
  set (close := map Close (rows df)) in *.
  split.
  - apply macd_positive; assumption.
  - intros Hacc.
    pose proof (signal_below_macd fast slow signal close Hspan Hsig Hacc)
      as Hbelow.
    split.
    + intros i h Hh.
      pose proof (histogram_nonneg _ _ Hbelow) as Hall.
      rewrite Forall_lookup in Hall. apply (Hall i h Hh).
    + exists (cross_labels (macd_series fast slow close)
                (signal_series fast slow signal close)).
      split; [unfold macd_frame; cbn [cols]; apply lookup_insert_eq |].
      split.
      * rewrite cross_labels_length, macd_series_length. apply length_map.
      * intros i Hi.
        pose proof (cross_labels_no_sell _ _ (Forall2_nth _ _ Hbelow)) as Hall.
        rewrite Forall_lookup in Hall. apply (Hall i _ Hi). reflexivity.
Qed.

Lemma macd_on_rising_closes_witness :
  exists labels,
    cols (macd_frame 12 26 9 steady_frame) !! "MACD_Cross"
    = Some (StrCol labels)
    /\ length labels = length (rows steady_frame)
    /\ forall i, labels !! i <> Some "Sell".
Proof.
  eapply (macd_on_rising_closes 12 26 9 steady_frame).
  - lia.
  - lia.
  - apply calculate_macd_run.
  - vm_compute. repeat split.
  - vm_compute. repeat split; discriminate.
Defined.

(** ** Clustering of levels *)

Lemma fold_cluster_from tol rest : forall clusters cur,
  (let '(clusters', cur') := fold_left (cluster_step tol) rest (clusters, cur)
   in clusters' ++ [Qmean cur'])
  = clusters ++ cluster_from tol cur rest.
Proof.
  induction rest as [| y rest IH]; intros clusters cur; [reflexivity |].
  cbn [fold_left cluster_from]. unfold cluster_step at 2. fold (near tol (Qmean cur) y).
  destruct (near tol (Qmean cur) y).
  - apply IH.
  - rewrite IH, <- app_assoc. reflexivity.
Qed.

Lemma insert_sorted_length x l : length (insert_sorted x l) = S (length l).
Proof.
  induction l as [| y l IH]; simpl; [reflexivity |].
  destruct (Qleb x y); simpl; [reflexivity | rewrite IH; reflexivity].
Qed.

Lemma sorted_length l : length (sorted l) = length l.
Proof.
  induction l as [| x l IH]; simpl; [reflexivity |].
  rewrite insert_sorted_length, IH. reflexivity.
Qed.

Lemma cluster_levels_from levels tol :
  cluster_levels levels tol
  = match sorted levels with
    | [] => []
    | level0 :: rest => cluster_from tol [level0] rest
    end.
Proof.
  unfold cluster_levels.
  destruct levels as [| x levels]; [reflexivity |].
  cbn [length Nat.eqb].
  destruct (sorted (x :: levels)) as [| level0 rest]; [reflexivity |].
  pose proof (fold_cluster_from tol rest [] [level0]) as H.
  destruct (fold_left (cluster_step tol) rest ([], [level0])) as [cl cur].
  exact H.
Qed.

Lemma insert_sorted_Forall (P : Q -> Prop) x l :
  P x -> Forall P l -> Forall P (insert_sorted x l).
Proof.
  intros Hx. induction 1 as [| y l Hy Hl IH]; simpl.
  - constructor; [exact Hx | constructor].
  - destruct (Qleb x y); repeat constructor; assumption.
Qed.

Lemma insert_sorted_ascending x l :
  ascending l -> ascending (insert_sorted x l).
Proof.
  induction l as [| y l IH]; intros Hl; simpl.
  - split; constructor.
  - destruct Hl as [Hy Hl].
    destruct (Qleb x y) eqn:E.
    + apply Qleb_le in E. split; [| split; assumption].
      constructor; [exact E |].
      eapply Forall_impl; [exact Hy |]. intros z Hz. simpl in Hz. lra.
    + apply Qleb_nle in E. split; [| apply IH, Hl].
      apply insert_sorted_Forall; [lra | exact Hy].
Qed.

Lemma sorted_ascending l : ascending (sorted l).
Proof.
  induction l as [| x l IH]; [exact I |].
  simpl. apply insert_sorted_ascending, IH.
Qed.

Lemma sorted_fixed l : ascending l -> sorted l = l.
Proof.
  induction l as [| a l IH]; intros Hl; [reflexivity |].
  destruct Hl as [Ha Hl]. simpl. rewrite (IH Hl).
  destruct l as [| b l]; [reflexivity |].
  simpl. inversion Ha as [| ? ? Hab _]; subst.
  apply Qleb_le in Hab. rewrite Hab. reflexivity.
Qed.

Lemma ascending_app l1 l2 :
  ascending (l1 ++ l2) ->
  ascending l1 /\ ascending l2 /\ Forall (fun x => Forall (Qle x) l2) l1.
Proof.
  induction l1 as [| a l1 IH]; intros H; simpl in *.
  - repeat split; [exact H | constructor].
  - destruct H as [Ha H]. apply Forall_app in Ha as [Ha1 Ha2].
    destruct (IH H) as (H1 & H2 & H3).
    repeat split; try assumption. constructor; assumption.
Qed.

Lemma separated_ascending tol l : separated tol l -> ascending l.
Proof.
  induction l as [| a l IH]; intros H; [exact I |].
  destruct l as [| b l]; [split; [constructor | exact I] |].
  destruct H as (Hab & _ & H). specialize (IH H).
  split; [| exact IH].
  destruct IH as [Hb _].
  constructor; [exact Hab |].
  eapply Forall_impl; [exact Hb |]. intros z Hz. simpl in Hz. lra.
Qed.

(** *** Means *)

Lemma inject_succ (n : nat) :
  inject_Z (Z.of_nat (S n)) == inject_Z (Z.of_nat n) + 1.
Proof.
  rewrite Nat2Z.inj_succ. unfold Z.succ. rewrite inject_Z_plus. reflexivity.
Qed.

Lemma Qsum_lower lo xs :
  Forall (Qle lo) xs -> inject_Z (Z.of_nat (length xs)) * lo <= Qsum xs.
Proof.
  induction 1 as [| x xs Hx _ IH].
  - change (0 * lo <= 0). lra.
  - cbn [length]. rewrite inject_succ. unfold Qsum in *. cbn [foldr].
    simpl in Hx. lra.
Qed.

Lemma Qsum_upper hi xs :
  Forall (fun x => x <= hi) xs ->
  Qsum xs <= inject_Z (Z.of_nat (length xs)) * hi.
Proof.
  induction 1 as [| x xs Hx _ IH].
  - change (0 <= 0 * hi). lra.
  - cbn [length]. rewrite inject_succ. unfold Qsum in *. cbn [foldr]. lra.
Qed.

Lemma Qmean_lower lo xs :
  xs <> [] -> Forall (Qle lo) xs -> lo <= Qmean xs.
Proof.
  intros Hne Hlo. unfold Qmean.
  assert (Hn : 0 < inject_Z (Z.of_nat (length xs))).
  { apply inject_nat_pos. destruct xs; [congruence | simpl; lia]. }
  apply Qle_shift_div_l; [exact Hn |].
  pose proof (Qsum_lower lo xs Hlo). lra.
Qed.

Lemma Qmean_upper hi xs :
  xs <> [] -> Forall (fun x => x <= hi) xs -> Qmean xs <= hi.
Proof.
  intros Hne Hhi. unfold Qmean.
  assert (Hn : 0 < inject_Z (Z.of_nat (length xs))).
  { apply inject_nat_pos. destruct xs; [congruence | simpl; lia]. }
  apply Qle_shift_div_r; [exact Hn |].
  pose proof (Qsum_upper hi xs Hhi). lra.
Qed.

Lemma Qmean_single x : Qmean [x] == x.
Proof. unfold Qmean, Qsum. simpl. field. Qed.

(** *** The joining test *)

Lemma Qabs_sign_nonneg q : (0 <= Qnum (Qabs q))%Z.
Proof. destruct q as [n d]. simpl. lia. Qed.

Lemma near_true_iff tol m x :
  0 < tol ->
  near tol m x = true <-> m < 0 \/ (0 < m /\ Qabs (x - m) < tol * m).
Proof.
  intros Htol. unfold near. cbn [nsub nneg nadd nabs].
  fold (Qminus x m). set (q := Qabs (x - m)).
  assert (Hq : 0 <= q) by apply Qabs_nonneg.
  unfold ndiv.
  destruct (Qeqb m 0) eqn:Em.
  - apply Qeqb_eq in Em.
    assert (Hfalse : (inf_of_sign (Qsgn q) <? Fin tol)%num = false).
    { unfold Qsgn. pose proof (Qabs_sign_nonneg (x - m)) as Hs. fold q in Hs.
      destruct (Qnum q); simpl; try reflexivity. lia. }
    rewrite Hfalse. split; [discriminate |].
    intros [H | [H _]]; lra.
  - apply Qeqb_neq in Em. cbn [nlt]. rewrite Qltb_lt.
    destruct (Qlt_le_dec m 0) as [Hneg | Hpos].
    + split; [intros _; left; exact Hneg |]. intros _.
      assert (E : q / m == - (q / - m)) by (field; lra).
      assert (0 <= q / - m) by (apply Qle_shift_div_l; lra).
      lra.
    + assert (Hm : 0 < m) by lra.
      split.
      * intros H. right. split; [exact Hm |].
        assert (E : q == q / m * m) by (field; lra).
        rewrite E. apply Qmult_lt_compat_r; assumption.
      * intros [H | [_ H]]; [lra |].
        apply Qlt_shift_div_r; assumption.
Qed.

Lemma near_compat tol m m' x :
  0 < tol -> m == m' -> near tol m x = near tol m' x.
Proof.
  intros Htol Hm. apply eq_true_iff_eq.
  rewrite !near_true_iff by exact Htol. rewrite Hm. reflexivity.
Qed.

(** A level that does not join a cluster keeps later levels out too. *)
Lemma near_false_mono tol m x y :
  0 < tol -> near tol m x = false -> m <= x -> x <= y ->
  near tol m y = false.
Proof.
  intros Htol Hx Hmx Hxy.
  destruct (near tol m y) eqn:E; [| reflexivity].
  apply near_true_iff in E; [| exact Htol].
  assert (Hx' : near tol m x = true); [| congruence].
  apply near_true_iff; [exact Htol |].
  destruct E as [Hneg | [Hpos Habs]]; [left; exact Hneg | right].
  split; [exact Hpos |].
  rewrite Qabs_pos in * by lra. lra.
Qed.

(** *** The clusters are in order and apart *)

Section Clusters.

Variable tol : Q.
Hypothesis Htol : 0 < tol.

Lemma cluster_from_lower rest : forall cur lo,
  cur <> [] -> Forall (Qle lo) (cur ++ rest) ->
  Forall (Qle lo) (cluster_from tol cur rest).
Proof.
  induction rest as [| y rest IH]; intros cur lo Hne Hlo.
  - rewrite app_nil_r in Hlo. cbn [cluster_from].
    constructor; [apply Qmean_lower; assumption | constructor].
  - cbn [cluster_from].
    destruct (near tol (Qmean cur) y).
    + apply IH.
      * destruct cur; discriminate.
      * rewrite <- app_assoc. exact Hlo.
    + apply Forall_app in Hlo as [Hcur Hrest].
      constructor; [apply Qmean_lower; assumption |].
      apply IH; [discriminate | exact Hrest].
Qed.

Lemma cluster_from_separated rest : forall cur,
  cur <> [] -> ascending (cur ++ rest) ->
  separated tol (cluster_from tol cur rest).
Proof.
  induction rest as [| y rest IH]; intros cur Hne Hasc; [exact I |].
  cbn [cluster_from].
  destruct (near tol (Qmean cur) y) eqn:Enear.
  - apply IH.
    + destruct cur; discriminate.
    + rewrite <- app_assoc. exact Hasc.
  - apply ascending_app in Hasc as (_ & Hyrest & Hcur).
    assert (Hmean : Qmean cur <= y).
    { apply Qmean_upper; [exact Hne |].
      eapply Forall_impl; [exact Hcur |].
      intros z Hz. inversion Hz; assumption. }
    assert (Hlow : Forall (Qle y) (cluster_from tol [y] rest)).
    { apply cluster_from_lower; [discriminate |].
      destruct Hyrest as [Hy _]. constructor; [apply Qle_refl | exact Hy]. }
    specialize (IH [y] ltac:(discriminate) Hyrest).
    destruct (cluster_from tol [y] rest) as [| h t] eqn:Eout; [exact I |].
    inversion Hlow as [| ? ? Hyh _]; subst.
    split; [lra |]. split; [| exact IH].
    apply (near_false_mono tol (Qmean cur) y h); assumption.
Qed.

(** Levels that are apart form one cluster each. *)
Lemma separated_fixed rest : forall o,
  separated tol (o :: rest) ->
  Forall2 Qeq (cluster_from tol [o] rest) (o :: rest).
Proof.
  induction rest as [| y rest IH]; intros o Hsep.
  - cbn [cluster_from]. constructor; [apply Qmean_single | constructor].
  - destruct Hsep as (_ & Hnear & Hsep).
    cbn [cluster_from].
    rewrite (near_compat tol (Qmean [o]) o y Htol (Qmean_single o)), Hnear.
    constructor; [apply Qmean_single | apply IH, Hsep].
Qed.

Lemma cluster_levels_separated levels :
  separated tol (cluster_levels levels tol).
Proof.
  rewrite cluster_levels_from.
  pose proof (sorted_ascending levels) as Hasc.
  destruct (sorted levels) as [| l0 rest]; [exact I |].
  apply cluster_from_separated; [discriminate | exact Hasc].
Qed.

Lemma cluster_levels_fixed levels :
  separated tol levels ->
  Forall2 Qeq (cluster_levels levels tol) levels.
Proof.
  intros Hsep. rewrite cluster_levels_from.
  rewrite (sorted_fixed levels (separated_ascending tol levels Hsep)).
  destruct levels as [| o rest]; [constructor |].
  apply separated_fixed, Hsep.
Qed.

Lemma cluster_levels_twice levels :
  Forall2 Qeq (cluster_levels (cluster_levels levels tol) tol)
    (cluster_levels levels tol).
Proof. apply cluster_levels_fixed, cluster_levels_separated. Qed.

End Clusters.

(** With exact means, clustering the clustered levels again, with the same
    tolerance of 2%, gives the same levels, one cluster per level; the
    clustered levels are in ascending order and no level is within the
    tolerance of the one before it.  This is a property of the loop, not of
    its float64 values: a rounded mean can come out within the tolerance. *)
Theorem cluster_levels_idempotent (levels : list Q) :
  Forall2 Qeq
    (cluster_levels (cluster_levels levels (2 # 100)) (2 # 100))
    (cluster_levels levels (2 # 100))
  /\ separated (2 # 100) (cluster_levels levels (2 # 100))
  /\ ascending (cluster_levels levels (2 # 100)).
Proof.
  assert (Htol : 0 < 2 # 100) by reflexivity.
  split; [apply cluster_levels_twice, Htol |].
  split; [apply cluster_levels_separated, Htol |].
  apply (separated_ascending (2 # 100)), cluster_levels_separated, Htol.
Qed.

Example cluster_levels_example :
  Forall2 Qeq
    (cluster_levels [103 + (1 # 2); 100; 120; 101 + (1 # 2)] (2 # 100))
    [100 + (3 # 4); 103 + (1 # 2); 120].
Proof. vm_compute. repeat constructor. Qed.

(** ** Scenarios *)

(** A bar with a tiny body and long shadows is a Doji. *)
Example doji_scenario :
  map pattern
    (candle_events (mkBar 1 100 101 99 100 1000)
       (mkBar 2 100 108 92 (100 + (1 # 2)) 1000))
  = ["Doji"].
Proof. vm_compute. reflexivity. Qed.

(** A bearish bar (90 to 80) followed by a bullish bar that engulfs it
    (78 to 95). *)
Example bullish_engulfing_scenario :
  map pattern
    (candle_events (mkBar 1 90 91 79 80 1000) (mkBar 2 78 96 77 95 1000))
  = ["Bullish Engulfing"].
Proof. vm_compute. reflexivity. Qed.

(** Seven buy signals against none. *)
Example recommend_strong_buy :
  recommend 7 0
  = {| action := "Strong Buy";
       confidence := 95;
       reason :=
         "Multiple bullish signals detected (7 buy vs 0 sell signals)" |}.
Proof. vm_compute. reflexivity. Qed.

(** Three sell signals against one buy signal. *)
Example recommend_sell :
  recommend 1 3
  = {| action := "Sell";
       confidence := 36;
       reason :=
         "Bearish indicators outweigh bullish (3 sell vs 1 buy signals)" |}.
Proof. vm_compute. reflexivity. Qed.

(** On an empty frame the engine raises [IndexError], after the first three
    indicators have written their columns; [analyze_stock_technical] tests
    for it and returns [None]. *)
Example empty_frame_scenario :
  fst (analyze 0 [empty_frame]) = Raise IndexError
  /\ fst (analyze_stock_technical (Some 0%nat) [empty_frame]) = Ok None
  /\ fst (analyze_stock_technical None [empty_frame]) = Ok None.
Proof. repeat split; vm_compute; reflexivity. Qed.

Lemma analyze_stock_technical_nonempty st data df :
  st !! data = Some df -> rows df <> [] ->
  fst (analyze_stock_technical (Some data) st)
  = Ok (Some (analysis_of (rows (sort_values_Date df)))).
Proof.
  intros Hd Hne. unfold analyze_stock_technical. rewrite Hd.
  destruct (rows df) as [| b bars] eqn:E; [congruence |].
  cbn [length Nat.eqb]. unfold bind.
  rewrite (analyze_run st data df Hd).
  destruct (sort_values_Date_rows df) as (_ & _ & Hlen).
  rewrite calculate_all_indicators_run
    by (rewrite Hlen, E; simpl; lia).
  reflexivity.
Qed.

(** ** Short histories *)

Lemma rolling_last_short w agg xs :
  (0 < length xs < w)%nat -> last (rolling w agg xs) = Some NaN.
Proof.
  intros Hn. rewrite last_lookup, rolling_length.
  rewrite rolling_lookup by lia.
  destruct (Nat.ltb_spec (S (pred (length xs))) w); [reflexivity | lia].
Qed.

Lemma trend_label_nan_20 p s50 : trend_label p NaN s50 = "Sideways".
Proof. unfold trend_label. destruct s50; reflexivity. Qed.

Lemma trend_label_nan_50 p s20 :
  trend_label p s20 NaN <> "Strong Uptrend"
  /\ trend_label p s20 NaN <> "Strong Downtrend".
Proof.
  unfold trend_label.
  assert (H1 : (s20 >? NaN)%num = false) by (destruct s20; reflexivity).
  assert (H2 : (s20 <? NaN)%num = false) by (destruct s20; reflexivity).
  rewrite H1, H2, !andb_false_r.
  repeat match goal with |- context [if ?b then _ else _] => destruct b end;
    split; discriminate.
Qed.

(** X1: the trend needs twenty closes.  When the analysis succeeds on fewer
    than 20 bars the 20-bar average is NaN and the trend is "Sideways"; on
    fewer than 50 bars the 50-bar average is NaN and the trend is never one
    of the two "Strong" labels. *)
Theorem trend_needs_history (df df' : DataFrame) (a : Analysis) :
  calculate_all_indicators df = (Ok a, df') ->
  ((length (rows df) < 20)%nat ->
   sma_20 (results a) = NaN /\ trend (results a) = "Sideways")
  /\ ((length (rows df) < 50)%nat ->
      sma_50 (results a) = NaN
      /\ trend (results a) <> "Strong Uptrend"
      /\ trend (results a) <> "Strong Downtrend").
Proof.
  intros H. apply calculate_all_indicators_inv in H as [-> Hn].
  cbn [results analysis_of]. unfold results_of. cbn [sma_20 sma_50 trend].
  split; intros Hs.
  - rewrite (rolling_last_short 20) by (rewrite !length_map; lia).
    cbn [default]. split; [reflexivity | apply trend_label_nan_20].
  - rewrite (rolling_last_short 50) by (rewrite !length_map; lia).
    cbn [default]. split; [reflexivity | apply trend_label_nan_50].
Qed.

Lemma trend_needs_history_witness :
  sma_20 (results (analysis_of (rows short_frame))) = NaN
  /\ trend (results (analysis_of (rows short_frame))) = "Sideways".
Proof.
  apply (trend_needs_history short_frame (indicator_frame short_frame)).
  - apply calculate_all_indicators_run. simpl. lia.
  - simpl. lia.
Defined.

Lemma analyze_volume_empty df :
  rows df = [] -> fst (analyze_volume df) = Raise ValueError.
Proof.
  destruct df as [r c]. cbn [rows]. intros ->.
  unfold analyze_volume.
  unfold bind at 1. unfold column at 1. cbn [rows map].
  erewrite bind_run by (apply set_col_run; reflexivity).
  erewrite bind_run
    by (apply get_num_run; cbn [rows cols]; apply lookup_insert_eq).
  erewrite bind_run by (apply set_col_run; reflexivity).
  cbn [rows cols].
  unfold bind at 1. unfold column at 1. cbn [rows cols map].
  unfold bind at 1. unfold len at 1. cbn [rows cols length].
  unfold bind at 1. cbn [range for_acc Nat.sub seq]. unfold ret at 1.
  erewrite bind_raise; reflexivity.
Qed.

Lemma analyze_volume_inv df v df' :
  analyze_volume df = (Ok v, df') ->
  v = volume_of (rows df) /\ df' = volume_frame df
  /\ (0 < length (rows df))%nat.
Proof.
  intros H. destruct (rows df) as [| b bars] eqn:E.
  - pose proof (analyze_volume_empty df E) as He. rewrite H in He.
    discriminate.
  - assert (Hn : (0 < length (rows df))%nat) by (rewrite E; simpl; lia).
    rewrite (analyze_volume_run df Hn) in H. injection H as <- <-.
    rewrite E. repeat split. simpl. lia.
Qed.

Lemma count_true_bounds bs : (0 <= count_true bs <= Z.of_nat (length bs))%Z.
Proof.
  unfold count_true. pose proof (filter_length_le id bs). lia.
Qed.

Lemma last_n_length {A} (k : nat) (xs : list A) :
  length (last_n k xs) = Nat.min k (length xs).
Proof. unfold last_n. rewrite length_drop. lia. Qed.

Lemma count_true_all_false bs :
  Forall (fun b => b = false) bs -> count_true bs = 0%Z.
Proof.
  intros H. unfold count_true. induction H as [| b bs -> _ IH]; [reflexivity |].
  exact IH.
Qed.

Lemma volume_ma_short volume :
  (length volume < 20)%nat -> Forall (fun m => m = NaN) (volume_ma volume).
Proof.
  intros Hn. apply Forall_forall. intros m Hm.
  apply list_elem_of_lookup in Hm as [i Hi].
  assert (Hlt : (i < length volume)%nat).
  { apply lookup_lt_Some in Hi. rewrite volume_ma_length in Hi. exact Hi. }
  unfold volume_ma in Hi. rewrite rolling_lookup in Hi by (rewrite length_map; lia).
  destruct (Nat.ltb_spec (S i) 20); [congruence | lia].
Qed.

Lemma volume_spikes_short volume :
  (length volume < 20)%nat ->
  Forall (fun b => b = false) (volume_spikes volume).
Proof.
  intros Hn. apply Forall_forall. intros b Hb.
  apply list_elem_of_lookup in Hb as [i Hi].
  unfold volume_spikes in Hi.
  apply lookup_zip_with_Some in Hi as (v & m & -> & _ & Hm).
  assert (m = NaN) as ->.
  { pose proof (volume_ma_short volume Hn) as Hall.
    rewrite Forall_forall in Hall. apply Hall.
    apply list_elem_of_lookup. exists i. exact Hm. }
  reflexivity.
Qed.

Lemma Forall_last_n {A} (P : A -> Prop) k xs :
  Forall P xs -> Forall P (last_n k xs).
Proof. intros H. unfold last_n. apply Forall_drop. exact H. Qed.

(** X2: the volume analysis on a short history.  The number of recent
    spikes lies between 0 and 10; with at most 20 bars the trend is
    "Decreasing" (there is no older window to compare with); with fewer than
    20 bars the average volume is NaN and no spike is counted. *)
Theorem volume_needs_history (df df' : DataFrame) (v : VolumeResult) :
  analyze_volume df = (Ok v, df') ->
  (0 <= recent_spikes v <= 10)%Z
  /\ ((length (rows df) <= 20)%nat -> volume_trend v = "Decreasing")
  /\ ((length (rows df) < 20)%nat ->
      avg_volume v = NaN /\ recent_spikes v = 0%Z).
Proof.
  intros H. apply analyze_volume_inv in H as (-> & -> & Hn).
  unfold volume_of. cbn [recent_spikes volume_trend avg_volume].
  split; [| split].
  - pose proof (count_true_bounds
                  (last_n 10 (volume_spikes (map Volume (rows df))))) as Hb.
    rewrite last_n_length in Hb. lia.
  - intros Hs.
    assert (Hold : slice_neg 40 20 (map Volume (rows df)) = []).
    { unfold slice_neg. rewrite length_map.
      replace (length (rows df) - 20 - (length (rows df) - 40))%nat
        with 0%nat by lia.
      reflexivity. }
    rewrite Hold. cbn [map].
    assert (Hnan : forall x, (x >? nmean [])%num = false)
      by (intros x; destruct x; reflexivity).
    rewrite Hnan. reflexivity.
  - intros Hs. split.
    + unfold volume_ma.
      rewrite rolling_last_short by (rewrite !length_map; lia). reflexivity.
    + apply count_true_all_false, Forall_last_n, volume_spikes_short.
      rewrite length_map. lia.
Qed.

Lemma volume_needs_history_witness :
  volume_trend (volume_of (rows short_frame)) = "Decreasing".
Proof.
  refine (proj1 (proj2 (volume_needs_history short_frame
                          (volume_frame short_frame) _ _)) _).
  - apply analyze_volume_run. simpl. lia.
  - simpl. lia.
Defined.

(** ** The crossover labels, bar by bar *)

Lemma cross_step_other m s labels j i :
  i <> j -> cross_step m s labels j !! i = labels !! i.
Proof.
  intros Hij. unfold cross_step.
  repeat match goal with |- context [if ?b then _ else _] => destruct b end;
    try reflexivity; apply list_lookup_insert_ne; congruence.
Qed.

Lemma cross_fold_other m s idx : forall labels i,
  ~ In i idx -> fold_left (cross_step m s) idx labels !! i = labels !! i.
Proof.
  induction idx as [| j idx IH]; intros labels i Hi; [reflexivity |].
  cbn [fold_left]. rewrite IH by (intros Hin; apply Hi; right; exact Hin).
  apply cross_step_other. intros ->. apply Hi. left. reflexivity.
Qed.

Lemma cross_step_same m s labels labels' i :
  length labels = length labels' -> labels !! i = labels' !! i ->
  cross_step m s labels i !! i = cross_step m s labels' i !! i.
Proof.
  intros Hlen Heq. unfold cross_step.
  repeat match goal with |- context [if ?b then _ else _] => destruct b end;
    try exact Heq.
  - destruct (Nat.lt_ge_cases i (length labels)) as [Hi | Hi].
    + rewrite !list_lookup_insert_eq by lia. reflexivity.
    + rewrite !lookup_ge_None_2 by (rewrite length_insert; lia). reflexivity.
  - destruct (Nat.lt_ge_cases i (length labels)) as [Hi | Hi].
    + rewrite !list_lookup_insert_eq by lia. reflexivity.
    + rewrite !lookup_ge_None_2 by (rewrite length_insert; lia). reflexivity.
Qed.

Lemma cross_fold_seq m s k : forall a labels i,
  (a <= i < a + k)%nat ->
  fold_left (cross_step m s) (seq a k) labels !! i
  = cross_step m s labels i !! i.
Proof.
  induction k as [| k IH]; intros a labels i Hi; [lia |].
  cbn [seq fold_left].
  destruct (Nat.eq_dec i a) as [-> | Hne].
  - apply cross_fold_other. rewrite in_seq. lia.
  - rewrite IH by lia. apply cross_step_same.
    + apply cross_step_length.
    + apply cross_step_other. exact Hne.
Qed.

Lemma cross_labels_lookup m s i :
  (i < length m)%nat -> cross_labels m s !! i = Some (cross_label m s i).
Proof.
  intros Hi. unfold cross_labels, cross_label, range.
  destruct i as [| i].
  - rewrite cross_fold_other by (rewrite in_seq; lia).
    apply lookup_replicate_2. exact Hi.
  - rewrite cross_fold_seq by lia. cbn [Nat.eqb]. unfold cross_step.
    repeat match goal with |- context [if ?b then _ else _] => destruct b end.
    + apply list_lookup_insert_eq. rewrite length_replicate. exact Hi.
    + apply list_lookup_insert_eq. rewrite length_replicate. exact Hi.
    + apply lookup_replicate_2. exact Hi.
Qed.

Lemma histogram_series_lookup f s g close i h :
  histogram_series f s g close !! i = Some h ->
  h = nth i (macd_series f s close) 0 - nth i (signal_series f s g close) 0.
Proof.
  intros H. unfold histogram_series in H.
  apply lookup_zip_with_Some in H as (x & y & -> & Hx & Hy).
  rewrite (nth_lookup_Some _ _ 0 _ Hx), (nth_lookup_Some _ _ 0 _ Hy).
  reflexivity.
Qed.

Lemma cross_label_buy m s i :
  cross_label m s (S i) = "Buy"
  <-> nth i m 0 - nth i s 0 <= 0 /\ 0 < nth (S i) m 0 - nth (S i) s 0.
Proof.
  unfold cross_label. cbn [Nat.eqb]. replace (S i - 1)%nat with i by lia.
  qcases; cbn [andb]; split; try discriminate;
    try (intros _; split; lra); intros [? ?]; try reflexivity; lra.
Qed.

Lemma cross_label_sell m s i :
  cross_label m s (S i) = "Sell"
  <-> 0 <= nth i m 0 - nth i s 0 /\ nth (S i) m 0 - nth (S i) s 0 < 0.
Proof.
  unfold cross_label. cbn [Nat.eqb]. replace (S i - 1)%nat with i by lia.
  qcases; cbn [andb]; split; try discriminate;
    try (intros _; split; lra); intros [? ?]; try reflexivity; lra.
Qed.

Lemma cross_label_cases m s i :
  cross_label m s i = "Hold" \/ cross_label m s i = "Buy"
  \/ cross_label m s i = "Sell".
Proof.
  unfold cross_label.
  repeat match goal with |- context [if ?b then _ else _] => destruct b end;
    tauto.
Qed.

(** X3: the column 'MACD_Cross' marks the sign changes of the histogram.
    The first bar is "Hold"; a later bar is "Buy" exactly when the histogram
    is positive there and was not positive on the bar before, "Sell" exactly
    when it is negative and was not negative before, and "Hold" otherwise.
    Two consecutive bars never carry the same "Buy" or "Sell" label.  (The
    spans are at least 1: pandas refuses smaller ones.) *)
Theorem macd_cross_marks_sign_changes
  (fast slow signal : Z) (df df' : DataFrame) (macd sig hist : list Q) :
  (1 <= fast)%Z -> (1 <= slow)%Z -> (1 <= signal)%Z ->
  calculate_macd fast slow signal df = (Ok (macd, sig, hist), df') ->
  exists labels,
    cols df' !! "MACD_Cross" = Some (StrCol labels)
    /\ length labels = length (rows df)
    /\ (forall l, labels !! 0%nat = Some l -> l = "Hold")
    /\ (forall i h h' l,
          hist !! i = Some h -> hist !! S i = Some h' ->
          labels !! S i = Some l ->
          (l = "Buy" <-> h <= 0 /\ 0 < h')
          /\ (l = "Sell" <-> 0 <= h /\ h' < 0)
          /\ (l = "Hold" \/ l = "Buy" \/ l = "Sell"))
    /\ (forall i l,
          labels !! i = Some l -> labels !! S i = Some l -> l = "Hold").
Proof.
  intros _ _ _ H. rewrite calculate_macd_run in H. injection H as <- <- <- <-.
  set (close := map Close (rows df)).
  set (m := macd_series fast slow close).
  set (s := signal_series fast slow signal close).
  assert (Hm : length m = length (rows df))
    by (subst m close; rewrite macd_series_length; apply length_map).
  exists (cross_labels m s).
  split; [unfold macd_frame; cbn [cols]; apply lookup_insert_eq |].
  split; [rewrite cross_labels_length; exact Hm |].
  assert (Hlook : forall i l, cross_labels m s !! i = Some l ->
                              l = cross_label m s i).
  { intros i l Hl.
    assert (Hi : (i < length m)%nat).
    { apply lookup_lt_Some in Hl. rewrite cross_labels_length in Hl.
      exact Hl. }
    rewrite cross_labels_lookup in Hl by exact Hi. congruence. }
  split; [| split].
  - intros l Hl. apply Hlook in Hl. exact Hl.
  - intros i h h' l Hh Hh' Hl.
    apply histogram_series_lookup in Hh, Hh'. fold close m s in Hh, Hh'.
    apply Hlook in Hl. subst l h h'.
    split; [apply cross_label_buy |].
    split; [apply cross_label_sell | apply cross_label_cases].
  - intros i l Hl Hl'. apply Hlook in Hl, Hl'.
    destruct (cross_label_cases m s (S i)) as [E | [E | E]];
      [congruence | |].
    + destruct i as [| i]; [exact Hl |].
      pose proof (proj1 (cross_label_buy m s (S i)) E) as [H1 H2].
      assert (E' : cross_label m s (S i) = "Buy") by congruence.
      pose proof (proj1 (cross_label_buy m s i) E') as [H3 H4]. lra.
    + destruct i as [| i]; [exact Hl |].
      pose proof (proj1 (cross_label_sell m s (S i)) E) as [H1 H2].
      assert (E' : cross_label m s (S i) = "Sell") by congruence.
      pose proof (proj1 (cross_label_sell m s i) E') as [H3 H4]. lra.
Qed.

Lemma macd_cross_marks_sign_changes_witness :
  exists labels,
    cols (macd_frame 12 26 9 steady_frame) !! "MACD_Cross"
    = Some (StrCol labels)
    /\ length labels = length (rows steady_frame)
    /\ (forall l, labels !! 0%nat = Some l -> l = "Hold").
Proof.
  destruct (macd_cross_marks_sign_changes 12 26 9 steady_frame
              (macd_frame 12 26 9 steady_frame)
              (macd_series 12 26 (map Close (rows steady_frame)))
              (signal_series 12 26 9 (map Close (rows steady_frame)))
              (histogram_series 12 26 9 (map Close (rows steady_frame))))
    as (labels & H1 & H2 & H3 & _).
  - lia.
  - lia.
  - lia.
  - apply calculate_macd_run.
  - exists labels. split; [exact H1 |]. split; [exact H2 | exact H3].
Defined.

(** ** The results agree with each other *)

Lemma default_last_nth {A} (xs : list A) (d : A) :
  default d (last xs) = nth (pred (length xs)) xs d.
Proof. rewrite last_lookup, nth_lookup. reflexivity. Qed.

Lemma default_last_map {A B} (f : A -> B) (xs : list A) (d : A) (e : B) :
  (0 < length xs)%nat ->
  default e (last (map f xs)) = f (default d (last xs)).
Proof.
  intros Hn.
  change (map f xs) with (f <$> xs). rewrite fmap_last.
  rewrite (last_default xs d Hn). reflexivity.
Qed.

Lemma rsi_label_interpretation (v : num) :
  (rsi_label v = "Overbought"
   <-> _interpret_rsi v = "Overbought - Consider selling")
  /\ (rsi_label v = "Oversold"
      <-> _interpret_rsi v = "Oversold - Consider buying")
  /\ (_interpret_rsi v = "Insufficient data" <-> v = NaN)
  /\ In (rsi_label v) ["Neutral"; "Overbought"; "Oversold"].
Proof.
  destruct v as [| | q |]; try (cbv; repeat split; intros; try discriminate;
                                 try reflexivity; tauto).
  unfold rsi_label, _interpret_rsi, ngt, nlt, isna.
  qcases; repeat split; intros; try discriminate; try reflexivity;
    try lra; simpl; tauto.
Qed.

(** X4: the RSI entry of the results is coherent.  The signal read from the
    column 'RSI_Signal' is "Overbought" exactly when the interpretation is
    "Overbought - Consider selling" and "Oversold" exactly when it is
    "Oversold - Consider buying"; when the interpretation is "Insufficient
    data" the signal is "Neutral" and the value reported is the integer 0. *)
Theorem rsi_signal_matches_interpretation
  (df df' : DataFrame) (a : Analysis) :
  calculate_all_indicators df = (Ok a, df') ->
  (rsi_signal (rsi (results a)) = "Overbought"
   <-> rsi_interpretation (rsi (results a)) = "Overbought - Consider selling")
  /\ (rsi_signal (rsi (results a)) = "Oversold"
      <-> rsi_interpretation (rsi (results a)) = "Oversold - Consider buying")
  /\ (rsi_interpretation (rsi (results a)) = "Insufficient data" ->
      rsi_signal (rsi (results a)) = "Neutral"
      /\ rsi_value (rsi (results a)) = PyInt 0)
  /\ In (rsi_signal (rsi (results a))) ["Neutral"; "Overbought"; "Oversold"].
Proof.
  intros H. apply calculate_all_indicators_inv in H as [-> Hn].
  cbn [results analysis_of]. unfold results_of.
  cbn [rsi rsi_signal rsi_interpretation rsi_value].
  rewrite (default_last_map rsi_label _ NaN)
    by (rewrite rsi_series_length, length_map; exact Hn).
  set (v := default NaN (last (rsi_series 14 (map Close (rows df))))).
  destruct (rsi_label_interpretation v) as (H1 & H2 & H3 & H4).
  split; [exact H1 |]. split; [exact H2 |]. split; [| exact H4].
  intros Hi. apply H3 in Hi. rewrite Hi. split; reflexivity.
Qed.

Lemma rsi_signal_matches_interpretation_witness :
  In (rsi_signal (rsi (results (analysis_of (rows short_frame)))))
    ["Neutral"; "Overbought"; "Oversold"].
Proof.
  refine (proj2 (proj2 (proj2 (rsi_signal_matches_interpretation short_frame
                                 (indicator_frame short_frame) _ _)))).
  apply calculate_all_indicators_run. simpl. lia.
Defined.

Lemma default_last_zip_with {A B C} (f : A -> B -> C) xs ys a b c :
  length xs = length ys -> (0 < length xs)%nat ->
  default c (last (zip_with f xs ys))
  = f (default a (last xs)) (default b (last ys)).
Proof.
  intros Hlen Hn.
  rewrite !last_lookup, length_zip_with.
  replace (Nat.min (length xs) (length ys)) with (length xs) by lia.
  rewrite <- Hlen.
  rewrite lookup_zip_with.
  rewrite (lookup_nth xs (pred (length xs)) a) by lia.
  rewrite (lookup_nth ys (pred (length xs)) b) by lia.
  reflexivity.
Qed.

Lemma interpret_macd_cases (h : Q) :
  (0 < h -> _interpret_macd h = "Bullish momentum - MACD above signal")
  /\ (h < 0 -> _interpret_macd h = "Bearish momentum - MACD below signal")
  /\ (_interpret_macd h = "Neutral" <-> h == 0).
Proof.
  unfold _interpret_macd. qcases; repeat split; intros; try discriminate;
    try reflexivity; lra.
Qed.

(** X5: the MACD entry of the results is coherent.  The histogram is the
    MACD line minus the signal line; the signal is "Hold", "Buy" or "Sell";
    a "Buy" on the latest bar comes with a positive histogram and the
    bullish interpretation, a "Sell" with a negative histogram and the
    bearish one; the interpretation is "Neutral" exactly when the histogram
    is zero. *)
Theorem macd_result_coherent (df df' : DataFrame) (a : Analysis) :
  calculate_all_indicators df = (Ok a, df') ->
  histogram (macd (results a))
  = macd_line (macd (results a)) - signal_line (macd (results a))
  /\ In (macd_signal (macd (results a))) ["Hold"; "Buy"; "Sell"]
  /\ (macd_signal (macd (results a)) = "Buy" ->
      0 < histogram (macd (results a))
      /\ macd_interpretation (macd (results a))
         = "Bullish momentum - MACD above signal")
  /\ (macd_signal (macd (results a)) = "Sell" ->
      histogram (macd (results a)) < 0
      /\ macd_interpretation (macd (results a))
         = "Bearish momentum - MACD below signal")
  /\ (macd_interpretation (macd (results a)) = "Neutral"
      <-> histogram (macd (results a)) == 0).
Proof.
  intros H. apply calculate_all_indicators_inv in H as [-> Hn].
  cbn [results analysis_of]. unfold results_of.
  cbn [macd histogram macd_line signal_line macd_signal macd_interpretation].
  set (close := map Close (rows df)).
  set (m := macd_series 12 26 close).
  set (s := signal_series 12 26 9 close).
  assert (Hm : length m = length (rows df))
    by (subst m close; rewrite macd_series_length; apply length_map).
  assert (Hs : length s = length (rows df))
    by (subst s close; rewrite signal_series_length; apply length_map).
  assert (Hh : default 0 (last (histogram_series 12 26 9 close))
               = default 0 (last m) - default 0 (last s)).
  { unfold histogram_series. fold m s.
    apply default_last_zip_with; lia. }
  rewrite Hh.
  assert (Hl : default "" (last (cross_labels m s))
               = cross_label m s (pred (length m))).
  { rewrite last_lookup, cross_labels_length.
    rewrite cross_labels_lookup by lia. reflexivity. }
  rewrite Hl. rewrite !default_last_nth. rewrite Hs, <- Hm.
  set (h := nth (pred (length m)) m 0 - nth (pred (length m)) s 0).
  destruct (interpret_macd_cases h) as (I1 & I2 & I3).
  split; [reflexivity |].
  split.
  { destruct (cross_label_cases m s (pred (length m))) as [E | [E | E]];
      rewrite E; simpl; tauto. }
  split; [| split; [| exact I3]].
  - intros E. destruct (pred (length m)) as [| i] eqn:Ep;
      [discriminate |].
    apply cross_label_buy in E as [_ E]. fold h in E. split; [exact E |].
    apply I1, E.
  - intros E. destruct (pred (length m)) as [| i] eqn:Ep;
      [discriminate |].
    apply cross_label_sell in E as [_ E]. fold h in E. split; [exact E |].
    apply I2, E.
Qed.

Lemma macd_result_coherent_witness :
  histogram (macd (results (analysis_of (rows short_frame))))
  = macd_line (macd (results (analysis_of (rows short_frame))))
    - signal_line (macd (results (analysis_of (rows short_frame)))).
Proof.
  refine (proj1 (macd_result_coherent short_frame
                   (indicator_frame short_frame) _ _)).
  apply calculate_all_indicators_run. simpl. lia.
Defined.

(** ** The Bollinger entry on a short history *)

Lemma bb_upper_lookup p sd close i u :
  bb_upper p sd close !! i = Some u ->
  exists m s, bb_sma p close !! i = Some m /\ bb_std p close !! i = Some s
              /\ u = (m + of_Z sd * s)%num.
Proof.
  unfold bb_upper. intros H.
  apply lookup_zip_with_Some in H as (m & s & -> & Hm & Hs). eauto.
Qed.

Lemma bb_lower_lookup p sd close i l :
  bb_lower p sd close !! i = Some l ->
  exists m s, bb_sma p close !! i = Some m /\ bb_std p close !! i = Some s
              /\ l = (m - of_Z sd * s)%num.
Proof.
  unfold bb_lower. intros H.
  apply lookup_zip_with_Some in H as (m & s & -> & Hm & Hs). eauto.
Qed.

Lemma bb_sma_early p close i :
  (i < length close)%nat -> (S i < p)%nat -> bb_sma p close !! i = Some NaN.
Proof.
  intros Hi Hp. unfold bb_sma. rewrite rolling_lookup by (rewrite length_map; lia).
  destruct (Nat.ltb_spec (S i) p); [reflexivity | lia].
Qed.

Lemma bb_upper_early p sd close i :
  (i < length close)%nat -> (S i < p)%nat ->
  bb_upper p sd close !! i = Some NaN.
Proof.
  intros Hi Hp.
  destruct (bb_upper p sd close !! i) as [u |] eqn:E.
  - apply bb_upper_lookup in E as (m & s & Hm & _ & ->).
    rewrite bb_sma_early in Hm by assumption. injection Hm as <-. reflexivity.
  - apply lookup_ge_None in E. rewrite bb_upper_length in E. lia.
Qed.

Lemma bb_lower_early p sd close i :
  (i < length close)%nat -> (S i < p)%nat ->
  bb_lower p sd close !! i = Some NaN.
Proof.
  intros Hi Hp.
  destruct (bb_lower p sd close !! i) as [u |] eqn:E.
  - apply bb_lower_lookup in E as (m & s & Hm & _ & ->).
    rewrite bb_sma_early in Hm by assumption. injection Hm as <-. reflexivity.
  - apply lookup_ge_None in E. rewrite bb_lower_length in E. lia.
Qed.

(** The label of 'BB_Signal' for one bar. *)
Lemma bb_labels_lookup p sd close i c u l :
  close !! i = Some c ->
  bb_upper p sd close !! i = Some u -> bb_lower p sd close !! i = Some l ->
  bb_labels p sd close !! i
  = Some (if (Fin c <=? l)%num then "Oversold"
          else if (Fin c >=? u)%num then "Overbought" else "Neutral").
Proof.
  intros Hc Hu Hl. unfold bb_labels.
  rewrite !lookup_zip_with, Hc, Hu, Hl. cbn [mbind option_bind].
  rewrite lookup_replicate_2 by (apply lookup_lt_Some in Hc; exact Hc).
  cbn [mbind option_bind]. destruct (Fin c <=? l)%num, (Fin c >=? u)%num;
    reflexivity.
Qed.

Lemma results_bb_signal_short bars :
  (0 < length bars < 20)%nat ->
  bb_signal (bollinger_bands (results_of bars)) = "Neutral".
Proof.
  intros Hn. unfold results_of. cbn [bollinger_bands bb_signal].
  set (close := map Close bars).
  assert (Hc : length close = length bars) by apply length_map.
  rewrite last_lookup, bb_labels_length.
  destruct (close !! pred (length close)) as [c |] eqn:Ec;
    [| apply lookup_ge_None in Ec; lia].
  rewrite (bb_labels_lookup 20 2 close _ c NaN NaN); try assumption.
  - reflexivity.
  - apply bb_upper_early; lia.
  - apply bb_lower_early; lia.
Qed.

(** X6: the Bollinger entry needs twenty closes.  When the analysis
    succeeds on fewer than 20 bars the three bands and the width are NaN,
    the signal is "Neutral", and the interpretation is the text "Price at
    nan% of band range". *)
Theorem bollinger_needs_history (df df' : DataFrame) (a : Analysis) :
  calculate_all_indicators df = (Ok a, df') ->
  (length (rows df) < 20)%nat ->
  upper (bollinger_bands (results a)) = NaN
  /\ middle (bollinger_bands (results a)) = NaN
  /\ lower (bollinger_bands (results a)) = NaN
  /\ width (bollinger_bands (results a)) = NaN
  /\ bb_signal (bollinger_bands (results a)) = "Neutral"
  /\ bb_interpretation (bollinger_bands (results a))
     = "Price at nan% of band range".
Proof.
  intros H Hs. apply calculate_all_indicators_inv in H as [-> Hn].
  cbn [results analysis_of]. unfold results_of.
  cbn [bollinger_bands upper middle lower width bb_signal bb_interpretation].
  set (close := map Close (rows df)).
  assert (Hc : length close = length (rows df)) by apply length_map.
  set (k := pred (length close)).
  assert (Hu : last (bb_upper 20 2 close) = Some NaN).
  { rewrite last_lookup, bb_upper_length. apply bb_upper_early; lia. }
  assert (Hl : last (bb_lower 20 2 close) = Some NaN).
  { rewrite last_lookup, bb_lower_length. apply bb_lower_early; lia. }
  assert (Hm : last (bb_sma 20 close) = Some NaN).
  { rewrite last_lookup, bb_sma_length. apply bb_sma_early; lia. }
  rewrite Hu, Hl, Hm. cbn [default].
  split; [reflexivity |]. split; [reflexivity |]. split; [reflexivity |].
  split.
  { rewrite (default_last_zip_with nsub _ _ NaN NaN)
      by (rewrite ?bb_upper_length, ?bb_lower_length; lia).
    rewrite Hu, Hl. reflexivity. }
  split; [| reflexivity].
  apply (results_bb_signal_short (rows df)). lia.
Qed.

Lemma bollinger_needs_history_witness :
  bb_interpretation (bollinger_bands (results (analysis_of (rows short_frame))))
  = "Price at nan% of band range".
Proof.
  refine (proj2 (proj2 (proj2 (proj2 (proj2
            (bollinger_needs_history short_frame
               (indicator_frame short_frame) _ _ _)))))).
  - apply calculate_all_indicators_run. simpl. lia.
  - simpl. lia.
Defined.

(** ** The recommendation on a short history *)

Lemma results_trend_short bars :
  (0 < length bars < 20)%nat -> trend (results_of bars) = "Sideways".
Proof.
  intros Hn. unfold results_of. cbn [trend].
  rewrite (rolling_last_short 20) by (rewrite !length_map; lia).
  apply trend_label_nan_20.
Qed.

Lemma volume_trend_short bars :
  (length bars <= 20)%nat -> volume_trend (volume_of bars) = "Decreasing".
Proof.
  intros Hs. unfold volume_of. cbn [volume_trend].
  assert (Hold : slice_neg 40 20 (map Volume bars) = []).
  { unfold slice_neg. rewrite length_map.
    replace (length bars - 20 - (length bars - 40))%nat with 0%nat by lia.
    reflexivity. }
  rewrite Hold. cbn [map].
  assert (Hnan : forall x, (x >? nmean [])%num = false)
    by (intros x; destruct x; reflexivity).
  rewrite Hnan. reflexivity.
Qed.

Lemma results_rsi_signal_short bars :
  (0 < length bars < 14)%nat ->
  rsi_signal (rsi (results_of bars)) = "Neutral".
Proof.
  intros Hn. unfold results_of. cbn [rsi rsi_signal].
  change (map rsi_label (rsi_series 14 (map Close bars)))
    with (rsi_label <$> rsi_series 14 (map Close bars)).
  rewrite fmap_last, rsi_last_short by exact Hn. reflexivity.
Qed.

Lemma results_macd_signal bars :
  (0 < length bars)%nat ->
  macd_signal (macd (results_of bars)) = "Hold"
  \/ macd_signal (macd (results_of bars)) = "Buy"
  \/ macd_signal (macd (results_of bars)) = "Sell".
Proof.
  intros Hn. unfold results_of. cbn [macd macd_signal].
  rewrite last_lookup, cross_labels_length.
  rewrite cross_labels_lookup
    by (rewrite macd_series_length, length_map; lia).
  apply cross_label_cases.
Qed.

(** X7: with fewer than 14 bars the recommendation follows the MACD
    crossover alone.  The RSI and Bollinger signals are "Neutral", the trend
    is "Sideways" and the volume trend is "Decreasing", so the action is
    "Buy" or "Sell" with confidence 24 when the latest bar is a crossover,
    and "Hold" with confidence 50 otherwise. *)
Theorem short_history_recommendation (df df' : DataFrame) (a : Analysis) :
  calculate_all_indicators df = (Ok a, df') ->
  (length (rows df) < 14)%nat ->
  rsi_signal (rsi (results a)) = "Neutral"
  /\ bb_signal (bollinger_bands (results a)) = "Neutral"
  /\ trend (results a) = "Sideways"
  /\ volume_trend (volume (results a)) = "Decreasing"
  /\ ((macd_signal (macd (results a)) = "Buy"
       /\ action (recommendation a) = "Buy"
       /\ confidence (recommendation a) = 24%Z)
      \/ (macd_signal (macd (results a)) = "Sell"
          /\ action (recommendation a) = "Sell"
          /\ confidence (recommendation a) = 24%Z)
      \/ (macd_signal (macd (results a)) = "Hold"
          /\ action (recommendation a) = "Hold"
          /\ confidence (recommendation a) = 50%Z)).
Proof.
  intros H Hs. apply calculate_all_indicators_inv in H as [-> Hn].
  cbn [results recommendation analysis_of].
  pose proof (results_rsi_signal_short (rows df) ltac:(lia)) as Hr.
  pose proof (results_bb_signal_short (rows df) ltac:(lia)) as Hb.
  pose proof (results_trend_short (rows df) ltac:(lia)) as Ht.
  assert (Hv : volume_trend (volume (results_of (rows df))) = "Decreasing")
    by (apply volume_trend_short; lia).
  pose proof (results_macd_signal (rows df) Hn) as Hm.
  set (r := results_of (rows df)) in *.
  repeat (split; [assumption |]).
  unfold _generate_recommendation, count_signals.
  rewrite Hr, Hb, Ht, Hv.
  destruct Hm as [Hm | [Hm | Hm]]; rewrite Hm; vm_compute; tauto.
Qed.

Lemma short_history_recommendation_witness :
  trend (results (analysis_of (rows short_frame))) = "Sideways"
  /\ volume_trend (volume (results (analysis_of (rows short_frame))))
     = "Decreasing".
Proof.
  destruct (short_history_recommendation short_frame
              (indicator_frame short_frame) (analysis_of (rows short_frame)))
    as (_ & _ & Ht & Hv & _).
  - apply calculate_all_indicators_run. simpl. lia.
  - simpl. lia.
  - split; [exact Ht | exact Hv].
Defined.

(** ** The position inside the bands *)

Lemma round_half_even_bounds (q : Q) (lo hi : Z) :
  inject_Z lo <= q -> q <= inject_Z hi ->
  (lo <= round_half_even q <= hi)%Z.
Proof.
  intros Hlo Hhi. unfold round_half_even.
  pose proof (Qfloor_le q) as Hf. pose proof (Qlt_floor q) as Hc.
  assert (H1 : (lo <= Qfloor q)%Z).
  { rewrite <- (Qfloor_Z lo). apply Qfloor_resp_le. exact Hlo. }
  assert (H2 : (Qfloor q <= hi)%Z).
  { rewrite <- (Qfloor_Z hi). apply Qfloor_resp_le. exact Hhi. }
  assert (H3 : 0 < q - inject_Z (Qfloor q) -> (Qfloor q + 1 <= hi)%Z).
  { intros Hpos.
    assert (Hlt : inject_Z (Qfloor q) < inject_Z hi) by lra.
    rewrite <- Zlt_Qlt in Hlt. lia. }
  qcases; try lia.
  - assert (Qfloor q + 1 <= hi)%Z by (apply H3; lra). lia.
  - assert (Qfloor q + 1 <= hi)%Z by (apply H3; lra).
    destruct (Z.even (Qfloor q)); lia.
Qed.

Lemma round_half_even_close (q : Q) :
  Qabs (inject_Z (round_half_even q) - q) <= 1 # 2.
Proof.
  unfold round_half_even.
  pose proof (Qfloor_le q) as Hf. pose proof (Qlt_floor q) as Hc.
  rewrite inject_Z_plus in Hc. change (inject_Z 1) with 1 in Hc.
  apply Qabs_Qle_condition.
  qcases; try destruct (Z.even (Qfloor q));
    rewrite ?inject_Z_plus; change (inject_Z 1) with 1; split; lra.
Qed.



(** ** Confidence, action by action *)

(** X9: the confidence is tied to the action.  "Hold" has confidence 50; a
    plain "Buy" or "Sell" has confidence between 12 and 48, so always below
    that of "Hold", and never reaches its cap of 80; "Strong Buy" has
    between 45 and 95 and "Strong Sell" between 45 and 90. *)
Theorem confidence_by_action (r : Results) :
  let rec := _generate_recommendation r in
  (action rec = "Hold" /\ confidence rec = 50%Z)
  \/ ((action rec = "Buy" \/ action rec = "Sell")
      /\ (12 <= confidence rec <= 48)%Z)
  \/ (action rec = "Strong Buy" /\ (45 <= confidence rec <= 95)%Z)
  \/ (action rec = "Strong Sell" /\ (45 <= confidence rec <= 90)%Z).
Proof.
  cbv zeta. unfold _generate_recommendation, count_signals.
  signal_cases r; vm_compute; intuition congruence.
Qed.

(** ** Bollinger bands, bar by bar *)

Lemma nsum_Fin xs : nsum (map Fin xs) = Fin (Qsum xs).
Proof.
  induction xs as [| x xs IH]; [reflexivity |].
  cbn [map]. unfold nsum in *. cbn [foldr]. rewrite IH. reflexivity.
Qed.

Lemma nmean_Fin xs :
  (0 < length xs)%nat -> nmean (map Fin xs) = Fin (Qmean xs).
Proof.
  intros Hn. unfold nmean, Qmean. rewrite nsum_Fin, length_map.
  unfold of_nat, ndiv.
  assert (E : Qeqb (inject_Z (Z.of_nat (length xs))) 0 = false).
  { apply Qeqb_neq. pose proof (inject_nat_pos (length xs) ltac:(lia)). lra. }
  rewrite E. reflexivity.
Qed.

Lemma Qsqrt_nonneg q : 0 <= Qsqrt q.
Proof.
  unfold Qsqrt, Qle. cbn [Qnum Qden]. rewrite Z.mul_0_l, Z.mul_1_r.
  apply Z.sqrt_nonneg.
Qed.

Lemma Qsum_nonneg xs : Forall (Qle 0) xs -> 0 <= Qsum xs.
Proof.
  intros H. pose proof (Qsum_lower 0 xs H) as Hs. lra.
Qed.

Lemma nstd_Fin xs :
  (2 <= length xs)%nat -> exists sd, nstd (map Fin xs) = Fin sd /\ 0 <= sd.
Proof.
  intros Hn. unfold nstd. rewrite nmean_Fin by lia.
  rewrite map_map.
  set (mu := Qmean xs).
  assert (Hsq : map (fun x => (Fin x - Fin mu) * (Fin x - Fin mu))%num xs
                = map Fin (map (fun x => (x - mu) * (x - mu)) xs)).
  { rewrite map_map. apply map_ext. intros x. reflexivity. }
  rewrite Hsq, nsum_Fin, length_map.
  set (ss := Qsum (map (fun x => (x - mu) * (x - mu)) xs)).
  assert (Hss : 0 <= ss).
  { apply Qsum_nonneg. apply Forall_forall. intros y Hy.
    apply list_elem_of_fmap in Hy as (x & -> & _).
    generalize (x - mu). intros t. nra. }
  set (d := inject_Z (Z.of_nat (length xs) - 1)).
  assert (Hd : 0 < d).
  { subst d. change 0 with (inject_Z 0). rewrite <- Zlt_Qlt. lia. }
  unfold of_Z, ndiv. fold d.
  assert (E : Qeqb d 0 = false) by (apply Qeqb_neq; lra).
  rewrite E. unfold nsqrt.
  assert (Hq : 0 <= ss / d) by (apply Qle_shift_div_l; [exact Hd | lra]).
  assert (E' : Qltb (ss / d) 0 = false) by (apply Qltb_nlt; exact Hq).
  rewrite E'. eexists. split; [reflexivity | apply Qsqrt_nonneg].
Qed.

Lemma window_Fin w k (close : list Q) :
  take w (drop k (map Fin close)) = map Fin (take w (drop k close)).
Proof.
  change (map Fin close) with (Fin <$> close).
  rewrite <- fmap_drop, <- fmap_take. reflexivity.
Qed.

(** X10: the Bollinger bands are ordered.  For a window of at least two
    bars and a non-negative multiplier, the three bands are NaN on the bars
    before the first full window; from then on they are finite, the middle
    band is the mean of the last [period] closes, and
    [lower <= middle <= upper], so the width written to 'BB_Width' is
    finite and not negative. *)
Theorem bollinger_bands_ordered
  (period : nat) (std_dev : Z) (df df' : DataFrame)
  (upper_band sma lower_band : list num) (i : nat) :
  (2 <= period)%nat -> (0 <= std_dev)%Z ->
  calculate_bollinger_bands period std_dev df
  = (Ok (upper_band, sma, lower_band), df') ->
  (i < length (rows df))%nat ->
  ((S i < period)%nat ->
   upper_band !! i = Some NaN /\ sma !! i = Some NaN
   /\ lower_band !! i = Some NaN)
  /\ ((period <= S i)%nat ->
      exists u m l widths,
        upper_band !! i = Some (Fin u) /\ sma !! i = Some (Fin m)
        /\ lower_band !! i = Some (Fin l)
        /\ m = Qmean (take period (drop (S i - period) (map Close (rows df))))
        /\ l <= m /\ m <= u
        /\ cols df' !! "BB_Width" = Some (NumCol widths)
        /\ widths !! i = Some (Fin (u - l)) /\ 0 <= u - l).
Proof.
  intros Hp Hsd H Hi.
  rewrite calculate_bollinger_bands_run in H. injection H as <- <- <- <-.
  set (close := map Close (rows df)).
  assert (Hc : length close = length (rows df)) by apply length_map.
  split.
  - intros Hs. split; [apply bb_upper_early; lia |].
    split; [apply bb_sma_early; lia | apply bb_lower_early; lia].
  - intros Hs.
    set (win := take period (drop (S i - period) close)).
    assert (Hw : length win = period) by (apply window_length; lia).
    assert (Hm : bb_sma period close !! i = Some (Fin (Qmean win))).
    { unfold bb_sma. rewrite rolling_lookup by (rewrite length_map; lia).
      destruct (Nat.ltb_spec (S i) period); [lia |].
      rewrite window_Fin. fold win. rewrite nmean_Fin by lia. reflexivity. }
    destruct (nstd_Fin win ltac:(lia)) as (sd & Hsd_eq & Hsd0).
    assert (Hstd : bb_std period close !! i = Some (Fin sd)).
    { unfold bb_std. rewrite rolling_lookup by (rewrite length_map; lia).
      destruct (Nat.ltb_spec (S i) period); [lia |].
      rewrite window_Fin. fold win. rewrite Hsd_eq. reflexivity. }
    set (k := inject_Z std_dev).
    assert (Hk : 0 <= k * sd).
    { apply Qmult_le_0_compat; [| exact Hsd0].
      subst k. change 0 with (inject_Z 0). rewrite <- Zle_Qle. exact Hsd. }
    assert (Hu : bb_upper period std_dev close !! i
                 = Some (Fin (Qmean win + k * sd))).
    { unfold bb_upper. rewrite lookup_zip_with, Hm, Hstd. reflexivity. }
    assert (Hl : bb_lower period std_dev close !! i
                 = Some (Fin (Qmean win - k * sd))).
    { unfold bb_lower. rewrite lookup_zip_with, Hm, Hstd. reflexivity. }
    exists (Qmean win + k * sd), (Qmean win), (Qmean win - k * sd).
    eexists.
    split; [exact Hu |]. split; [exact Hm |]. split; [exact Hl |].
    split; [reflexivity |]. split; [lra |]. split; [lra |].
    split; [unfold bb_frame; cbn [cols];
            rewrite lookup_insert_ne by discriminate;
            apply lookup_insert_eq |].
    split; [rewrite lookup_zip_with; fold close; rewrite Hu, Hl; reflexivity |].
    lra.
Qed.

Lemma bollinger_bands_ordered_witness :
  bb_upper 2 2 (map Close (rows short_frame)) !! 0%nat = Some NaN
  /\ bb_sma 2 (map Close (rows short_frame)) !! 0%nat = Some NaN
  /\ bb_lower 2 2 (map Close (rows short_frame)) !! 0%nat = Some NaN.
Proof.
  refine (proj1 (bollinger_bands_ordered 2 2 short_frame _ _ _ _ 0%nat
                   _ _ (calculate_bollinger_bands_run 2 2 short_frame) _) _).
  - lia.
  - lia.
  - simpl. lia.
  - lia.
Defined.

(** ** On-Balance Volume, bar by bar *)

Lemma obv_step_next close volume obv i :
  obv_step close volume obv i
  = obv ++ [obv_next close volume (default 0%Z (last obv)) i].
Proof.
  unfold obv_step, obv_next.
  repeat match goal with |- context [if ?b then _ else _] => destruct b end;
    reflexivity.
Qed.

Lemma obv_fold_spec close volume k : forall a obv,
  length obv = a -> (1 <= a)%nat ->
  (exists rest, fold_left (obv_step close volume) (seq a k) obv = obv ++ rest)
  /\ forall i, (a <= i < a + k)%nat ->
       fold_left (obv_step close volume) (seq a k) obv !! i
       = Some (obv_next close volume
                 (nth (i - 1)
                    (fold_left (obv_step close volume) (seq a k) obv) 0%Z) i).
Proof.
  induction k as [| k IH]; intros a obv Hlen Ha.
  - split; [exists []; cbn; rewrite app_nil_r; reflexivity | intros i Hi; lia].
  - cbn [seq fold_left].
    set (obv1 := obv_step close volume obv a).
    assert (Hlen1 : length obv1 = S a)
      by (subst obv1; rewrite obv_step_length; lia).
    destruct (IH (S a) obv1 Hlen1 ltac:(lia)) as [[rest Hrest] Hall].
    assert (Hobv1 : obv1 = obv ++ [obv_next close volume
                                     (default 0%Z (last obv)) a])
      by apply obv_step_next.
    split.
    + eexists. rewrite Hrest, Hobv1, <- app_assoc. reflexivity.
    + intros i Hi. destruct (Nat.eq_dec i a) as [-> | Hne].
      * rewrite Hrest. rewrite lookup_app_l by lia.
        rewrite Hobv1 at 1. rewrite lookup_app_r by lia.
        rewrite Hlen, Nat.sub_diag. cbn [lookup list_lookup].
        f_equal. f_equal.
        rewrite Hobv1, <- app_assoc.
        rewrite app_nth1 by lia.
        rewrite default_last_nth, Hlen. f_equal. lia.
      * apply Hall. lia.
Qed.

Lemma obv_series_head close volume :
  obv_series close volume !! 0%nat = Some 0%Z.
Proof.
  unfold obv_series, range.
  destruct (obv_fold_spec close volume (length close - 1) 1 [0%Z]
              eq_refl ltac:(lia)) as [[rest ->] _].
  reflexivity.
Qed.

Lemma obv_series_step close volume i :
  (1 <= i < length close)%nat ->
  obv_series close volume !! i
  = Some (obv_next close volume (nth (i - 1) (obv_series close volume) 0%Z) i).
Proof.
  intros Hi. unfold obv_series, range.
  destruct (obv_fold_spec close volume (length close - 1) 1 [0%Z]
              eq_refl ltac:(lia)) as [_ Hall].
  apply Hall. lia.
Qed.

(** X11: On-Balance Volume accumulates the volume by the direction of the
    close.  On a frame with at least one bar, the column 'OBV' has one
    entry per bar and starts at 0; each later entry is the one before plus
    the bar's volume when the close rose, minus the volume when it fell,
    and unchanged when the close is the same (sums and differences in
    64-bit arithmetic).  The value reported as 'obv' is the last entry. *)
Theorem obv_accumulates (df df' : DataFrame) (v : VolumeResult) :
  rows df <> [] ->
  analyze_volume df = (Ok v, df') ->
  exists obv_col,
    cols df' !! "OBV" = Some (IntCol obv_col)
    /\ length obv_col = length (rows df)
    /\ obv_col !! 0%nat = Some 0%Z
    /\ last obv_col = Some (obv v)
    /\ forall i b b' o o',
         rows df !! i = Some b -> rows df !! S i = Some b' ->
         obv_col !! i = Some o -> obv_col !! S i = Some o' ->
         (Close b < Close b' -> o' = wrap64 (o + Volume b'))
         /\ (Close b' < Close b -> o' = wrap64 (o - Volume b'))
         /\ (Close b' == Close b -> o' = o).
Proof.
  intros _ H. apply analyze_volume_inv in H as (-> & -> & Hn).
  set (close := map Close (rows df)).
  set (volume := map Volume (rows df)).
  assert (Hc : length close = length (rows df)) by apply length_map.
  exists (obv_series close volume).
  split; [unfold volume_frame; cbn [cols]; apply lookup_insert_eq |].
  split; [rewrite obv_series_length; lia |].
  split; [apply obv_series_head |].
  split.
  { unfold volume_of. cbn [obv]. fold close volume.
    apply last_default. rewrite obv_series_length; lia. }
  intros i b b' o o' Hb Hb' Ho Ho'.
  assert (Hi : (S i < length (rows df))%nat)
    by (apply lookup_lt_Some in Hb'; exact Hb').
  pose proof (obv_series_step close volume (S i) ltac:(lia)) as Hall.
  rewrite Ho' in Hall. injection Hall as ->.
  unfold obv_next. cbn [Nat.sub]. rewrite !Nat.sub_0_r.
  rewrite (nth_lookup_Some _ _ 0%Z _ Ho).
  assert (E1 : nth i close 0 = Close b).
  { apply nth_lookup_Some. subst close.
    change (map Close (rows df)) with (Close <$> rows df).
    rewrite list_lookup_fmap, Hb. reflexivity. }
  assert (E2 : nth (S i) close 0 = Close b').
  { apply nth_lookup_Some. subst close.
    change (map Close (rows df)) with (Close <$> rows df).
    rewrite list_lookup_fmap, Hb'. reflexivity. }
  assert (E3 : nth (S i) volume 0%Z = Volume b').
  { apply nth_lookup_Some. subst volume.
    change (map Volume (rows df)) with (Volume <$> rows df).
    rewrite list_lookup_fmap, Hb'. reflexivity. }
  rewrite E1, E2, E3.
  qcases; repeat split; intros; try reflexivity; lra.
Qed.

Lemma obv_accumulates_witness :
  exists obv_col,
    cols (volume_frame short_frame) !! "OBV" = Some (IntCol obv_col)
    /\ length obv_col = length (rows short_frame)
    /\ obv_col !! 0%nat = Some 0%Z.
Proof.
  destruct (obv_accumulates short_frame (volume_frame short_frame)
              (volume_of (rows short_frame)))
    as (o & H1 & H2 & H3 & _).
  - discriminate.
  - apply analyze_volume_run. simpl. lia.
  - exists o. split; [exact H1 |]. split; [exact H2 | exact H3].
Defined.

(** ** Moving averages stay inside the range of their input *)

Lemma ewm_from_bounds (a lo hi : Q) (xs : list Q) : forall prev,
  0 <= a <= 1 -> lo <= prev <= hi ->
  Forall (fun x => lo <= x <= hi) xs ->
  Forall (fun y => lo <= y <= hi) (ewm_from a prev xs).
Proof.
  induction xs as [| x xs IH]; intros prev Ha Hp Hxs; [constructor |].
  apply Forall_cons in Hxs as [Hx Hxs]. cbn [ewm_from].
  assert (Hy : lo <= (1 - a) * prev + a * x <= hi) by (split; nra).
  constructor; [exact Hy |]. apply IH; assumption.
Qed.

Lemma ewm_mean_bounds (span : Z) (lo hi : Q) (xs : list Q) :
  (1 <= span)%Z ->
  Forall (fun x => lo <= x <= hi) xs ->
  Forall (fun y => lo <= y <= hi) (ewm_mean span xs).
Proof.
  intros Hs Hxs. destruct xs as [| x xs]; [constructor |].
  apply Forall_cons in Hxs as [Hx Hxs]. unfold ewm_mean.
  constructor; [exact Hx |].
  pose proof (alpha_range span Hs) as [Ha0 Ha1].
  apply ewm_from_bounds; try assumption. lra.
Qed.

Lemma Forall_zip_with_Qminus (P Q1 : Q -> Prop) (R : Q -> Prop) xs ys :
  (forall x y, P x -> Q1 y -> R (x - y)) ->
  Forall P xs -> Forall Q1 ys -> Forall R (zip_with Qminus xs ys).
Proof.
  intros HR Hx. revert ys.
  induction Hx as [| x xs Hx _ IH]; intros ys Hy; [constructor |].
  destruct Hy as [| y ys Hy Hys]; [constructor |].
  cbn [zip_with]. constructor; [apply HR; assumption | apply IH; exact Hys].
Qed.

Lemma Qabs_bound (x b : Q) : - b <= x <= b -> Qabs x <= b.
Proof. intros H. apply Qabs_Qle_condition. exact H. Qed.

Lemma macd_series_bounds fast slow lo hi close :
  (1 <= fast)%Z -> (1 <= slow)%Z ->
  Forall (fun x => lo <= x <= hi) close ->
  Forall (fun m => - (hi - lo) <= m <= hi - lo) (macd_series fast slow close).
Proof.
  intros Hf Hs Hc. unfold macd_series.
  apply (Forall_zip_with_Qminus (fun x => lo <= x <= hi)
           (fun x => lo <= x <= hi)).
  - intros x y Hx Hy. lra.
  - apply ewm_mean_bounds; assumption.
  - apply ewm_mean_bounds; assumption.
Qed.

Lemma signal_series_bounds fast slow signal lo hi close :
  (1 <= fast)%Z -> (1 <= slow)%Z -> (1 <= signal)%Z ->
  Forall (fun x => lo <= x <= hi) close ->
  Forall (fun m => - (hi - lo) <= m <= hi - lo)
    (signal_series fast slow signal close).
Proof.
  intros Hf Hs Hg Hc. unfold signal_series.
  apply ewm_mean_bounds; [exact Hg |].
  apply macd_series_bounds; assumption.
Qed.



Lemma Forall_nth_default (P : Q -> Prop) (xs : list Q) (i : nat) :
  P 0 -> Forall P xs -> P (nth i xs 0).
Proof.
  intros H0 H. revert i. induction H as [| x xs Hx _ IH]; intros [| i];
    cbn [nth]; auto.
Qed.

(** X13: constant closes give no MACD signal.  When every close equals
    [c] (and the spans are at least 1) the MACD line, the signal line and
    the histogram are zero on every bar and every label of 'MACD_Cross' is
    "Hold". *)
Theorem flat_closes_give_no_cross
  (fast slow signal : Z) (df df' : DataFrame) (macd sig hist : list Q)
  (c : Q) :
  (1 <= fast)%Z -> (1 <= slow)%Z -> (1 <= signal)%Z ->
  calculate_macd fast slow signal df = (Ok (macd, sig, hist), df') ->
  Forall (fun b => Close b == c) (rows df) ->
  Forall (fun m => m == 0) macd
  /\ Forall (fun s => s == 0) sig
  /\ Forall (fun h => h == 0) hist
  /\ exists labels,
       cols df' !! "MACD_Cross" = Some (StrCol labels)
       /\ length labels = length (rows df)
       /\ Forall (fun l => l = "Hold") labels.
Proof.
  intros Hf Hs Hg H Hrows.
  rewrite calculate_macd_run in H. injection H as <- <- <- <-.
  assert (Hc : Forall (fun x => c <= x <= c) (map Close (rows df))).
  { apply Forall_forall. intros x Hx.
    apply list_elem_of_fmap in Hx as (b & -> & Hb).
    rewrite Forall_forall in Hrows. specialize (Hrows b Hb). lra. }
  set (close := map Close (rows df)) in *.
  pose proof (macd_series_bounds fast slow c c _ Hf Hs Hc) as Hm.
  pose proof (signal_series_bounds fast slow signal c c _ Hf Hs Hg Hc) as Hsig.
  assert (Hm0 : Forall (fun m => m == 0) (macd_series fast slow close)).
  { eapply Forall_impl; [exact Hm |]. intros m Hb. cbv beta in Hb. lra. }
  assert (Hs0 : Forall (fun m => m == 0) (signal_series fast slow signal close)).
  { eapply Forall_impl; [exact Hsig |]. intros m Hb. cbv beta in Hb. lra. }
  split; [exact Hm0 |]. split; [exact Hs0 |]. split.
  { unfold histogram_series.
    refine (Forall_zip_with_Qminus _ _ _ _ _ _ Hm0 Hs0).
    intros x y Hx Hy. cbv beta in *. lra. }
  exists (cross_labels (macd_series fast slow close)
            (signal_series fast slow signal close)).
  split; [unfold macd_frame; cbn [cols]; apply lookup_insert_eq |].
  split; [rewrite cross_labels_length, macd_series_length; apply length_map |].
  apply Forall_forall. intros l Hl.
  apply list_elem_of_lookup in Hl as [i Hi].
  assert (Hlt : (i < length (macd_series fast slow close))%nat).
  { apply lookup_lt_Some in Hi. rewrite cross_labels_length in Hi. exact Hi. }
  rewrite cross_labels_lookup in Hi by exact Hlt. injection Hi as <-.
  unfold cross_label.
  pose proof (Forall_nth_default (fun m => m == 0) _ i ltac:(reflexivity) Hm0).
  pose proof (Forall_nth_default (fun m => m == 0) _ i ltac:(reflexivity) Hs0).
  cbv beta in *.
  destruct (i =? 0)%nat; [reflexivity |].
  assert (E1 : Qltb (nth i (signal_series fast slow signal close) 0)
                 (nth i (macd_series fast slow close) 0) = false)
    by (apply Qltb_nlt; lra).
  assert (E2 : Qltb (nth i (macd_series fast slow close) 0)
                 (nth i (signal_series fast slow signal close) 0) = false)
    by (apply Qltb_nlt; lra).
  rewrite E1, E2. reflexivity.
Qed.

Lemma flat_closes_give_no_cross_witness :
  exists labels,
    cols (macd_frame 12 26 9 flat_frame) !! "MACD_Cross"
    = Some (StrCol labels)
    /\ length labels = length (rows flat_frame)
    /\ Forall (fun l => l = "Hold") labels.
Proof.
  refine (proj2 (proj2 (proj2
            (flat_closes_give_no_cross 12 26 9 flat_frame _ _ _ _ 100
               _ _ _ (calculate_macd_run 12 26 9 flat_frame) _)))).
  - lia.
  - lia.
  - lia.
  - repeat constructor.
Defined.

(** ** RSI at its extremes *)

Lemma diff_lookup close j :
  (j < length close)%nat ->
  diff close !! j
  = Some (match j with
          | O => NaN
          | S k => Fin (nth j close 0 - nth k close 0)
          end).
Proof.
  intros Hj. destruct close as [| x xs]; [simpl in Hj; lia |].
  unfold diff. destruct j as [| k]; [reflexivity |].
  cbn [lookup list_lookup]. change (zip_with ?f (x :: xs) xs !! k)
    with (list_lookup k (zip_with f (x :: xs) xs)).
  cbn [length] in Hj.
  pose proof (lookup_zip_with (fun prev cur => Fin (cur - prev)) (x :: xs) xs k)
    as Hz. unfold lookup in Hz. rewrite Hz.
  fold (@lookup nat Q (list Q) _ k (x :: xs)).
  fold (@lookup nat Q (list Q) _ k xs).
  rewrite (lookup_nth (x :: xs) k 0) by (simpl; lia).
  rewrite (lookup_nth xs k 0) by lia.
  reflexivity.
Qed.

Lemma gain_raw_lookup close j :
  (j < length close)%nat ->
  exists g,
    where_ (fun d => d >? Fin 0)%num (Fin 0) (diff close) !! j = Some (Fin g)
    /\ 0 <= g /\ (0 < g <-> rose close j).
Proof.
  intros Hj. unfold where_.
  change (map ?f (diff close)) with (f <$> diff close).
  rewrite list_lookup_fmap, diff_lookup by exact Hj. cbn [fmap option_fmap option_map].
  unfold rose. destruct j as [| k].
  - exists 0. cbn. split; [reflexivity |]. split; [lra |].
    split; [lra | intros [? _]; lia].
  - replace (S k - 1)%nat with k by lia. unfold ngt, nlt.
    destruct (Qltb 0 (nth (S k) close 0 - nth k close 0)) eqn:E.
    + apply Qltb_lt in E. eexists. split; [reflexivity |].
      split; [lra |]. split; [intros _; split; [lia | lra] | intros _; exact E].
    + apply Qltb_nlt in E. exists 0. split; [reflexivity |].
      split; [lra |]. split; [lra | intros [_ ?]; lra].
Qed.

Lemma loss_raw_lookup close j :
  (j < length close)%nat ->
  exists l,
    map nneg (where_ (fun d => d <? Fin 0)%num (Fin 0) (diff close)) !! j
    = Some (Fin l)
    /\ 0 <= l /\ (0 < l <-> fell close j).
Proof.
  intros Hj. unfold where_.
  change (map nneg (map ?f (diff close))) with (nneg <$> (f <$> diff close)).
  rewrite !list_lookup_fmap, diff_lookup by exact Hj.
  cbn [fmap option_fmap option_map].
  unfold fell. destruct j as [| k].
  - exists (- 0). cbn. split; [reflexivity |]. split; [lra |].
    split; [lra | intros [? _]; lia].
  - replace (S k - 1)%nat with k by lia. unfold nlt.
    destruct (Qltb (nth (S k) close 0 - nth k close 0) 0) eqn:E.
    + apply Qltb_lt in E. eexists. split; [reflexivity |].
      split; [lra |]. split; [intros _; split; [lia | lra] | intros _; lra].
    + apply Qltb_nlt in E. exists (- 0). split; [reflexivity |].
      split; [lra |]. split; [lra | intros [_ ?]; lra].
Qed.

Lemma nsum_zero xs :
  Forall fin_zero xs -> exists s, nsum xs = Fin s /\ s == 0.
Proof.
  induction 1 as [| x xs Hx _ (s & Hs & Hs0)].
  - exists 0. split; reflexivity.
  - destruct x as [| | q |]; try contradiction. cbn in Hx.
    exists (q + s). unfold nsum in *. cbn [foldr]. rewrite Hs.
    split; [reflexivity | lra].
Qed.

Lemma nsum_pos xs :
  Forall fin_nonneg xs -> Exists fin_pos xs ->
  exists s, nsum xs = Fin s /\ 0 < s.
Proof.
  intros Hall Hex. induction Hall as [| x xs Hx Hall IH].
  - inversion Hex.
  - destruct x as [| | q |]; try contradiction. cbn in Hx.
    destruct (nsum_nonneg xs Hall) as (s & Hs & Hs0).
    unfold nsum in *. cbn [foldr]. rewrite Hs.
    exists (q + s). split; [reflexivity |].
    apply Exists_cons in Hex as [Hq | Hex].
    + cbn in Hq. lra.
    + destruct (IH Hex) as (s' & Hs' & Hpos). rewrite Hs in Hs'.
      injection Hs' as <-. lra.
Qed.

Lemma nmean_of_sum xs s :
  (1 <= length xs)%nat -> nsum xs = Fin s ->
  nmean xs = Fin (s / inject_Z (Z.of_nat (length xs))).
Proof.
  intros Hn Hs. unfold nmean, of_nat, ndiv. rewrite Hs.
  assert (E : Qeqb (inject_Z (Z.of_nat (length xs))) 0 = false).
  { apply Qeqb_neq. pose proof (inject_nat_pos (length xs) Hn). lra. }
  rewrite E. reflexivity.
Qed.

Lemma nmean_zero xs :
  (1 <= length xs)%nat -> Forall fin_zero xs ->
  exists m, nmean xs = Fin m /\ m == 0.
Proof.
  intros Hn Hall. destruct (nsum_zero xs Hall) as (s & Hs & Hs0).
  eexists. split; [apply nmean_of_sum; eassumption |].
  pose proof (inject_nat_pos (length xs) Hn) as Hpos.
  rewrite Hs0. field. lra.
Qed.

Lemma nmean_pos xs :
  Forall fin_nonneg xs -> Exists fin_pos xs ->
  exists m, nmean xs = Fin m /\ 0 < m.
Proof.
  intros Hall Hex.
  assert (Hn : (1 <= length xs)%nat).
  { destruct Hex; simpl; lia. }
  destruct (nsum_pos xs Hall Hex) as (s & Hs & Hs0).
  eexists. split; [apply nmean_of_sum; eassumption |].
  pose proof (inject_nat_pos (length xs) Hn) as Hpos.
  apply Qlt_shift_div_l; [exact Hpos | lra].
Qed.

Lemma window_lookup {A} (w k t : nat) (xs : list A) :
  (t < w)%nat -> take w (drop k xs) !! t = xs !! (k + t)%nat.
Proof.
  intros Ht. rewrite lookup_take_lt by exact Ht. apply lookup_drop.
Qed.

Lemma window_Forall {A} (P : A -> Prop) (w i : nat) (xs : list A) :
  (w <= S i)%nat ->
  (forall j x, (S i - w <= j <= i)%nat -> xs !! j = Some x -> P x) ->
  Forall P (take w (drop (S i - w) xs)).
Proof.
  intros Hw H. apply Forall_lookup. intros t x Ht.
  assert (Htw : (t < w)%nat).
  { apply lookup_lt_Some in Ht. rewrite length_take in Ht. lia. }
  rewrite window_lookup in Ht by exact Htw.
  apply (H (S i - w + t)%nat x); [lia | exact Ht].
Qed.

Lemma window_Exists {A} (P : A -> Prop) (w i j : nat) (xs : list A) x :
  (w <= S i)%nat -> (S i - w <= j <= i)%nat -> xs !! j = Some x -> P x ->
  Exists P (take w (drop (S i - w) xs)).
Proof.
  intros Hw Hj Hx HP. apply Exists_exists. exists x. split; [| exact HP].
  apply list_elem_of_lookup. exists (j - (S i - w))%nat.
  rewrite window_lookup by lia.
  replace (S i - w + (j - (S i - w)))%nat with j by lia. exact Hx.
Qed.

Lemma rsi_of_no_loss (g l : Q) :
  0 < g -> l == 0 -> exists q, rsi_of (Fin g) (Fin l) = Fin q /\ q == 100.
Proof.
  intros Hg Hl.
  destruct (rsi_of_cases g l ltac:(lra) ltac:(lra))
    as [(Hg0 & _) | (_ & q & Hq & _ & H100)]; [lra |].
  exists q. split; [exact Hq | apply H100; exact Hl].
Qed.

Lemma rsi_of_no_gain (g l : Q) :
  g == 0 -> 0 < l -> exists q, rsi_of (Fin g) (Fin l) = Fin q /\ q == 0.
Proof.
  intros Hg Hl. unfold rsi_of.
  destruct (rs_cases g l ltac:(lra) ltac:(lra))
    as [(_ & Hl0 & _) | [(_ & Hl0 & _) | (_ & Hrs)]]; try lra.
  rewrite Hrs. unfold nadd at 1.
  assert (Hz : g / l == 0) by (rewrite Hg; field; lra).
  unfold ndiv.
  assert (E : Qeqb (1 + g / l) 0 = false) by (apply Qeqb_neq; lra).
  rewrite E. eexists. split; [reflexivity |].
  rewrite Hz. field.
Qed.

Lemma rsi_label_100 q : q == 100 -> rsi_label (Fin q) = "Overbought".
Proof.
  intros Hq. unfold rsi_label, ngt, nlt.
  assert (E1 : Qltb q 30 = false) by (apply Qltb_nlt; lra).
  assert (E2 : Qltb 70 q = true) by (apply Qltb_lt; lra).
  rewrite E1, E2. reflexivity.
Qed.

Lemma rsi_label_0 q : q == 0 -> rsi_label (Fin q) = "Oversold".
Proof.
  intros Hq. unfold rsi_label, nlt.
  assert (E1 : Qltb q 30 = true) by (apply Qltb_lt; lra).
  rewrite E1. reflexivity.
Qed.



(** ** Candlestick patterns: shape of the result *)

Lemma candle_events_table prev cur :
  Forall (fun e =>
            date e = Date cur
            /\ In (pattern e, type e, description e)
                 [("Doji", "Neutral", "Indecision in the market");
                  ("Hammer", "Bullish", "Potential bullish reversal");
                  ("Shooting Star", "Bearish", "Potential bearish reversal");
                  ("Bullish Engulfing", "Bullish",
                   "Strong bullish reversal signal");
                  ("Bearish Engulfing", "Bearish",
                   "Strong bearish reversal signal")])
    (candle_events prev cur).
Proof.
  unfold candle_events.
  repeat match goal with |- context [if ?b then _ else _] => destruct b end;
    cbn [app];
    repeat (apply Forall_cons; split;
            [split; [reflexivity
                    | cbn [pattern type description In]; auto 10] |]);
    apply Forall_nil; exact I.
Qed.

Lemma all_events_short bars : (length bars < 3)%nat -> all_events bars = [].
Proof.
  intros Hn. unfold all_events, range.
  replace (length bars - 2)%nat with 0%nat by lia. reflexivity.
Qed.

Lemma all_events_source bars e :
  In e (all_events bars) ->
  exists i, (2 <= i < length bars)%nat /\ In e (events_at bars i).
Proof.
  unfold all_events. intros H. apply in_flat_map in H as (i & Hi & He).
  exists i. split; [| exact He].
  unfold range in Hi. apply in_seq in Hi. lia.
Qed.

(** X15: the shape of the candlestick report.  The method leaves the frame
    as it is and returns at most ten events, none at all for fewer than
    three bars.  Every event is one of the five rows of the pattern table
    (name, type, description) and carries the date of a bar that has two
    bars before it. *)
Theorem candlestick_report_shape (df df' : DataFrame) (out : list Pattern) :
  detect_candlestick_patterns df = (Ok out, df') ->
  df' = df
  /\ (length out <= 10)%nat
  /\ ((length (rows df) < 3)%nat -> out = [])
  /\ Forall (fun e =>
               In (pattern e, type e, description e)
                 [("Doji", "Neutral", "Indecision in the market");
                  ("Hammer", "Bullish", "Potential bullish reversal");
                  ("Shooting Star", "Bearish", "Potential bearish reversal");
                  ("Bullish Engulfing", "Bullish",
                   "Strong bullish reversal signal");
                  ("Bearish Engulfing", "Bearish",
                   "Strong bearish reversal signal")]
               /\ exists i b, (2 <= i)%nat /\ rows df !! i = Some b
                              /\ date e = Date b) out.
Proof.
  intros H. rewrite detect_candlestick_patterns_run in H.
  injection H as <- <-.
  split; [reflexivity |].
  split; [rewrite last_n_length; lia |].
  split; [intros Hn; rewrite all_events_short by exact Hn; reflexivity |].
  apply Forall_forall. intros e He.
  apply list_elem_of_In, last_n_incl, all_events_source in He
    as (i & Hi & He).
  unfold events_at in He.
  pose proof (candle_events_table (nth (i - 1) (rows df) bar0)
                (nth i (rows df) bar0)) as Htab.
  rewrite Forall_forall in Htab.
  destruct (Htab e (proj2 (list_elem_of_In _ _) He)) as [Hd Hrow].
  split; [exact Hrow |].
  exists i, (nth i (rows df) bar0).
  split; [lia |]. split; [apply lookup_nth; lia | exact Hd].
Qed.

Lemma candlestick_report_shape_witness :
  (length (last_n 10 (all_events (rows short_frame))) <= 10)%nat.
Proof.
  refine (proj1 (proj2 (candlestick_report_shape short_frame short_frame
                          _ (detect_candlestick_patterns_run short_frame)))).
Defined.

(** X16: a bar is never bullish and bearish at once.  Every "Bullish"
    event recorded for a bar (Hammer, Bullish Engulfing) has the bar close
    above its open, every "Bearish" event (Shooting Star, Bearish Engulfing)
    has it close below; so no bar carries events of both types, and a
    "Neutral" event is always a Doji. *)
Theorem candle_direction_exclusive (prev cur : Bar) :
  Forall (fun e =>
            (type e = "Bullish" -> Open cur < Close cur)
            /\ (type e = "Bearish" -> Close cur < Open cur)
            /\ (type e = "Neutral" -> pattern e = "Doji"))
    (candle_events prev cur)
  /\ ~ (exists e1 e2,
          In e1 (candle_events prev cur) /\ In e2 (candle_events prev cur)
          /\ type e1 = "Bullish" /\ type e2 = "Bearish").
Proof.
  assert (Hall : Forall (fun e =>
            (type e = "Bullish" -> Open cur < Close cur)
            /\ (type e = "Bearish" -> Close cur < Open cur)
            /\ (type e = "Neutral" -> pattern e = "Doji"))
    (candle_events prev cur)).
  { unfold candle_events.
    destruct (Qltb (Open cur) (Close cur)) eqn:E1;
      destruct (Qltb (Close cur) (Open cur)) eqn:E2;
      rewrite ?andb_false_r, ?andb_false_l; cbn [andb];
      try apply Qltb_lt in E1; try apply Qltb_lt in E2;
      repeat match goal with
        | |- context [if ?b then _ else _] => destruct b
        end;
      cbn [app];
      repeat (apply Forall_cons; split;
              [cbn [type pattern]; repeat split; intros;
               try discriminate; try assumption; try reflexivity |]);
      apply Forall_nil; exact I. }
  split; [exact Hall |].
  intros (e1 & e2 & H1 & H2 & T1 & T2).
  rewrite Forall_forall in Hall.
  destruct (Hall e1 (proj2 (list_elem_of_In _ _) H1)) as (B1 & _ & _).
  destruct (Hall e2 (proj2 (list_elem_of_In _ _) H2)) as (_ & B2 & _).
  specialize (B1 T1). specialize (B2 T2). lra.
Qed.

(** ** Candlestick patterns come in date order *)

Lemma nondecreasing_head z zs :
  nondecreasing (z :: zs) -> Forall (Z.le z) zs.
Proof.
  revert z. induction zs as [| y zs IH]; intros z H; [constructor |].
  destruct H as [Hzy Hrest]. constructor; [exact Hzy |].
  eapply Forall_impl; [apply IH; exact Hrest |].
  intros w Hw. cbv beta in *. lia.
Qed.

Lemma nondecreasing_tail z zs : nondecreasing (z :: zs) -> nondecreasing zs.
Proof. destruct zs as [| y zs]; [intros _; exact I | intros [_ H]; exact H]. Qed.

Lemma nondecreasing_cons z zs :
  Forall (Z.le z) zs -> nondecreasing zs -> nondecreasing (z :: zs).
Proof.
  intros Hall Hs. destruct zs as [| y zs]; [exact I |].
  apply Forall_cons in Hall as [Hy _]. split; assumption.
Qed.

Lemma nondecreasing_lookup zs : forall i j a b,
  nondecreasing zs -> (i <= j)%nat ->
  zs !! i = Some a -> zs !! j = Some b -> (a <= b)%Z.
Proof.
  induction zs as [| z zs IH]; intros i j a b Hs Hij Ha Hb;
    [discriminate |].
  destruct i as [| i], j as [| j]; try lia.
  - cbn in Ha, Hb. injection Ha as <-. injection Hb as <-. lia.
  - cbn in Ha. injection Ha as <-.
    pose proof (nondecreasing_head _ _ Hs) as Hall.
    rewrite Forall_forall in Hall. apply Hall.
    apply list_elem_of_lookup. exists j. exact Hb.
  - apply (IH i j); try assumption; [eapply nondecreasing_tail; eassumption | lia].
Qed.

Lemma nondecreasing_drop k : forall zs,
  nondecreasing zs -> nondecreasing (drop k zs).
Proof.
  induction k as [| k IH]; intros zs Hs; [exact Hs |].
  destruct zs as [| z zs]; [exact I |].
  cbn [drop]. apply IH. eapply nondecreasing_tail. exact Hs.
Qed.

Lemma nondecreasing_app_const (d : Z) xs ys :
  Forall (eq d) xs -> nondecreasing ys -> Forall (Z.le d) ys ->
  nondecreasing (xs ++ ys) /\ Forall (Z.le d) (xs ++ ys).
Proof.
  intros Hx Hy Hall. induction Hx as [| x xs <- _ [IH1 IH2]].
  - split; assumption.
  - cbn [app]. split.
    + apply nondecreasing_cons; assumption.
    + constructor; [lia | exact IH2].
Qed.

Lemma events_at_dates bars i :
  Forall (eq (Date (nth i bars bar0))) (map date (events_at bars i)).
Proof.
  apply Forall_forall. intros d Hd.
  apply list_elem_of_fmap in Hd as (e & -> & He).
  symmetry. apply (candle_events_date (nth (i - 1) bars bar0)).
  apply list_elem_of_In. exact He.
Qed.

Lemma events_dates_sorted bars : forall k a,
  nondecreasing (map Date bars) -> (a + k <= length bars)%nat ->
  nondecreasing (map date (flat_map (events_at bars) (seq a k)))
  /\ Forall (Z.le (Date (nth a bars bar0)))
       (map date (flat_map (events_at bars) (seq a k))).
Proof.
  induction k as [| k IH]; intros a Hs Hn.
  - split; [exact I | constructor].
  - cbn [seq flat_map]. rewrite map_app.
    destruct (IH (S a) Hs ltac:(lia)) as [IH1 IH2].
    apply nondecreasing_app_const;
      [apply events_at_dates | exact IH1 |].
    destruct k as [| k]; [constructor |].
    eapply Forall_impl; [exact IH2 |].
    intros w Hw. cbv beta in *.
    assert (Hle : (Date (nth a bars bar0) <= Date (nth (S a) bars bar0))%Z).
    { apply (nondecreasing_lookup (map Date bars) a (S a)); [exact Hs | lia | |].
      - change (map Date bars) with (Date <$> bars).
        rewrite list_lookup_fmap, (lookup_nth bars a bar0) by lia. reflexivity.
      - change (map Date bars) with (Date <$> bars).
        rewrite list_lookup_fmap, (lookup_nth bars (S a) bar0) by lia.
        reflexivity. }
    lia.
Qed.

(** X17: the patterns of an analysis come in date order.  Whatever the
    order of the rows of the frame handed in, the candlestick events of the
    analysis are listed by non-decreasing date: the constructor sorts the
    copy it works on and the detection loop walks it from the oldest bar to
    the newest. *)
Theorem patterns_in_date_order
  (st st' : Store) (data : nat) (a : Analysis) :
  analyze data st = (Ok a, st') ->
  nondecreasing (map date (patterns (results a))).
Proof.
  intros H. destruct (st !! data) as [df |] eqn:E.
  - rewrite (analyze_run st data df E) in H.
    destruct (calculate_all_indicators (sort_values_Date df)) as [r df1] eqn:Er.
    cbn [fst snd] in H. injection H as -> _.
    apply calculate_all_indicators_inv in Er as [-> Hn].
    cbn [results analysis_of]. unfold results_of. cbn [patterns].
    destruct (sort_values_Date_rows df) as (_ & Hs & _).
    set (bars := rows (sort_values_Date df)) in *.
    unfold last_n. change (map date ?l) with (date <$> l).
    rewrite fmap_drop. apply nondecreasing_drop.
    destruct (Nat.le_gt_cases 3 (length bars)) as [Hlen | Hlen].
    + unfold all_events, range.
      apply (events_dates_sorted bars (length bars - 2) 2 Hs). lia.
    + rewrite all_events_short by lia. exact I.
  - rewrite (analyze_dangling st data E) in H. discriminate.
Qed.

Lemma patterns_in_date_order_witness :
  exists a st',
    analyze 0 [unsorted_frame] = (Ok a, st')
    /\ nondecreasing (map date (patterns (results a))).
Proof.
  eexists. eexists.
  assert (H : analyze 0 [unsorted_frame]
              = (Ok (analysis_of (rows (sort_values_Date unsorted_frame))),
                 <[1%nat := indicator_frame (sort_values_Date unsorted_frame)]>
                   ([unsorted_frame] ++ [sort_values_Date unsorted_frame]))).
  { rewrite (analyze_run [unsorted_frame] 0 unsorted_frame eq_refl).
    rewrite calculate_all_indicators_run by (vm_compute; lia).
    reflexivity. }
  split; [exact H |].
  apply (patterns_in_date_order _ _ _ _ H).
Defined.

(** ** Support and resistance levels *)

Lemma exists_extremum (cmp : Q -> Q -> bool) (data : list Q) :
  (forall a b, cmp a b = true \/ cmp b a = true) ->
  (forall a b c, cmp a b = true -> cmp b c = true -> cmp a c = true) ->
  data <> [] ->
  exists i, (i < length data)%nat
            /\ forall j, (j < length data)%nat ->
                         cmp (nth i data 0) (nth j data 0) = true.
Proof.
  intros Htot Htr. induction data as [| x xs IH]; [congruence |]. intros _.
  destruct xs as [| y ys].
  - exists 0%nat. split; [simpl; lia |]. intros j Hj.
    assert (j = 0%nat) as -> by (simpl in Hj; lia).
    destruct (Htot x x); assumption.
  - destruct (IH ltac:(discriminate)) as (i & Hi & Hmin).
    destruct (cmp x (nth i (y :: ys) 0)) eqn:E.
    + exists 0%nat. split; [simpl; lia |]. intros [| j] Hj.
      * destruct (Htot x x); assumption.
      * cbn [nth]. apply (Htr _ _ _ E). apply Hmin. simpl in *. lia.
    + exists (S i). split; [simpl in *; lia |]. intros [| j] Hj.
      * change (nth (S i) (x :: y :: ys) 0) with (nth i (y :: ys) 0).
        cbn [nth]. destruct (Htot x (nth i (y :: ys) 0)) as [H | H];
          [congruence | exact H].
      * change (nth (S i) (x :: y :: ys) 0) with (nth i (y :: ys) 0).
        change (nth (S j) (x :: y :: ys) 0) with (nth j (y :: ys) 0).
        apply Hmin. simpl in *. lia.
Qed.

Lemma clip_index_lt n z : (0 < n)%nat -> (clip_index n z < n)%nat.
Proof. intros Hn. unfold clip_index. lia. Qed.

Lemma clip_index_id n i : (i < n)%nat -> clip_index n (Z.of_nat i) = i.
Proof. intros Hi. unfold clip_index. lia. Qed.

Lemma argrelextrema_bound data cmp order i :
  In i (argrelextrema data cmp order) -> (i < length data)%nat.
Proof.
  unfold argrelextrema. intros H. apply filter_In in H as [H _].
  apply in_seq in H. lia.
Qed.

Lemma argrelextrema_nonempty (cmp : Q -> Q -> bool) data order :
  (forall a b, cmp a b = true \/ cmp b a = true) ->
  (forall a b c, cmp a b = true -> cmp b c = true -> cmp a c = true) ->
  data <> [] -> argrelextrema data cmp order <> [].
Proof.
  intros Htot Htr Hne.
  destruct (exists_extremum cmp data Htot Htr Hne) as (i & Hi & Hmin).
  assert (Hin : In i (argrelextrema data cmp order)).
  { unfold argrelextrema. apply filter_In. split; [apply in_seq; lia |].
    apply forallb_forall. intros shift _.
    rewrite (clip_index_id _ _ Hi).
    rewrite !Hmin by (apply clip_index_lt; lia). reflexivity. }
  intros E. rewrite E in Hin. exact Hin.
Qed.

Lemma take_rows_cons {A} (i : nat) (idx : list nat) (xs : list A) :
  take_rows (i :: idx) xs
  = match xs !! i with
    | Some x => x :: take_rows idx xs
    | None => take_rows idx xs
    end.
Proof. reflexivity. Qed.

Lemma take_rows_length {A} (idx : list nat) (xs : list A) :
  Forall (fun i => i < length xs)%nat idx ->
  length (take_rows idx xs) = length idx.
Proof.
  intros H. induction H as [| i idx Hi _ IH]; [reflexivity |].
  rewrite take_rows_cons.
  destruct (xs !! i) eqn:E; [cbn [length]; rewrite IH; reflexivity |].
  apply lookup_ge_None in E. lia.
Qed.

Lemma take_rows_Forall {A} (P : A -> Prop) (idx : list nat) (xs : list A) :
  Forall P xs -> Forall P (take_rows idx xs).
Proof.
  intros H. induction idx as [| i idx IH]; [constructor |].
  rewrite take_rows_cons.
  destruct (xs !! i) eqn:E; [| exact IH].
  constructor; [| exact IH].
  rewrite Forall_forall in H. apply H.
  apply list_elem_of_lookup. exists i. exact E.
Qed.

Lemma sorted_Forall (P : Q -> Prop) l : Forall P l -> Forall P (sorted l).
Proof.
  intros H. unfold sorted. induction H as [| x l Hx _ IH]; [constructor |].
  cbn [foldr]. apply insert_sorted_Forall; assumption.
Qed.

Lemma cluster_from_bounds tol lo hi rest : forall cur,
  cur <> [] -> Forall (fun x => lo <= x <= hi) (cur ++ rest) ->
  Forall (fun x => lo <= x <= hi) (cluster_from tol cur rest).
Proof.
  assert (Hmean : forall cur, cur <> [] ->
            Forall (fun x => lo <= x <= hi) cur -> lo <= Qmean cur <= hi).
  { intros cur Hne Hall. split.
    - apply Qmean_lower; [exact Hne |].
      eapply Forall_impl; [exact Hall |]. intros x Hx. cbv beta in Hx. lra.
    - apply Qmean_upper; [exact Hne |].
      eapply Forall_impl; [exact Hall |]. intros x Hx. cbv beta in Hx. lra. }
  induction rest as [| y rest IH]; intros cur Hne Hall.
  - rewrite app_nil_r in Hall. cbn [cluster_from].
    constructor; [apply Hmean; assumption | constructor].
  - cbn [cluster_from]. destruct (near tol (Qmean cur) y).
    + apply IH; [destruct cur; discriminate |].
      rewrite <- app_assoc. exact Hall.
    + apply Forall_app in Hall as [Hcur Hrest].
      constructor; [apply Hmean; assumption |].
      apply IH; [discriminate | exact Hrest].
Qed.

Lemma cluster_from_nonempty tol rest : forall cur,
  cluster_from tol cur rest <> [].
Proof.
  induction rest as [| y rest IH]; intros cur; cbn [cluster_from];
    [discriminate |].
  destruct (near tol (Qmean cur) y); [apply IH | discriminate].
Qed.

Lemma cluster_levels_nonempty levels tol :
  levels <> [] -> cluster_levels levels tol <> [].
Proof.
  intros Hne. rewrite cluster_levels_from.
  destruct (sorted levels) as [| x rest] eqn:E.
  - apply (f_equal length) in E. rewrite sorted_length in E.
    destruct levels; [congruence | discriminate].
  - apply cluster_from_nonempty.
Qed.

Lemma cluster_levels_bounds levels tol lo hi :
  Forall (fun x => lo <= x <= hi) levels ->
  Forall (fun x => lo <= x <= hi) (cluster_levels levels tol).
Proof.
  intros H. rewrite cluster_levels_from.
  pose proof (sorted_Forall _ _ H) as Hs.
  destruct (sorted levels) as [| x rest]; [constructor |].
  apply cluster_from_bounds; [discriminate | exact Hs].
Qed.

Lemma Qleb_total a b : Qleb a b = true \/ Qleb b a = true.
Proof.
  destruct (Qlt_le_dec b a) as [H | H].
  - right. apply Qleb_le. lra.
  - left. apply Qleb_le. exact H.
Qed.

Lemma Qleb_trans a b c :
  Qleb a b = true -> Qleb b c = true -> Qleb a c = true.
Proof. rewrite !Qleb_le. intros. lra. Qed.

Lemma extrema_levels_nonempty (cmp : Q -> Q -> bool) data order :
  (forall a b, cmp a b = true \/ cmp b a = true) ->
  (forall a b c, cmp a b = true -> cmp b c = true -> cmp a c = true) ->
  data <> [] ->
  take_rows (argrelextrema data cmp order) data <> [].
Proof.
  intros Htot Htr Hne.
  pose proof (argrelextrema_nonempty cmp data order Htot Htr Hne) as Hidx.
  assert (Hlen : length (take_rows (argrelextrema data cmp order) data)
                 = length (argrelextrema data cmp order)).
  { apply take_rows_length. apply Forall_forall. intros i Hi.
    apply list_elem_of_In in Hi. eapply argrelextrema_bound. exact Hi. }
  intros E. rewrite E in Hlen. cbn in Hlen.
  destruct (argrelextrema data cmp order); [congruence | discriminate].
Qed.

Lemma levels_of_counts order bars price :
  bars <> [] ->
  (1 <= length (support_levels (levels_of order bars price)) <= 5)%nat
  /\ (1 <= length (resistance_levels (levels_of order bars price)) <= 5)%nat.
Proof.
  intros Hne. unfold levels_of. cbn [support_levels resistance_levels].
  rewrite !last_n_length.
  assert (Hlow : map Low bars <> []) by (destruct bars; [congruence | discriminate]).
  assert (Hhigh : map High bars <> [])
    by (destruct bars; [congruence | discriminate]).
  pose proof (cluster_levels_nonempty _ (2 # 100)
                (extrema_levels_nonempty Qleb (map Low bars) order
                   Qleb_total Qleb_trans Hlow)) as H1.
  pose proof (cluster_levels_nonempty _ (2 # 100)
                (extrema_levels_nonempty (fun a b => Qleb b a) (map High bars)
                   order (fun a b => Qleb_total b a)
                   (fun a b c Hab Hbc => Qleb_trans c b a Hbc Hab) Hhigh)) as H2.
  split.
  - destruct (cluster_levels
                (take_rows (argrelextrema (map Low bars) Qleb order)
                   (map Low bars)) (2 # 100)); [congruence | cbn [length]; lia].
  - destruct (cluster_levels
                (take_rows
                   (argrelextrema (map High bars) (fun a b => Qleb b a) order)
                   (map High bars)) (2 # 100)); [congruence | cbn [length]; lia].
Qed.

(** X18: every non-empty frame has support and resistance levels.  For an
    order of at least 1 (scipy refuses a smaller one): on an empty frame [find_support_resistance] raises
    IndexError; on any other it returns, leaves the frame as it is, and
    reports between one and five support levels and between one and five
    resistance levels, with the close of the latest bar as the current
    price. *)
Theorem support_and_resistance_exist (order : nat) (df : DataFrame) :
  (1 <= order)%nat ->
  (rows df = []
   /\ find_support_resistance order df = (Raise IndexError, df))
  \/ (exists lv,
        find_support_resistance order df = (Ok lv, df)
        /\ (1 <= length (support_levels lv) <= 5)%nat
        /\ (1 <= length (resistance_levels lv) <= 5)%nat
        /\ last (map Close (rows df)) = Some (levels_current_price lv)).
Proof.
  intros _. destruct (rows df) as [| b bars] eqn:E.
  - left. split; [reflexivity |].
    rewrite find_support_resistance_run, E. reflexivity.
  - right.
    assert (Hn : (0 < length (rows df))%nat) by (rewrite E; simpl; lia).
    eexists. split; [apply find_support_resistance_ok; exact Hn |].
    rewrite <- E.
    assert (Hne : rows df <> []) by (rewrite E; discriminate).
    destruct (levels_of_counts order (rows df)
                (default 0 (last (map Close (rows df)))) Hne) as [H1 H2].
    split; [exact H1 |]. split; [exact H2 |].
    cbn [levels_of levels_current_price].
    apply last_default. rewrite length_map. exact Hn.
Qed.

Lemma support_and_resistance_exist_witness :
  (rows short_frame = []
   /\ find_support_resistance 5 short_frame = (Raise IndexError, short_frame))
  \/ (exists lv,
        find_support_resistance 5 short_frame = (Ok lv, short_frame)
        /\ (1 <= length (support_levels lv) <= 5)%nat
        /\ (1 <= length (resistance_levels lv) <= 5)%nat
        /\ last (map Close (rows short_frame))
           = Some (levels_current_price lv)).
Proof.
  apply (support_and_resistance_exist 5 short_frame). lia.
Defined.

Lemma find_support_resistance_inv order df lv df' :
  find_support_resistance order df = (Ok lv, df') ->
  df' = df
  /\ exists price, last (map Close (rows df)) = Some price
                   /\ lv = levels_of order (rows df) price.
Proof.
  intros H. rewrite find_support_resistance_run in H.
  destruct (last (map Close (rows df))) as [price |]; [| discriminate].
  injection H as <- <-. split; [reflexivity |]. exists price.
  split; reflexivity.
Qed.

Lemma Forall_In_list {A} (P : A -> Prop) (l : list A) (x : A) :
  Forall P l -> In x l -> P x.
Proof.
  intros H Hin. rewrite Forall_forall in H. apply H, list_elem_of_In, Hin.
Qed.

Lemma fold_pymax_spec l : forall a,
  let m := fold_left pymax l a in
  (m = a \/ In m l) /\ a <= m /\ Forall (fun x => x <= m) l.
Proof.
  induction l as [| x l IH]; intros a; cbn [fold_left].
  - split; [left; reflexivity |]. split; [lra | constructor].
  - destruct (IH (pymax a x)) as (Hin & Hle & Hall).
    assert (Hmax : (pymax a x = a \/ pymax a x = x) /\ a <= pymax a x
                   /\ x <= pymax a x).
    { unfold pymax. qcases; repeat split; try tauto; lra. }
    destruct Hmax as (Hc & Ha & Hx).
    cbv zeta. split; [| split].
    + destruct Hin as [Hin | Hin]; [| right; right; exact Hin].
      destruct Hc as [Hc | Hc]; rewrite Hin, Hc; [left | right; left];
        reflexivity.
    + lra.
    + constructor; [lra | exact Hall].
Qed.

Lemma fold_pymin_spec l : forall a,
  let m := fold_left pymin l a in
  (m = a \/ In m l) /\ m <= a /\ Forall (fun x => m <= x) l.
Proof.
  induction l as [| x l IH]; intros a; cbn [fold_left].
  - split; [left; reflexivity |]. split; [lra | constructor].
  - destruct (IH (pymin a x)) as (Hin & Hle & Hall).
    assert (Hmin : (pymin a x = a \/ pymin a x = x) /\ pymin a x <= a
                   /\ pymin a x <= x).
    { unfold pymin. qcases; repeat split; try tauto; lra. }
    destruct Hmin as (Hc & Ha & Hx).
    cbv zeta. split; [| split].
    + destruct Hin as [Hin | Hin]; [| right; right; exact Hin].
      destruct Hc as [Hc | Hc]; rewrite Hin, Hc; [left | right; left];
        reflexivity.
    + lra.
    + constructor; [lra | exact Hall].
Qed.

Lemma max_of_spec l :
  match max_of l with
  | Some m => In m l /\ Forall (fun x => x <= m) l
  | None => l = []
  end.
Proof.
  destruct l as [| a l]; [reflexivity |]. cbn [max_of].
  destruct (fold_pymax_spec l a) as (Hin & Hle & Hall). cbv zeta in *.
  split.
  - destruct Hin as [-> | Hin]; [left; reflexivity | right; exact Hin].
  - constructor; assumption.
Qed.

Lemma min_of_spec l :
  match min_of l with
  | Some m => In m l /\ Forall (fun x => m <= x) l
  | None => l = []
  end.
Proof.
  destruct l as [| a l]; [reflexivity |]. cbn [min_of].
  destruct (fold_pymin_spec l a) as (Hin & Hle & Hall). cbv zeta in *.
  split.
  - destruct Hin as [-> | Hin]; [left; reflexivity | right; exact Hin].
  - constructor; assumption.
Qed.

(** The nearest level below [price] among [levels], and what it means. *)
Lemma nearest_below_spec (levels : list Q) (price : Q) :
  match max_of (List.filter (fun s => Qltb s price) levels) with
  | Some s => In s levels /\ s < price
              /\ Forall (fun c => c < price -> c <= s) levels
  | None => Forall (fun c => price <= c) levels
  end.
Proof.
  pose proof (max_of_spec (List.filter (fun s => Qltb s price) levels)) as H.
  destruct (max_of (List.filter (fun s => Qltb s price) levels)) as [s |].
  - destruct H as [Hin Hall]. apply filter_In in Hin as [Hin Hlt].
    apply Qltb_lt in Hlt. split; [exact Hin |]. split; [exact Hlt |].
    apply Forall_forall. intros c Hc Hcp.
    apply (Forall_In_list _ _ c Hall). apply filter_In.
    split; [apply list_elem_of_In; exact Hc | apply Qltb_lt; exact Hcp].
  - apply Forall_forall. intros c Hc.
    destruct (Qlt_le_dec c price) as [Hlt | Hle]; [| exact Hle].
    assert (Hin : In c (List.filter (fun s => Qltb s price) levels)).
    { apply filter_In. split; [apply list_elem_of_In; exact Hc |].
      apply Qltb_lt. exact Hlt. }
    rewrite H in Hin. destruct Hin.
Qed.

Lemma nearest_above_spec (levels : list Q) (price : Q) :
  match min_of (List.filter (fun r => Qltb price r) levels) with
  | Some r => In r levels /\ price < r
              /\ Forall (fun c => price < c -> r <= c) levels
  | None => Forall (fun c => c <= price) levels
  end.
Proof.
  pose proof (min_of_spec (List.filter (fun r => Qltb price r) levels)) as H.
  destruct (min_of (List.filter (fun r => Qltb price r) levels)) as [r |].
  - destruct H as [Hin Hall]. apply filter_In in Hin as [Hin Hlt].
    apply Qltb_lt in Hlt. split; [exact Hin |]. split; [exact Hlt |].
    apply Forall_forall. intros c Hc Hcp.
    apply (Forall_In_list _ _ c Hall). apply filter_In.
    split; [apply list_elem_of_In; exact Hc | apply Qltb_lt; exact Hcp].
  - apply Forall_forall. intros c Hc.
    destruct (Qlt_le_dec price c) as [Hlt | Hle]; [| exact Hle].
    assert (Hin : In c (List.filter (fun r => Qltb price r) levels)).
    { apply filter_In. split; [apply list_elem_of_In; exact Hc |].
      apply Qltb_lt. exact Hlt. }
    rewrite H in Hin. destruct Hin.
Qed.

(** X19: the nearest levels bracket the price.  The nearest support, when
    there is one, lies strictly below the current price and no reported
    support level below the price lies above it; when there is none, no
    reported support level lies below the price.  The nearest resistance
    mirrors this above the price.  So a nearest support is always below a
    nearest resistance.  (The order is at least 1, as scipy demands.) *)
Theorem nearest_levels_bracket_price
  (order : nat) (df df' : DataFrame) (lv : Levels) :
  (1 <= order)%nat ->
  find_support_resistance order df = (Ok lv, df') ->
  match nearest_support lv with
  | Some s =>
      s < levels_current_price lv
      /\ Forall (fun c => c < levels_current_price lv -> c <= s)
           (support_levels lv)
  | None => Forall (fun c => levels_current_price lv <= c) (support_levels lv)
  end
  /\ match nearest_resistance lv with
     | Some r =>
         levels_current_price lv < r
         /\ Forall (fun c => levels_current_price lv < c -> r <= c)
              (resistance_levels lv)
     | None =>
         Forall (fun c => c <= levels_current_price lv) (resistance_levels lv)
     end
  /\ (forall s r, nearest_support lv = Some s ->
                  nearest_resistance lv = Some r -> s < r).
Proof.
  intros _ H. apply find_support_resistance_inv in H
    as (_ & price & _ & ->).
  unfold levels_of.
  cbn [nearest_support nearest_resistance support_levels resistance_levels
       levels_current_price].
  set (sup := cluster_levels _ _). set (res := cluster_levels _ _).
  pose proof (nearest_below_spec sup price) as Hs.
  pose proof (nearest_above_spec res price) as Hr.
  split; [| split].
  - destruct (max_of (List.filter (fun s => Qltb s price) sup)) as [s |].
    + destruct Hs as (_ & Hlt & Hall). split; [exact Hlt |].
      apply Forall_last_n. exact Hall.
    + apply Forall_last_n. exact Hs.
  - destruct (min_of (List.filter (fun r => Qltb price r) res)) as [r |].
    + destruct Hr as (_ & Hlt & Hall). split; [exact Hlt |].
      apply Forall_last_n. exact Hall.
    + apply Forall_last_n. exact Hr.
  - intros s r Es Er. rewrite Es in Hs. rewrite Er in Hr.
    destruct Hs as (_ & Hs & _). destruct Hr as (_ & Hr & _). lra.
Qed.

Lemma nearest_levels_bracket_price_witness :
  match nearest_support (levels_of 5 (rows short_frame) 12) with
  | Some s =>
      s < 12
      /\ Forall (fun c => c < 12 -> c <= s)
           (support_levels (levels_of 5 (rows short_frame) 12))
  | None =>
      Forall (fun c => 12 <= c)
        (support_levels (levels_of 5 (rows short_frame) 12))
  end.
Proof.
  refine (proj1 (nearest_levels_bracket_price 5 short_frame short_frame
                   (levels_of 5 (rows short_frame) 12) _ _)).
  - lia.
  - apply (find_support_resistance_ok 5 short_frame). simpl. lia.
Defined.

Lemma levels_of_range
  (order : nat) (df df' : DataFrame) (lv : Levels) (lo hi : Q) :
  find_support_resistance order df = (Ok lv, df') ->
  Forall (fun b => lo <= Low b <= hi /\ lo <= High b <= hi) (rows df) ->
  Forall (fun s => lo <= s <= hi) (support_levels lv)
  /\ Forall (fun r => lo <= r <= hi) (resistance_levels lv)
  /\ (forall s, nearest_support lv = Some s -> lo <= s <= hi)
  /\ (forall r, nearest_resistance lv = Some r -> lo <= r <= hi).
Proof.
  intros H Hrows. apply find_support_resistance_inv in H
    as (_ & price & _ & ->).
  unfold levels_of.
  cbn [nearest_support nearest_resistance support_levels resistance_levels].
  assert (Hlow : Forall (fun x => lo <= x <= hi) (map Low (rows df))).
  { apply Forall_forall. intros x Hx.
    apply list_elem_of_fmap in Hx as (b & -> & Hb).
    rewrite Forall_forall in Hrows. apply (Hrows b Hb). }
  assert (Hhigh : Forall (fun x => lo <= x <= hi) (map High (rows df))).
  { apply Forall_forall. intros x Hx.
    apply list_elem_of_fmap in Hx as (b & -> & Hb).
    rewrite Forall_forall in Hrows. apply (Hrows b Hb). }
  set (sup := cluster_levels
                (take_rows (argrelextrema (map Low (rows df)) Qleb order)
                   (map Low (rows df))) (2 # 100)).
  set (res := cluster_levels
                (take_rows (argrelextrema (map High (rows df))
                              (fun a b => Qleb b a) order)
                   (map High (rows df))) (2 # 100)).
  assert (Hsup : Forall (fun x => lo <= x <= hi) sup)
    by (apply cluster_levels_bounds, take_rows_Forall; exact Hlow).
  assert (Hres : Forall (fun x => lo <= x <= hi) res)
    by (apply cluster_levels_bounds, take_rows_Forall; exact Hhigh).
  split; [apply Forall_last_n; exact Hsup |].
  split; [apply Forall_last_n; exact Hres |].
  split.
  - intros s Es. pose proof (nearest_below_spec sup price) as Hs.
    rewrite Es in Hs. destruct Hs as (Hin & _).
    apply (Forall_In_list _ _ s Hsup Hin).
  - intros r Er. pose proof (nearest_above_spec res price) as Hr.
    rewrite Er in Hr. destruct Hr as (Hin & _).
    apply (Forall_In_list _ _ r Hres Hin).
Qed.



(** ** The constructor on a frame that is already in date order *)

Lemma strictly_increasing_nondecreasing zs :
  strictly_increasing zs = true -> nondecreasing zs.
Proof.
  induction zs as [| z zs IH]; [intros _; exact I |].
  destruct zs as [| y zs]; [intros _; exact I |].
  cbn [strictly_increasing]. intros H.
  apply andb_prop in H as [Hlt Hrest]. apply Z.ltb_lt in Hlt.
  split; [lia | apply IH; exact Hrest].
Qed.

Lemma sort_pairs_fixed (l : list (nat * Z)) :
  nondecreasing (map snd l) -> foldr insert_by_date [] l = l.
Proof.
  induction l as [| x l IH]; [reflexivity |]. intros Hs.
  cbn [foldr]. rewrite IH by (eapply nondecreasing_tail; exact Hs).
  destruct l as [| y l]; [reflexivity |].
  cbn [map] in Hs. destruct Hs as [Hxy _].
  cbn [insert_by_date]. apply Z.leb_le in Hxy. rewrite Hxy. reflexivity.
Qed.

Lemma argsort_dates_fixed dates :
  nondecreasing dates -> argsort_dates dates = seq 0 (length dates).
Proof.
  intros Hs. unfold argsort_dates.
  rewrite sort_pairs_fixed.
  - apply fst_zip. rewrite length_seq. lia.
  - change (map snd ?l) with (snd <$> l).
    rewrite snd_zip by (rewrite length_seq; lia). exact Hs.
Qed.

Lemma sort_values_Date_fixed df :
  nondecreasing (map Date (rows df)) -> rows (sort_values_Date df) = rows df.
Proof.
  intros Hs. unfold sort_values_Date. cbn [rows].
  rewrite argsort_dates_fixed by exact Hs.
  rewrite length_map. apply take_rows_all.
Qed.

(** X21: the constructor leaves a date-ordered frame in its order.  For a
    frame whose dates are strictly increasing, [__init__] allocates a new
    frame with the same rows in the same order and leaves the caller's frame
    untouched; the analysis of a non-empty such frame is the analysis of its
    rows as given. *)
Theorem constructor_keeps_ordered_rows
  (st : Store) (data : nat) (df : DataFrame) :
  st !! data = Some df ->
  strictly_increasing (map Date (rows df)) = true ->
  exists df',
    __init__ data st = (Ok (length st), st ++ [df'])
    /\ rows df' = rows df
    /\ (st ++ [df']) !! data = Some df
    /\ (rows df <> [] -> fst (analyze data st) = Ok (analysis_of (rows df))).
Proof.
  intros Hd Hs. apply strictly_increasing_nondecreasing in Hs.
  exists (sort_values_Date df).
  split; [unfold __init__; rewrite Hd; reflexivity |].
  split; [apply sort_values_Date_fixed; exact Hs |].
  split.
  { rewrite lookup_app_l by (apply lookup_lt_is_Some; eauto). exact Hd. }
  intros Hne. rewrite (analyze_run st data df Hd). cbn [fst].
  rewrite calculate_all_indicators_run.
  - cbn [fst]. rewrite sort_values_Date_fixed by exact Hs. reflexivity.
  - rewrite sort_values_Date_fixed by exact Hs.
    destruct (rows df); [congruence | simpl; lia].
Qed.

Lemma constructor_keeps_ordered_rows_witness :
  exists df',
    __init__ 0 [short_frame] = (Ok 1%nat, [short_frame] ++ [df'])
    /\ rows df' = rows short_frame.
Proof.
  destruct (constructor_keeps_ordered_rows [short_frame] 0 short_frame
              eq_refl eq_refl) as (df' & H1 & H2 & _).
  exists df'. split; [exact H1 | exact H2].
Defined.

(** ** analyze_stock_technical *)

(** X22: [analyze_stock_technical] returns for every fetch result.  Given
    no data, or a reference to an empty frame, it returns None; given a
    reference to a frame with at least one bar it returns the analysis of
    that frame.  It never raises, and every frame that was in the store
    before the call is still there unchanged. *)
Theorem analyze_stock_technical_total
  (st : Store) (stock_data : option nat) :
  (forall data, stock_data = Some data -> (data < length st)%nat) ->
  exists r st',
    analyze_stock_technical stock_data st = (Ok r, st')
    /\ (r = None
        <-> stock_data = None
            \/ exists data df, stock_data = Some data
                               /\ st !! data = Some df /\ rows df = [])
    /\ (forall data df a,
          stock_data = Some data -> st !! data = Some df -> r = Some a ->
          exists bars, a = analysis_of bars /\ bars ≡ₚ rows df
                       /\ nondecreasing (map Date bars))
    /\ (forall i, (i < length st)%nat -> st' !! i = st !! i).
Proof.
  intros Hvalid. destruct stock_data as [data |].
  - specialize (Hvalid data eq_refl).
    destruct (st !! data) as [df |] eqn:Hd;
      [| apply lookup_ge_None in Hd; lia].
    unfold analyze_stock_technical. rewrite Hd.
    destruct (rows df) as [| b bars] eqn:E.
    + cbn [length Nat.eqb]. exists None, st.
      split; [reflexivity |]. split.
      { split; [intros _; right; exists data, df; auto | reflexivity]. }
      split; [intros ? ? ? _ _ Hr; discriminate | reflexivity].
    + cbn [length Nat.eqb]. unfold bind.
      rewrite (analyze_run st data df Hd).
      destruct (sort_values_Date_rows df) as (Hperm & Hsorted & Hlen).
      rewrite calculate_all_indicators_run
        by (rewrite Hlen, E; simpl; lia).
      cbn [fst snd]. unfold ret. eexists. eexists.
      split; [reflexivity |]. split; [| split].
      * split; [discriminate |].
        intros [Hn | (d' & df0 & Hsome & Hd' & Hrows)]; [discriminate |].
        injection Hsome as <-. rewrite Hd in Hd'. injection Hd' as <-.
        rewrite E in Hrows. discriminate.
      * intros d' df0 a Hsome Hd' Ha. injection Hsome as <-.
        rewrite Hd in Hd'. injection Hd' as <-. injection Ha as <-.
        exists (rows (sort_values_Date df)).
        split; [reflexivity |]. split; [rewrite E in Hperm; rewrite E |];
          assumption.
      * intros i Hi. rewrite list_lookup_insert_ne by lia.
        apply lookup_app_l. exact Hi.
  - exists None, st. split; [reflexivity |].
    split; [split; [intros _; left; reflexivity | reflexivity] |].
    split; [intros ? ? ? Hs; discriminate | reflexivity].
Qed.

Lemma analyze_stock_technical_total_witness :
  exists r st',
    analyze_stock_technical (Some 0%nat) [short_frame] = (Ok r, st').
Proof.
  destruct (analyze_stock_technical_total [short_frame] (Some 0%nat))
    as (r & st' & H & _).
  - intros data Hd. injection Hd as <-. simpl. lia.
  - exists r, st'. exact H.
Defined.

(** ** The frame after the analysis *)

Lemma calculate_all_indicators_frame df a df' :
  calculate_all_indicators df = (Ok a, df') ->
  df' = indicator_frame df /\ (0 < length (rows df))%nat.
Proof.
  intros H. pose proof H as H0.
  apply calculate_all_indicators_inv in H0 as [_ Hn].
  rewrite (calculate_all_indicators_run df Hn) in H.
  injection H as _ <-. split; [reflexivity | exact Hn].
Qed.

Ltac frame_lookup :=
  unfold indicator_frame, volume_frame, bb_frame, macd_frame, rsi_frame;
  cbn [rows cols];
  repeat (rewrite lookup_insert_ne by discriminate);
  rewrite lookup_insert_eq.

(** X23: what the frame holds after the analysis.  After a successful
    [calculate_all_indicators], [get_data_with_indicators] hands back the
    engine's own frame: its rows are the rows analysed, each of the fourteen
    indicator columns is present with one entry per row, and every other
    column is as it was before. *)
Theorem frame_after_analysis (df df' : DataFrame) (a : Analysis) :
  calculate_all_indicators df = (Ok a, df') ->
  get_data_with_indicators df' = (Ok df', df')
  /\ rows df' = rows df
  /\ Forall (fun name =>
               exists c, cols df' !! name = Some c
                         /\ col_length c = length (rows df))
       indicator_columns
  /\ (forall name, ~ In name indicator_columns ->
                   cols df' !! name = cols df !! name).
Proof.
  intros H. apply calculate_all_indicators_frame in H as [-> Hn].
  split; [reflexivity |]. split; [reflexivity |]. split.
  - unfold indicator_columns.
    repeat (apply Forall_cons; split;
            [eexists; split; [frame_lookup; reflexivity |];
             cbn [col_length];
             rewrite ?volume_ma_length, ?volume_spikes_length,
               ?obv_series_length by (rewrite length_map; exact Hn);
             solve_len |]).
    apply Forall_nil. exact I.
  - intros name Hname.
    unfold indicator_frame, volume_frame, bb_frame, macd_frame, rsi_frame.
    cbn [rows cols].
    repeat (rewrite lookup_insert_ne
              by (intros <-; apply Hname; unfold indicator_columns;
                  cbn [In]; tauto)).
    reflexivity.
Qed.

Lemma frame_after_analysis_witness :
  rows (indicator_frame short_frame) = rows short_frame.
Proof.
  refine (proj1 (proj2 (frame_after_analysis short_frame
                          (indicator_frame short_frame)
                          (analysis_of (rows short_frame)) _))).
  apply calculate_all_indicators_run. simpl. lia.
Defined.

(** ** The indicator methods do not interfere *)

Ltac frame_eq :=
  unfold indicator_frame, volume_frame, bb_frame, macd_frame, rsi_frame;
  cbn [rows cols]; f_equal; apply map_eq; intros k;
  repeat match goal with
    | |- context [<[?n := _]> _] =>
        lazymatch goal with
        | _ : k <> n |- _ => fail
        | _ => destruct (decide (k = n)) as [-> | ?]
        end
    end;
  repeat first [ rewrite lookup_insert_eq
               | rewrite lookup_insert_ne by (discriminate || congruence) ];
  reflexivity.

Lemma rsi_frame_twice p df : rsi_frame p (rsi_frame p df) = rsi_frame p df.
Proof. frame_eq. Qed.

Lemma macd_frame_twice f s g df :
  macd_frame f s g (macd_frame f s g df) = macd_frame f s g df.
Proof. frame_eq. Qed.

Lemma bb_frame_twice p sd df : bb_frame p sd (bb_frame p sd df) = bb_frame p sd df.
Proof. frame_eq. Qed.

Lemma rsi_macd_commute p f s g df :
  macd_frame f s g (rsi_frame p df) = rsi_frame p (macd_frame f s g df).
Proof. frame_eq. Qed.

Lemma rsi_bb_commute p q sd df :
  bb_frame q sd (rsi_frame p df) = rsi_frame p (bb_frame q sd df).
Proof. frame_eq. Qed.

Lemma macd_bb_commute f s g q sd df :
  bb_frame q sd (macd_frame f s g df) = macd_frame f s g (bb_frame q sd df).
Proof. frame_eq. Qed.

Lemma volume_frame_twice df : volume_frame (volume_frame df) = volume_frame df.
Proof. frame_eq. Qed.

Lemma rsi_volume_commute p df :
  rsi_frame p (volume_frame df) = volume_frame (rsi_frame p df).
Proof. frame_eq. Qed.

Lemma macd_volume_commute f s g df :
  macd_frame f s g (volume_frame df) = volume_frame (macd_frame f s g df).
Proof. frame_eq. Qed.

Lemma bb_volume_commute p sd df :
  bb_frame p sd (volume_frame df) = volume_frame (bb_frame p sd df).
Proof. frame_eq. Qed.

Lemma indicator_frame_twice df :
  indicator_frame (indicator_frame df) = indicator_frame df.
Proof.
  unfold indicator_frame.
  rewrite rsi_volume_commute.
  rewrite <- (rsi_bb_commute 14 20 2), <- (rsi_macd_commute 14 12 26 9).
  rewrite rsi_frame_twice.
  rewrite macd_volume_commute, <- (macd_bb_commute 12 26 9 20 2).
  rewrite macd_frame_twice.
  rewrite bb_volume_commute, bb_frame_twice.
  apply volume_frame_twice.
Qed.

Lemma seq_run {A B} (m1 : M A) (m2 : M B) df a df1 :
  m1 df = (Ok a, df1) -> snd ((m1 ;;; m2) df) = snd (m2 df1).
Proof. intros H. unfold bind. rewrite H. reflexivity. Qed.

Lemma same_columns_refl (df : DataFrame) : same_columns df df.
Proof. split; reflexivity. Qed.

(** X24: the indicator methods do not interfere.  For spans of at least
    1 (pandas refuses smaller ones), [calculate_rsi], [calculate_macd] and
    [calculate_bollinger_bands] write disjoint columns computed from the
    closes alone: run in either order they leave the same bars and, under
    every name, the same column (the order in which the columns were added
    differs and is not compared), and running one of them a second time
    changes nothing.  A second [calculate_all_indicators] on a non-empty
    frame leaves the frame exactly as the first left it. *)
Theorem indicator_methods_independent
  (period bb_period : nat) (fast slow signal std_dev : Z) (df : DataFrame) :
  (1 <= fast)%Z -> (1 <= slow)%Z -> (1 <= signal)%Z ->
  same_columns
    (snd ((calculate_rsi period ;;; calculate_macd fast slow signal) df))
    (snd ((calculate_macd fast slow signal ;;; calculate_rsi period) df))
  /\ same_columns
       (snd ((calculate_rsi period
              ;;; calculate_bollinger_bands bb_period std_dev) df))
       (snd ((calculate_bollinger_bands bb_period std_dev
              ;;; calculate_rsi period) df))
  /\ same_columns
       (snd ((calculate_macd fast slow signal
              ;;; calculate_bollinger_bands bb_period std_dev) df))
       (snd ((calculate_bollinger_bands bb_period std_dev
              ;;; calculate_macd fast slow signal) df))
  /\ snd ((calculate_rsi period ;;; calculate_rsi period) df)
     = snd (calculate_rsi period df)
  /\ snd ((calculate_macd fast slow signal
           ;;; calculate_macd fast slow signal) df)
     = snd (calculate_macd fast slow signal df)
  /\ snd ((calculate_bollinger_bands bb_period std_dev
           ;;; calculate_bollinger_bands bb_period std_dev) df)
     = snd (calculate_bollinger_bands bb_period std_dev df)
  /\ (rows df <> [] ->
      snd (calculate_all_indicators (snd (calculate_all_indicators df)))
      = snd (calculate_all_indicators df)).
Proof.
  intros _ _ _.
  split; [| split; [| split; [| split; [| split; [| split]]]]].
  - rewrite (seq_run _ _ _ _ _ (calculate_rsi_run period df)).
    rewrite (seq_run _ _ _ _ _ (calculate_macd_run fast slow signal df)).
    rewrite calculate_macd_run, calculate_rsi_run. cbn [snd].
    rewrite rsi_macd_commute. apply same_columns_refl.
  - rewrite (seq_run _ _ _ _ _ (calculate_rsi_run period df)).
    rewrite (seq_run _ _ _ _ _
               (calculate_bollinger_bands_run bb_period std_dev df)).
    rewrite calculate_bollinger_bands_run, calculate_rsi_run. cbn [snd].
    rewrite rsi_bb_commute. apply same_columns_refl.
  - rewrite (seq_run _ _ _ _ _ (calculate_macd_run fast slow signal df)).
    rewrite (seq_run _ _ _ _ _
               (calculate_bollinger_bands_run bb_period std_dev df)).
    rewrite calculate_bollinger_bands_run, calculate_macd_run. cbn [snd].
    rewrite macd_bb_commute. apply same_columns_refl.
  - rewrite (seq_run _ _ _ _ _ (calculate_rsi_run period df)).
    rewrite !calculate_rsi_run. cbn [snd]. apply rsi_frame_twice.
  - rewrite (seq_run _ _ _ _ _ (calculate_macd_run fast slow signal df)).
    rewrite !calculate_macd_run. cbn [snd]. apply macd_frame_twice.
  - rewrite (seq_run _ _ _ _ _
               (calculate_bollinger_bands_run bb_period std_dev df)).
    rewrite !calculate_bollinger_bands_run. cbn [snd]. apply bb_frame_twice.
  - intros Hne.
    assert (Hn : (0 < length (rows df))%nat)
      by (destruct (rows df); [congruence | simpl; lia]).
    rewrite (calculate_all_indicators_run df Hn). cbn [snd].
    rewrite calculate_all_indicators_run by exact Hn. cbn [snd].
    apply indicator_frame_twice.
Qed.

Lemma indicator_methods_independent_witness :
  same_columns
    (snd ((calculate_rsi 14 ;;; calculate_macd 12 26 9) short_frame))
    (snd ((calculate_macd 12 26 9 ;;; calculate_rsi 14) short_frame)).
Proof.
  refine (proj1 (indicator_methods_independent 14 20 12 26 9 2 short_frame
                   _ _ _)); lia.
Defined.

(** ** What the volume trend can change *)

(** X25: an increasing volume can only strengthen a buy.  Compare the
    recommendation for some results with a "Decreasing" volume trend and for
    the same results with an "Increasing" one.  If the first is "Hold",
    "Sell" or "Strong Sell", the second is the same recommendation; if the
    first is "Buy" or "Strong Buy", the second is again one of these two,
    with a confidence that is not lower, and a "Strong Buy" stays one. *)
Theorem volume_only_strengthens_buy (r : Results) :
  let quiet := _generate_recommendation (with_volume_trend r "Decreasing") in
  let busy := _generate_recommendation (with_volume_trend r "Increasing") in
  (In (action quiet) ["Hold"; "Sell"; "Strong Sell"] /\ busy = quiet)
  \/ (In (action quiet) ["Buy"; "Strong Buy"]
      /\ In (action busy) ["Buy"; "Strong Buy"]
      /\ (confidence quiet <= confidence busy)%Z
      /\ (action quiet = "Strong Buy" -> action busy = "Strong Buy")).
Proof.
  cbv zeta. unfold _generate_recommendation, count_signals, with_volume_trend.
  cbn [rsi macd bollinger_bands trend volume volume_trend].
  destruct (String.eqb (rsi_signal (rsi r)) "Oversold");
    destruct (String.eqb (rsi_signal (rsi r)) "Overbought");
    destruct (String.eqb (macd_signal (macd r)) "Buy");
    destruct (String.eqb (macd_signal (macd r)) "Sell");
    destruct (String.eqb (bb_signal (bollinger_bands r)) "Oversold");
    destruct (String.eqb (bb_signal (bollinger_bands r)) "Overbought");
    destruct (str_in "Uptrend" (trend r));
    destruct (str_in "Downtrend" (trend r));
    vm_compute;
    first [ left; split; [tauto | reflexivity]
          | right; repeat split; try tauto; try discriminate;
            intros; discriminate ].
Qed.

(** ** The scanner *)

Lemma analyze_stock_technical_run st data df :
  st !! data = Some df ->
  exists st',
    analyze_stock_technical (Some data) st
    = (Ok (if (length (rows df) =? 0)%nat then None
           else Some (analysis_of (rows (sort_values_Date df)))), st')
    /\ (forall i, (i < length st)%nat -> st' !! i = st !! i)
    /\ (length st <= length st')%nat.
Proof.
  intros Hd. unfold analyze_stock_technical. rewrite Hd.
  destruct (rows df) as [| b bars] eqn:E; cbn [length Nat.eqb].
  - exists st. split; [reflexivity |]. split; [reflexivity | lia].
  - unfold bind. rewrite (analyze_run st data df Hd).
    destruct (sort_values_Date_rows df) as (_ & _ & Hlen).
    rewrite calculate_all_indicators_run by (rewrite Hlen, E; simpl; lia).
    cbn [fst snd]. unfold ret. eexists. split; [reflexivity |]. split.
    + intros i Hi. rewrite list_lookup_insert_ne by lia.
      apply lookup_app_l. exact Hi.
    + rewrite length_insert, length_app. lia.
Qed.

Lemma scanner_loop (stock_data : string -> option nat) (st0 : Store)
  (symbols : list string) : forall acc st,
  (forall symbol data, stock_data symbol = Some data ->
                       (data < length st0)%nat) ->
  (forall i, (i < length st0)%nat -> st !! i = st0 !! i) ->
  (length st0 <= length st)%nat ->
  exists st',
    for_acc symbols (scanner_body stock_data) acc st
    = (Ok (acc ++ omap (scanned st0 stock_data) symbols), st')
    /\ (forall i, (i < length st0)%nat -> st' !! i = st0 !! i)
    /\ (length st0 <= length st')%nat.
Proof.
  induction symbols as [| symbol symbols IH]; intros acc st Hvalid Hpre Hlen.
  - exists st. cbn. rewrite app_nil_r. auto.
  - cbn [for_acc]. unfold bind.
    assert (Hstep : exists st1,
              scanner_body stock_data acc symbol st
              = (Ok (acc ++ match scanned st0 stock_data symbol with
                            | Some row => [row]
                            | None => []
                            end), st1)
              /\ (forall i, (i < length st0)%nat -> st1 !! i = st0 !! i)
              /\ (length st0 <= length st1)%nat).
    { unfold scanner_body, scanned.
      destruct (stock_data symbol) as [data |] eqn:Es.
      - pose proof (Hvalid symbol data Es) as Hdata.
        destruct (st0 !! data) as [df |] eqn:Hd;
          [| apply lookup_ge_None in Hd; lia].
        assert (Hd' : st !! data = Some df) by (rewrite Hpre; assumption).
        destruct (analyze_stock_technical_run st data df Hd')
          as (st1 & Hrun & Hkeep & Hgrow).
        rewrite Hrun. exists st1.
        destruct (length (rows df) =? 0)%nat.
        + rewrite app_nil_r. split; [reflexivity |].
          split; [| lia]. intros i Hi. rewrite Hkeep by lia. apply Hpre, Hi.
        + split; [reflexivity |].
          split; [| lia]. intros i Hi. rewrite Hkeep by lia. apply Hpre, Hi.
      - exists st. cbn. rewrite app_nil_r. auto. }
    destruct Hstep as (st1 & -> & Hpre1 & Hlen1).
    destruct (IH (acc ++ match scanned st0 stock_data symbol with
                         | Some row => [row]
                         | None => []
                         end) st1 Hvalid Hpre1 Hlen1)
      as (st' & Hrun & Hpre' & Hlen').
    exists st'. rewrite Hrun. split; [| auto].
    f_equal. f_equal. rewrite <- app_assoc. f_equal.
    change (omap (scanned st0 stock_data) (symbol :: symbols))
      with (match scanned st0 stock_data symbol with
            | Some row => row :: omap (scanned st0 stock_data) symbols
            | None => omap (scanned st0 stock_data) symbols
            end).
    destruct (scanned st0 stock_data symbol); reflexivity.
Qed.

Lemma omap_length_le {A B} (f : A -> option B) (l : list A) :
  (length (omap f l) <= length l)%nat.
Proof.
  induction l as [| x l IH]; [reflexivity |].
  change (omap f (x :: l))
    with (match f x with Some y => y :: omap f l | None => omap f l end).
  destruct (f x); cbn [length]; lia.
Qed.

Lemma omap_filter_Forall2 {A B} (f : A -> option B) (p : A -> bool)
  (l : list A) :
  (forall x, p x = true <-> is_Some (f x)) ->
  Forall2 (fun x y => f x = Some y) (List.filter p l) (omap f l).
Proof.
  intros Hp. induction l as [| x l IH]; [constructor |].
  change (omap f (x :: l))
    with (match f x with Some y => y :: omap f l | None => omap f l end).
  cbn [List.filter]. destruct (f x) as [y |] eqn:E.
  - assert (Hx : p x = true) by (apply Hp; rewrite E; eauto).
    rewrite Hx. constructor; [exact E | exact IH].
  - assert (Hx : p x = false).
    { destruct (p x) eqn:Ep; [| reflexivity].
      apply Hp in Ep. rewrite E in Ep. destruct Ep; discriminate. }
    rewrite Hx. exact IH.
Qed.

Lemma has_bars_scanned st stock_data symbol :
  has_bars st stock_data symbol = true
  <-> is_Some (scanned st stock_data symbol).
Proof.
  unfold has_bars, scanned.
  destruct (stock_data symbol) as [data |];
    [| split; [discriminate | intros [? ?]; discriminate]].
  destruct (st !! data) as [df |];
    [| split; [discriminate | intros [? ?]; discriminate]].
  destruct (length (rows df) =? 0)%nat; cbn [negb].
  - split; [discriminate | intros [? ?]; discriminate].
  - split; [eauto | reflexivity].
Qed.

Lemma scanned_row st stock_data symbol row :
  scanned st stock_data symbol = Some row ->
  exists data df bars,
    stock_data symbol = Some data /\ st !! data = Some df
    /\ rows df <> []
    /\ bars ≡ₚ rows df /\ nondecreasing (map Date bars)
    /\ row = scanner_row symbol (analysis_of bars).
Proof.
  unfold scanned. intros H.
  destruct (stock_data symbol) as [data |]; [| discriminate].
  destruct (st !! data) as [df |] eqn:Hd; [| discriminate].
  destruct (length (rows df) =? 0)%nat eqn:E; [discriminate |].
  injection H as <-.
  destruct (sort_values_Date_rows df) as (Hperm & Hsorted & _).
  exists data, df, (rows (sort_values_Date df)).
  split; [reflexivity |]. split; [exact Hd |].
  split; [intros Hnil; rewrite Hnil in E; discriminate |].
  split; [exact Hperm |]. split; [exact Hsorted | reflexivity].
Qed.

(** X26: the scanner lists the stocks that have data.  When every value
    returned by [fetch_stock_data] is None or a frame of the store, the loop
    of [technical_scanner] ends without an exception; its table holds, in
    the order of the eight default symbols, one row for each symbol whose
    frame has at least one bar.  The row of a symbol is filled from the
    analysis of the bars of its frame put in date order (bars of the same
    date in some order); and every frame that was in the store is left
    unchanged. *)
Theorem technical_scanner_rows
  (stock_data : string -> option nat) (st : Store) :
  (forall symbol data, stock_data symbol = Some data ->
                       (data < length st)%nat) ->
  exists scanner_results st',
    technical_scanner stock_data st = (Ok scanner_results, st')
    /\ Forall2
         (fun symbol row =>
            exists data df bars,
              stock_data symbol = Some data /\ st !! data = Some df
              /\ rows df <> []
              /\ bars ≡ₚ rows df /\ nondecreasing (map Date bars)
              /\ row = scanner_row symbol (analysis_of bars))
         (List.filter (has_bars st stock_data) default_stocks)
         scanner_results
    /\ (length scanner_results <= 8)%nat
    /\ (forall i, (i < length st)%nat -> st' !! i = st !! i).
Proof.
  intros Hvalid.
  destruct (scanner_loop stock_data st default_stocks [] st Hvalid
              ltac:(reflexivity) ltac:(lia)) as (st' & Hrun & Hpre & _).
  exists (omap (scanned st stock_data) default_stocks), st'.
  split; [exact Hrun |]. split; [| split; [| exact Hpre]].
  - eapply Forall2_impl.
    + apply omap_filter_Forall2. intros x. apply has_bars_scanned.
    + intros symbol row H. apply scanned_row in H. exact H.
  - apply (omap_length_le (scanned st stock_data) default_stocks).
Qed.

Lemma technical_scanner_rows_witness :
  exists scanner_results st',
    technical_scanner
      (fun symbol => if String.eqb symbol "TCS.NS" then Some 0%nat else None)
      [short_frame]
    = (Ok scanner_results, st')
    /\ (length scanner_results <= 8)%nat.
Proof.
  destruct (technical_scanner_rows
              (fun symbol => if String.eqb symbol "TCS.NS" then Some 0%nat
                             else None) [short_frame])
    as (out & st' & H1 & _ & H2 & _).
  - intros symbol data H. destruct (String.eqb symbol "TCS.NS");
      [injection H as <-; simpl; lia | discriminate].
  - exists out, st'. split; [exact H1 | exact H2].
Defined.

(** ** Volume average and spikes, bar by bar *)

Lemma map_of_Z volume : map of_Z volume = map Fin (map inject_Z volume).
Proof. rewrite map_map. reflexivity. Qed.

Lemma volume_ma_lookup volume i :
  (i < length volume)%nat ->
  volume_ma volume !! i
  = Some (if (S i <? 20)%nat then NaN
          else Fin (Qmean (map inject_Z (take 20 (drop (S i - 20) volume))))).
Proof.
  intros Hi. unfold volume_ma.
  rewrite rolling_lookup by (rewrite length_map; exact Hi).
  destruct (Nat.ltb_spec (S i) 20) as [Hlt | Hge]; [reflexivity |].
  rewrite map_of_Z, window_Fin, nmean_Fin.
  - change (map inject_Z volume) with (inject_Z <$> volume).
    rewrite <- fmap_drop, <- fmap_take. reflexivity.
  - rewrite window_length; [lia | lia |]. rewrite length_map. exact Hi.
Qed.

(** X27: the volume average and the spikes, bar by bar.  'Volume_MA' is
    NaN and 'Volume_Spike' is False on the first 19 bars; from the 20th bar
    on the average is the mean of the last 20 volumes, the bar included, and
    the bar is a spike exactly when its volume is more than twice that
    average. *)
Theorem volume_spikes_bar_by_bar
  (df df' : DataFrame) (v : VolumeResult) (i : nat) (b : Bar) :
  analyze_volume df = (Ok v, df') ->
  rows df !! i = Some b ->
  exists ma spikes,
    cols df' !! "Volume_MA" = Some (NumCol ma)
    /\ cols df' !! "Volume_Spike" = Some (BoolCol spikes)
    /\ ((S i < 20)%nat -> ma !! i = Some NaN /\ spikes !! i = Some false)
    /\ ((20 <= S i)%nat ->
        exists m,
          m = Qmean (map inject_Z
                       (take 20 (drop (S i - 20) (map Volume (rows df)))))
          /\ ma !! i = Some (Fin m)
          /\ (spikes !! i = Some true <-> 2 * m < inject_Z (Volume b))
          /\ (spikes !! i = Some false <-> inject_Z (Volume b) <= 2 * m)).
Proof.
  intros H Hb. apply analyze_volume_inv in H as (-> & -> & Hn).
  set (volume := map Volume (rows df)).
  assert (Hi : (i < length volume)%nat).
  { subst volume. rewrite length_map. apply lookup_lt_Some in Hb. exact Hb. }
  assert (Hv : volume !! i = Some (Volume b)).
  { subst volume. change (map Volume (rows df)) with (Volume <$> rows df).
    rewrite list_lookup_fmap, Hb. reflexivity. }
  exists (volume_ma volume), (volume_spikes volume).
  split.
  { unfold volume_frame. cbn [cols].
    rewrite lookup_insert_ne by discriminate.
    rewrite lookup_insert_ne by discriminate. apply lookup_insert_eq. }
  split.
  { unfold volume_frame. cbn [cols].
    rewrite lookup_insert_ne by discriminate. apply lookup_insert_eq. }
  pose proof (volume_ma_lookup volume i Hi) as Hma.
  assert (Hsp : volume_spikes volume !! i
                = Some (match volume_ma volume !! i with
                        | Some m => (of_Z (Volume b) >? Fin 2 * m)%num
                        | None => false
                        end)).
  { unfold volume_spikes. rewrite lookup_zip_with, Hv, Hma. reflexivity. }
  rewrite Hma in Hsp.
  split.
  - intros Hs. destruct (Nat.ltb_spec (S i) 20) as [_ | Hge]; [| lia].
    split; [exact Hma | exact Hsp].
  - intros Hs. destruct (Nat.ltb_spec (S i) 20) as [Hlt | _]; [lia |].
    eexists. split; [reflexivity |]. split; [exact Hma |].
    rewrite Hsp. unfold of_Z, ngt, nlt, nmul.
    set (m := Qmean _).
    destruct (Qltb (2 * m) (inject_Z (Volume b))) eqn:E.
    + apply Qltb_lt in E. split; split; intros; try reflexivity;
        try discriminate; try assumption; lra.
    + apply Qltb_nlt in E. split; split; intros; try reflexivity;
        try discriminate; try assumption; lra.
Qed.

Lemma volume_spikes_bar_by_bar_witness :
  exists ma spikes,
    cols (volume_frame short_frame) !! "Volume_MA" = Some (NumCol ma)
    /\ cols (volume_frame short_frame) !! "Volume_Spike"
       = Some (BoolCol spikes)
    /\ ma !! 0%nat = Some NaN /\ spikes !! 0%nat = Some false.
Proof.
  destruct (volume_spikes_bar_by_bar short_frame (volume_frame short_frame)
              (volume_of (rows short_frame)) 0%nat (mkBar 1 10 11 9 10 100))
    as (ma & spikes & H1 & H2 & H3 & _).
  - apply analyze_volume_run. simpl. lia.
  - reflexivity.
  - exists ma, spikes. split; [exact H1 |]. split; [exact H2 |].
    apply H3. lia.
Defined.

(** ** The Bollinger entry agrees with itself *)

Lemma results_bb_signal bars :
  (0 < length bars)%nat ->
  bb_signal (bollinger_bands (results_of bars))
  = (if (Fin (current_price (results_of bars))
         <=? lower (bollinger_bands (results_of bars)))%num
     then "Oversold"
     else if (Fin (current_price (results_of bars))
              >=? upper (bollinger_bands (results_of bars)))%num
     then "Overbought" else "Neutral").
Proof.
  intros Hn. unfold results_of.
  cbn [bollinger_bands bb_signal current_price lower upper].
  set (close := map Close bars).
  assert (Hc : length close = length bars) by apply length_map.
  rewrite !last_lookup, bb_labels_length, bb_upper_length, bb_lower_length.
  set (k := pred (length close)).
  destruct (close !! k) as [c |] eqn:Ec;
    [| apply lookup_ge_None in Ec; lia].
  destruct (bb_upper 20 2 close !! k) as [u |] eqn:Eu;
    [| apply lookup_ge_None in Eu; rewrite bb_upper_length in Eu; lia].
  destruct (bb_lower 20 2 close !! k) as [l |] eqn:El;
    [| apply lookup_ge_None in El; rewrite bb_lower_length in El; lia].
  rewrite (bb_labels_lookup 20 2 close k c u l Ec Eu El). reflexivity.
Qed.

(** X28: the Bollinger entry of the results is coherent.  The middle band
    is the 20-bar average reported as 'sma_20'.  The signal is "Oversold"
    exactly when the price is at or below the lower band, "Overbought"
    exactly when it is at or above the upper band and not at or below the
    lower one, and "Neutral" otherwise.  An "Overbought" signal has the
    upper-band interpretation, a "Neutral" one the "Price at ..% of band
    range" text; an "Oversold" signal has the lower-band interpretation
    unless the price is also at or above the upper band, where the
    interpretation reads "Overbought". *)
Theorem bollinger_result_coherent (df df' : DataFrame) (a : Analysis) :
  calculate_all_indicators df = (Ok a, df') ->
  middle (bollinger_bands (results a)) = sma_20 (results a)
  /\ (bb_signal (bollinger_bands (results a)) = "Oversold"
      <-> (Fin (current_price (results a))
           <=? lower (bollinger_bands (results a)))%num = true)
  /\ (bb_signal (bollinger_bands (results a)) = "Overbought"
      <-> (Fin (current_price (results a))
           <=? lower (bollinger_bands (results a)))%num = false
          /\ (Fin (current_price (results a))
              >=? upper (bollinger_bands (results a)))%num = true)
  /\ (bb_signal (bollinger_bands (results a)) = "Overbought" ->
      bb_interpretation (bollinger_bands (results a))
      = "Price at upper band - Overbought condition")
  /\ (bb_signal (bollinger_bands (results a)) = "Oversold" ->
      bb_interpretation (bollinger_bands (results a))
      = (if (Fin (current_price (results a))
             >=? upper (bollinger_bands (results a)))%num
         then "Price at upper band - Overbought condition"
         else "Price at lower band - Oversold condition"))
  /\ (bb_signal (bollinger_bands (results a)) = "Neutral" ->
      exists pct,
        bb_interpretation (bollinger_bands (results a))
        = "Price at " +:+ format_0f pct +:+ "% of band range").
Proof.
  intros H. apply calculate_all_indicators_inv in H as [-> Hn].
  cbn [results analysis_of].
  pose proof (results_bb_signal (rows df) Hn) as Hsig.
  assert (Hint : bb_interpretation (bollinger_bands (results_of (rows df)))
                 = _interpret_bb (current_price (results_of (rows df)))
                     (upper (bollinger_bands (results_of (rows df))))
                     (lower (bollinger_bands (results_of (rows df)))))
    by reflexivity.
  split; [reflexivity |].
  rewrite Hsig, Hint. unfold _interpret_bb.
  set (p := current_price (results_of (rows df))).
  set (u := upper (bollinger_bands (results_of (rows df)))).
  set (l := lower (bollinger_bands (results_of (rows df)))).
  destruct (Fin p <=? l)%num eqn:E1; destruct (Fin p >=? u)%num eqn:E2;
    repeat split; intros; try discriminate; try reflexivity;
    try (eexists; reflexivity);
    try match goal with H : _ /\ _ |- _ => destruct H; discriminate end.
Qed.

Lemma bollinger_result_coherent_witness :
  middle (bollinger_bands (results (analysis_of (rows short_frame))))
  = sma_20 (results (analysis_of (rows short_frame))).
Proof.
  refine (proj1 (bollinger_result_coherent short_frame
                   (indicator_frame short_frame) _ _)).
  apply calculate_all_indicators_run. simpl. lia.
Defined.

(** ** Rounding to binary64 *)

Lemma pow2_pos (e : Z) : 0 < 2 ^ e.
Proof. apply Qpower_0_lt. reflexivity. Qed.

Lemma pow2_succ (e : Z) : 2 ^ (e + 1) == 2 * 2 ^ e.
Proof. rewrite Qpower_plus by discriminate. rewrite Qpower_1_r. ring. Qed.

Lemma pow2_lt (a b : Z) : (a < b)%Z -> 2 ^ a < 2 ^ b.
Proof. intros H. apply Qpower_lt_compat_l; [exact H | reflexivity]. Qed.

Lemma pow2_le (a b : Z) : (a <= b)%Z -> 2 ^ a <= 2 ^ b.
Proof. intros H. apply Qpower_le_compat_l; [exact H | discriminate]. Qed.

Lemma pow2_inject (n : Z) : (0 <= n)%Z -> inject_Z (2 ^ n) == 2 ^ n.
Proof. intros H. apply (Zpower_Qpower 2 n H). Qed.

Lemma floor_log2_spec (a : Q) :
  0 < a -> 2 ^ floor_log2 a <= a /\ a < 2 ^ (floor_log2 a + 1).
Proof.
  intros Ha. unfold floor_log2.
  set (n := Qnum a). set (d := QDen a).
  assert (Hn : (0 < n)%Z).
  { unfold Qlt in Ha. cbn in Ha. subst n. lia. }
  assert (Hd : (0 < d)%Z) by (subst d; lia).
  destruct (Z.log2_spec n Hn) as [Hn1 Hn2].
  destruct (Z.log2_spec d Hd) as [Hd1 Hd2].
  pose proof (Z.log2_nonneg n) as Hln. pose proof (Z.log2_nonneg d) as Hld.
  set (e := (Z.log2 n - Z.log2 d)%Z).
  assert (Ea : a == inject_Z n / inject_Z d).
  { subst n d. destruct a as [an ad]. cbn [Qnum Qden]. apply Qmake_Qdiv. }
  assert (Hdq : 0 < inject_Z d).
  { change 0 with (inject_Z 0). rewrite <- Zlt_Qlt. exact Hd. }
  assert (Pn1 : 2 ^ Z.log2 n <= inject_Z n).
  { rewrite <- pow2_inject by exact Hln. rewrite <- Zle_Qle. exact Hn1. }
  assert (Pn2 : inject_Z n < 2 ^ (Z.log2 n + 1)).
  { rewrite <- pow2_inject by lia. rewrite <- Zlt_Qlt.
    replace (Z.log2 n + 1)%Z with (Z.succ (Z.log2 n)) by lia. exact Hn2. }
  assert (Pd1 : 2 ^ Z.log2 d <= inject_Z d).
  { rewrite <- pow2_inject by exact Hld. rewrite <- Zle_Qle. exact Hd1. }
  assert (Pd2 : inject_Z d < 2 ^ (Z.log2 d + 1)).
  { rewrite <- pow2_inject by lia. rewrite <- Zlt_Qlt.
    replace (Z.log2 d + 1)%Z with (Z.succ (Z.log2 d)) by lia. exact Hd2. }
  assert (Hup : a < 2 ^ (e + 1)).
  { rewrite Ea. apply Qlt_shift_div_r; [exact Hdq |].
    apply Qlt_le_trans with (2 ^ (Z.log2 n + 1)); [exact Pn2 |].
    replace (Z.log2 n + 1)%Z with ((e + 1) + Z.log2 d)%Z by (subst e; lia).
    rewrite Qpower_plus by discriminate.
    apply Qmult_le_l; [apply pow2_pos | exact Pd1]. }
  assert (Hlo : 2 ^ (e - 1) < a).
  { rewrite Ea. apply Qlt_shift_div_l; [exact Hdq |].
    assert (El : Z.log2 n = (e - 1 + (Z.log2 d + 1))%Z) by (subst e; lia).
    apply Qlt_le_trans with (2 ^ (e - 1) * 2 ^ (Z.log2 d + 1)).
    - apply Qmult_lt_l; [apply pow2_pos | exact Pd2].
    - rewrite <- Qpower_plus by discriminate. rewrite <- El. exact Pn1. }
  destruct (Qleb (2 ^ e) a) eqn:E.
  - apply Qleb_le in E. split; assumption.
  - apply Qleb_nle in E. replace (e - 1 + 1)%Z with e by lia.
    split; [apply Qlt_le_weak; exact Hlo | exact E].
Qed.

Lemma floor_log2_unique (a : Q) (k : Z) :
  2 ^ k <= a -> a < 2 ^ (k + 1) -> floor_log2 a = k.
Proof.
  intros H1 H2.
  assert (Ha : 0 < a) by (eapply Qlt_le_trans; [apply (pow2_pos k) | exact H1]).
  destruct (floor_log2_spec a Ha) as [F1 F2].
  assert (L1 : (k < floor_log2 a + 1)%Z).
  { apply (Qpower_lt_compat_l_inv 2); [| reflexivity].
    eapply Qle_lt_trans; [exact H1 | exact F2]. }
  assert (L2 : (floor_log2 a < k + 1)%Z).
  { apply (Qpower_lt_compat_l_inv 2); [| reflexivity].
    eapply Qle_lt_trans; [exact F1 | exact H2]. }
  lia.
Qed.

Lemma floor_log2_Qeq (a a' : Q) : 0 < a -> a == a' -> floor_log2 a = floor_log2 a'.
Proof.
  intros Ha E. destruct (floor_log2_spec a Ha) as [F1 F2].
  symmetry. apply floor_log2_unique; rewrite <- E; assumption.
Qed.

Lemma round_half_even_Qeq (q q' : Q) :
  q == q' -> round_half_even q = round_half_even q'.
Proof.
  intros E. unfold round_half_even.
  rewrite (Qfloor_comp q q' E).
  assert (E1 : Qltb (q - inject_Z (Qfloor q')) (1 # 2)
               = Qltb (q' - inject_Z (Qfloor q')) (1 # 2)).
  { destruct (Qltb (q' - _) _) eqn:E2.
    - apply Qltb_lt. apply Qltb_lt in E2. rewrite E. exact E2.
    - apply Qltb_nlt. apply Qltb_nlt in E2. rewrite E. exact E2. }
  assert (E3 : Qltb (1 # 2) (q - inject_Z (Qfloor q'))
               = Qltb (1 # 2) (q' - inject_Z (Qfloor q'))).
  { destruct (Qltb _ (q' - _)) eqn:E2.
    - apply Qltb_lt. apply Qltb_lt in E2. rewrite E. exact E2.
    - apply Qltb_nlt. apply Qltb_nlt in E2. rewrite E. exact E2. }
  rewrite E1, E3. reflexivity.
Qed.

Lemma round_half_even_Z (z : Z) : round_half_even (inject_Z z) = z.
Proof.
  unfold round_half_even. rewrite Qfloor_Z.
  assert (E : Qltb (inject_Z z - inject_Z z) (1 # 2) = true).
  { apply Qltb_lt. lra. }
  rewrite E. reflexivity.
Qed.

Lemma round_magnitude_Qeq (a a' : Q) :
  0 < a -> a == a' -> round_magnitude a == round_magnitude a'.
Proof.
  intros Ha E. unfold round_magnitude.
  rewrite <- (floor_log2_Qeq a a' Ha E).
  set (ulp := 2 ^ (Z.max (floor_log2 a) (-1022) - 52)).
  rewrite (round_half_even_Qeq (a / ulp) (a' / ulp)); [reflexivity |].
  rewrite E. reflexivity.
Qed.


Lemma Qdiv_unique (x y z : Q) : ~ y == 0 -> x == z * y -> x / y == z.
Proof. intros Hy E. rewrite E. field. exact Hy. Qed.

(** A rounded magnitude is a binary64 magnitude: rounding it again changes
    nothing. *)
Lemma round_magnitude_idempotent (a : Q) :
  0 < a -> 0 < round_magnitude a ->
  round_magnitude (round_magnitude a) == round_magnitude a.
Proof.
  intros Ha Hr.
  destruct (floor_log2_spec a Ha) as [F1 F2].
  unfold round_magnitude at 2 3. unfold round_magnitude in Hr.
  set (E := floor_log2 a) in *.
  set (e := Z.max E (-1022)) in *.
  set (ulp := 2 ^ (e - 52)) in *.
  set (m := round_half_even (a / ulp)) in *.
  assert (Hulp : 0 < ulp) by apply pow2_pos.
  assert (Hm0 : (0 < m)%Z).
  { destruct (Z_lt_le_dec 0 m) as [Hpos | Hneg]; [exact Hpos |].
    rewrite Zle_Qle in Hneg. change (inject_Z 0) with 0 in Hneg. nra. }
  assert (Hq : a / ulp < inject_Z (2 ^ 53)).
  { apply Qlt_shift_div_r; [exact Hulp |].
    eapply Qlt_le_trans; [exact F2 |].
    rewrite (pow2_inject 53) by lia. subst ulp.
    rewrite <- Qpower_plus by discriminate. apply pow2_le. lia. }
  assert (Hm1 : (m <= 2 ^ 53)%Z).
  { apply (round_half_even_bounds (a / ulp) 0 (2 ^ 53)).
    - apply Qle_shift_div_l; [exact Hulp |]. change (inject_Z 0) with 0. lra.
    - apply Qlt_le_weak, Hq. }
  assert (Hm2 : (-1022 <= E)%Z -> (2 ^ 52 <= m)%Z).
  { intros HE.
    apply (round_half_even_bounds (a / ulp) (2 ^ 52) (2 ^ 53)).
    - apply Qle_shift_div_l; [exact Hulp |].
      rewrite (pow2_inject 52) by lia. subst ulp.
      rewrite <- Qpower_plus by discriminate.
      replace (52 + (e - 52))%Z with E by lia. exact F1.
    - apply Qlt_le_weak, Hq. }
  assert (Hscale : forall k : Z, (0 <= k)%Z ->
            inject_Z (2 ^ k) * ulp == 2 ^ (e - 52 + k)).
  { intros k Hk. rewrite (pow2_inject k Hk). subst ulp.
    rewrite <- Qpower_plus by discriminate.
    replace (k + (e - 52))%Z with (e - 52 + k)%Z by lia. reflexivity. }
  destruct (Z.eq_dec m (2 ^ 53)%Z) as [Em | Nm].
  - (* the rounding reached the next power of two *)
    assert (Er : inject_Z m * ulp == 2 ^ (e + 1)).
    { rewrite Em, (Hscale 53%Z) by lia.
      replace (e - 52 + 53)%Z with (e + 1)%Z by lia. reflexivity. }
    unfold round_magnitude.
    assert (El : floor_log2 (inject_Z m * ulp) = (e + 1)%Z).
    { apply floor_log2_unique; rewrite Er;
        [apply Qle_refl | apply pow2_lt; lia]. }
    rewrite El. replace (Z.max (e + 1) (-1022)) with (e + 1)%Z by lia.
    assert (E2 : inject_Z (2 ^ 52) * 2 ^ (e + 1 - 52) == 2 ^ (e + 1)).
    { rewrite (pow2_inject 52) by lia.
      rewrite <- Qpower_plus by discriminate.
      replace (52 + (e + 1 - 52))%Z with (e + 1)%Z by lia. reflexivity. }
    rewrite (round_half_even_Qeq _ (inject_Z (2 ^ 52))).
    + rewrite round_half_even_Z, Er. exact E2.
    + apply Qdiv_unique.
      * apply Qpower_not_0. discriminate.
      * rewrite Er, E2. reflexivity.
  - (* the exponent is kept *)
    assert (Hlt : inject_Z m * ulp < 2 ^ (e + 1)).
    { replace (e + 1)%Z with (e - 52 + 53)%Z by lia.
      rewrite <- (Hscale 53%Z) by lia.
      apply Qmult_lt_compat_r; [exact Hulp |].
      rewrite <- Zlt_Qlt. lia. }
    assert (He : Z.max (floor_log2 (inject_Z m * ulp)) (-1022) = e).
    { destruct (Z_le_gt_dec (-1022) E) as [HE | HE].
      - assert (Hge : 2 ^ e <= inject_Z m * ulp).
        { replace e with (e - 52 + 52)%Z at 1 by lia.
          rewrite <- (Hscale 52%Z) by lia.
          apply Qmult_le_compat_r; [| apply Qlt_le_weak, Hulp].
          rewrite <- Zle_Qle. apply Hm2, HE. }
        rewrite (floor_log2_unique _ e Hge Hlt). lia.
      - assert (Ee : e = (-1022)%Z) by lia.
        destruct (floor_log2_spec _ Hr) as [G1 _].
        assert (L : (floor_log2 (inject_Z m * ulp) < e + 1)%Z).
        { apply (Qpower_lt_compat_l_inv 2); [| reflexivity].
          eapply Qle_lt_trans; [exact G1 | exact Hlt]. }
        lia. }
    unfold round_magnitude. rewrite He. fold ulp.
    rewrite (round_half_even_Qeq _ (inject_Z m)).
    + rewrite round_half_even_Z. reflexivity.
    + apply Qdiv_unique; [| reflexivity].
      intros H0. rewrite H0 in Hulp. discriminate.
Qed.

Lemma round_magnitude_nonneg (a : Q) : 0 < a -> 0 <= round_magnitude a.
Proof.
  intros Ha. unfold round_magnitude.
  set (ulp := 2 ^ (Z.max (floor_log2 a) (-1022) - 52)).
  assert (Hulp : 0 < ulp) by apply pow2_pos.
  apply Qmult_le_0_compat; [| apply Qlt_le_weak, Hulp].
  change 0 with (inject_Z 0). rewrite <- Zle_Qle.
  unfold round_half_even.
  assert (Hq : 0 <= a / ulp) by (apply Qle_shift_div_l; [exact Hulp | lra]).
  assert (Hf : (0 <= Qfloor (a / ulp))%Z).
  { rewrite <- (Qfloor_Z 0). apply Qfloor_resp_le. exact Hq. }
  qcases; try destruct (Z.even _); lia.
Qed.

Lemma Qleb_Qeq (x y y' : Q) : y == y' -> Qleb x y = Qleb x y'.
Proof.
  intros E. destruct (Qleb x y') eqn:E1.
  - apply Qleb_le. apply Qleb_le in E1. rewrite E. exact E1.
  - apply Qleb_nle. apply Qleb_nle in E1. rewrite E. exact E1.
Qed.

(** Rounding is idempotent: a value of [round64] is a binary64 number. *)
Lemma round64_binary64 (q r : Q) : round64 q = Fin r -> binary64 r.
Proof.
  unfold binary64. intros H. unfold round64 in H.
  destruct (Qeqb (Qred q) 0) eqn:E0.
  { injection H as <-. reflexivity. }
  assert (N0 : ~ Qred q == 0).
  { intros H0. apply Qeqb_eq in H0. congruence. }
  set (a := Qabs (Qred q)) in *.
  assert (Ha : 0 < a).
  { subst a. pose proof (Qabs_nonneg (Qred q)) as H0.
    apply Qle_lteq in H0 as [H0 | H0]; [exact H0 |].
    exfalso. apply N0. symmetry in H0.
    destruct (Qabs_Qle_condition (Qred q) 0) as [Hc _].
    assert (Hle : Qabs (Qred q) <= 0) by (rewrite H0; apply Qle_refl).
    specialize (Hc Hle). lra. }
  set (m := round_magnitude a) in *.
  pose proof (round_magnitude_nonneg a Ha) as Hm0. fold m in Hm0.
  destruct (Qleb (2 ^ 1024) m) eqn:Eo.
  { destruct (Qltb (Qred q) 0); discriminate. }
  injection H as <-.
  set (s := if Qltb (Qred q) 0 then - m else m).
  apply Qle_lteq in Hm0 as [Hm0 | Hm0].
  - (* a non-zero result *)
    assert (Hs : Qabs (Qred s) == m).
    { rewrite (Qred_correct s). subst s.
      destruct (Qltb (Qred q) 0).
      - rewrite Qabs_opp. apply Qabs_pos. lra.
      - apply Qabs_pos. lra. }
    assert (Hsign : Qltb (Qred s) 0 = Qltb (Qred q) 0).
    { subst s. destruct (Qltb (Qred q) 0).
      - apply Qltb_lt. rewrite Qred_correct. lra.
      - apply Qltb_nlt. rewrite Qred_correct. lra. }
    assert (Hab : 0 < Qabs (Qred s)) by (rewrite Hs; exact Hm0).
    assert (Hrm : round_magnitude (Qabs (Qred s)) == m).
    { rewrite (round_magnitude_Qeq _ m Hab Hs).
      apply round_magnitude_idempotent; assumption. }
    unfold round64. rewrite (Qred_complete (Qred s) s (Qred_correct s)).
    assert (E1 : Qeqb (Qred s) 0 = false).
    { destruct (Qeqb (Qred s) 0) eqn:E1; [| reflexivity].
      apply Qeqb_eq in E1. rewrite E1 in Hab. discriminate. }
    rewrite E1, (Qleb_Qeq _ _ m Hrm), Eo, Hsign. f_equal.
    apply Qred_complete. subst s.
    destruct (Qltb (Qred q) 0); rewrite Hrm; reflexivity.
  - (* the result is zero *)
    assert (Es : Qred s = 0).
    { change 0 with (Qred 0). apply Qred_complete. subst s.
      destruct (Qltb (Qred q) 0); rewrite <- Hm0; reflexivity. }
    rewrite Es. reflexivity.
Qed.

Lemma fl_binary64 (x : num) (r : Q) : fl x = Fin r -> binary64 r.
Proof.
  destruct x as [| | q |]; cbn [fl]; try discriminate.
  apply round64_binary64.
Qed.

Lemma mean64_binary64 (xs : list Q) (r : Q) : mean64 xs = Fin r -> binary64 r.
Proof. unfold mean64, fdiv. apply fl_binary64. Qed.

(** The fuel of [pairwise_sum] is enough: more of it changes nothing. *)
Lemma pairwise_sum_rec_fuel (fuel : nat) : forall (fuel' : nat) (a : list Q),
  (length a <= fuel)%nat -> (length a <= fuel')%nat ->
  pairwise_sum_rec fuel a = pairwise_sum_rec fuel' a.
Proof.
  induction fuel as [| fuel IH]; intros fuel' a H1 H2.
  - destruct a; [| cbn in H1; lia]. destruct fuel'; reflexivity.
  - destruct fuel' as [| fuel'].
    + destruct a; [reflexivity | cbn in H2; lia].
    + cbn [pairwise_sum_rec].
      destruct (length a <? 8)%nat; [reflexivity |].
      destruct (Nat.leb_spec (length a) 128) as [Hle | Hgt]; [reflexivity |].
      set (n2 := (length a / 2 - (length a / 2) mod 8)%nat).
      assert (Hn2 : (57 <= n2 < length a)%nat).
      { subst n2.
        pose proof (Nat.div_mod_eq (length a) 2) as D.
        pose proof (Nat.mod_upper_bound (length a) 2 ltac:(lia)) as M.
        pose proof (Nat.mod_upper_bound (length a / 2) 8 ltac:(lia)) as M8.
        lia. }
      rewrite (IH fuel' (take n2 a)), (IH fuel' (drop n2 a));
        rewrite ?length_take, ?length_drop; try lia.
      reflexivity.
Qed.

Lemma pairwise_sum_enough (fuel : nat) (a : list Q) :
  (length a <= fuel)%nat -> pairwise_sum_rec fuel a = pairwise_sum a.
Proof. intros H. apply pairwise_sum_rec_fuel; [exact H | lia]. Qed.

(** ** Clustering in float64 *)

Lemma round64_Qeq (q q' : Q) : q == q' -> round64 q = round64 q'.
Proof. intros H. unfold round64. rewrite (Qred_complete q q' H). reflexivity. Qed.

Lemma fadd_zero (x : Q) : binary64 x -> fadd (Fin 0) (Fin x) = Fin x.
Proof.
  intros Hx. unfold fadd, nadd, fl. rewrite (round64_Qeq (0 + x) x) by ring.
  exact Hx.
Qed.

Lemma fdiv_one (x : Q) : binary64 x -> fdiv (Fin x) (of_nat 1) = Fin x.
Proof.
  intros Hx. unfold fdiv, of_nat, ndiv, fl. cbn [Qeqb].
  change (Qeqb (inject_Z (Z.of_nat 1)) 0) with false. cbv iota.
  rewrite (round64_Qeq (x / inject_Z (Z.of_nat 1)) x); [exact Hx |].
  change (inject_Z (Z.of_nat 1)) with 1. field.
Qed.

Lemma mean64_singleton (x : Q) : binary64 x -> mean64 [x] = Fin x.
Proof.
  intros Hx. unfold mean64, pairwise_sum. cbn [length pairwise_sum_rec].
  change (1 <? 8)%nat with true. cbv iota. cbn [fold_left].
  rewrite (fadd_zero x Hx). apply fdiv_one, Hx.
Qed.

Lemma fold_cluster_from64 tol rest : forall clusters cur,
  (let '(clusters', cur') :=
     fold_left (cluster_step64 tol) rest (clusters, cur)
   in clusters' ++ [mean64 cur'])
  = clusters ++ cluster_from64 tol cur rest.
Proof.
  induction rest as [| y rest IH]; intros clusters cur; [reflexivity |].
  cbn [fold_left cluster_from64]. unfold cluster_step64 at 2.
  destruct (near64 tol (mean64 cur) y).
  - apply IH.
  - rewrite IH, <- app_assoc. reflexivity.
Qed.

Lemma cluster_levels64_from levels tol :
  cluster_levels64 levels tol
  = match sorted levels with
    | [] => []
    | level0 :: rest => cluster_from64 tol [level0] rest
    end.
Proof.
  unfold cluster_levels64.
  destruct levels as [| x levels]; [reflexivity |].
  cbn [length Nat.eqb].
  destruct (sorted (x :: levels)) as [| level0 rest]; [reflexivity |].
  pose proof (fold_cluster_from64 tol rest [] [level0]) as H.
  destruct (fold_left (cluster_step64 tol) rest ([], [level0])) as [cl cur].
  exact H.
Qed.

Lemma cluster_from64_length tol rest : forall cur,
  (1 <= length (cluster_from64 tol cur rest) <= S (length rest))%nat.
Proof.
  induction rest as [| y rest IH]; intros cur; cbn [cluster_from64 length].
  - lia.
  - destruct (near64 tol (mean64 cur) y); cbn [length].
    + specialize (IH (cur ++ [y])). lia.
    + specialize (IH [y]). lia.
Qed.

Lemma cluster_levels64_length levels tol :
  (length (cluster_levels64 levels tol) <= length levels)%nat.
Proof.
  rewrite cluster_levels64_from. rewrite <- (sorted_length levels).
  destruct (sorted levels) as [| l0 rest]; [reflexivity |].
  cbn [length]. apply cluster_from64_length.
Qed.

Lemma cluster_from64_unmerged tol rest : forall l0,
  Forall binary64 (l0 :: rest) ->
  cluster_from64 tol [l0] rest = map Fin (l0 :: rest)
  <-> unmerged tol (l0 :: rest).
Proof.
  induction rest as [| b rest IH]; intros l0 Hf.
  - apply Forall_cons in Hf as [H0 _]. cbn [cluster_from64 map unmerged].
    rewrite (mean64_singleton l0 H0). tauto.
  - apply Forall_cons in Hf as [H0 Hf].
    cbn [cluster_from64]. rewrite (mean64_singleton l0 H0).
    change (unmerged tol (l0 :: b :: rest))
      with (near64 tol (Fin l0) b = false /\ unmerged tol (b :: rest)).
    destruct (near64 tol (Fin l0) b) eqn:E.
    + split; [| intros [? _]; discriminate].
      intros Heq. apply (f_equal length) in Heq.
      pose proof (cluster_from64_length tol rest ([l0] ++ [b])) as Hlen.
      rewrite Heq in Hlen. cbn [map length] in Hlen. rewrite length_map in Hlen.
      lia.
    + specialize (IH b Hf). split.
      * intros Heq. cbn [map] in Heq. injection Heq as Heq.
        split; [reflexivity |]. apply IH. exact Heq.
      * intros [_ Hu]. apply IH in Hu. cbn [map]. rewrite Hu. reflexivity.
Qed.

Lemma map_Fin_inj (l l' : list Q) : map Fin l = map Fin l' -> l = l'.
Proof.
  revert l'. induction l as [| x l IH]; intros [| y l'] H;
    try discriminate; [reflexivity |].
  cbn [map] in H. injection H as -> H. rewrite (IH l' H). reflexivity.
Qed.

Lemma cluster_from64_kept tol rest : forall l0,
  Forall binary64 (l0 :: rest) ->
  (length (l0 :: rest) <= length (cluster_from64 tol [l0] rest))%nat ->
  cluster_from64 tol [l0] rest = map Fin (l0 :: rest).
Proof.
  induction rest as [| b rest IH]; intros l0 Hs Hn.
  - apply Forall_cons in Hs as [H0 _]. cbn [cluster_from64 map].
    rewrite (mean64_singleton l0 H0). reflexivity.
  - apply Forall_cons in Hs as [H0 Hs]. cbn [cluster_from64] in *.
    rewrite (mean64_singleton l0 H0) in *.
    destruct (near64 tol (Fin l0) b).
    + pose proof (cluster_from64_length tol rest ([l0] ++ [b])) as Hl.
      cbn [length] in Hn. lia.
    + cbn [map]. f_equal. apply IH; [exact Hs |].
      cbn [length] in Hn |- *. lia.
Qed.

Lemma cluster_levels64_kept levels tol :
  Forall binary64 levels -> ascending levels ->
  length (cluster_levels64 levels tol) = length levels ->
  cluster_levels64 levels tol = map Fin levels.
Proof.
  intros Hf Hasc. rewrite cluster_levels64_from, (sorted_fixed levels Hasc).
  destruct levels as [| l0 rest]; [reflexivity |].
  intros Hlen. apply cluster_from64_kept; [exact Hf | lia].
Qed.

Lemma cluster_levels64_fixed levels tol :
  Forall binary64 levels ->
  cluster_levels64 levels tol = map Fin levels
  <-> ascending levels /\ unmerged tol levels.
Proof.
  intros Hf. rewrite cluster_levels64_from. split.
  - intros Heq.
    pose proof (sorted_Forall binary64 levels Hf) as Hs.
    pose proof (sorted_length levels) as Hlen.
    pose proof (sorted_ascending levels) as Hasc.
    destruct (sorted levels) as [| l0 rest] eqn:Es.
    + destruct levels; [split; exact I | discriminate].
    + assert (Hn : (length (l0 :: rest)
                    <= length (cluster_from64 tol [l0] rest))%nat).
      { rewrite Heq, length_map. lia. }
      pose proof (cluster_from64_kept tol rest l0 Hs Hn) as Hm.
      assert (El : l0 :: rest = levels).
      { apply map_Fin_inj. rewrite <- Hm. exact Heq. }
      rewrite <- El. split; [exact Hasc |].
      apply cluster_from64_unmerged; assumption.
  - intros [Hasc Hu]. rewrite (sorted_fixed levels Hasc).
    destruct levels as [| l0 rest]; [reflexivity |].
    apply cluster_from64_unmerged; assumption.
Qed.

(** C5 (as stated): from lows of 11.5 and three times 11.73 the clustering
    gives two levels, 11.5 and the float64 mean 11.729999999999999 of the
    three equal lows; clustering these two again merges them into one. *)
Lemma cluster_levels_not_idempotent :
  exists once twice,
    Forall binary64 rounded_lows
    /\ cluster_levels64 rounded_lows tolerance64 = map Fin once
    /\ cluster_levels64 once tolerance64 = map Fin twice
    /\ length once = 2%nat /\ length twice = 1%nat
    /\ map Fin twice <> map Fin once.
Proof.
  exists [23 # 2; 6603402953631989 # 562949953421312].
  exists [3269331854494269 # 281474976710656].
  split.
  { unfold rounded_lows.
    repeat (apply Forall_cons; split; [vm_compute; reflexivity |]).
    apply Forall_nil. exact I. }
  split; [vm_compute; reflexivity |].
  split; [vm_compute; reflexivity |].
  split; [reflexivity |]. split; [reflexivity | discriminate].
Qed.

Lemma cluster_from64_means tol rest : forall cur,
  Forall (fun x => exists xs, x = mean64 xs) (cluster_from64 tol cur rest).
Proof.
  induction rest as [| y rest IH]; intros cur; cbn [cluster_from64].
  - constructor; [exists cur; reflexivity | constructor].
  - destruct (near64 tol (mean64 cur) y); [apply IH |].
    constructor; [exists cur; reflexivity | apply IH].
Qed.

Lemma cluster_levels64_binary64 levels tol once :
  cluster_levels64 levels tol = map Fin once -> Forall binary64 once.
Proof.
  rewrite cluster_levels64_from. intros H.
  assert (Hall : Forall (fun x => exists xs, x = mean64 xs) (map Fin once)).
  { rewrite <- H. destruct (sorted levels); [constructor |].
    apply cluster_from64_means. }
  clear H. induction once as [| q once IH]; [constructor |].
  cbn [map] in Hall. apply Forall_cons in Hall as [[xs Hq] Hall].
  constructor; [| apply IH, Hall].
  apply (mean64_binary64 xs). symmetry. exact Hq.
Qed.

(** C5 (amended): clustering the clustered levels again gives the same
    levels exactly when they are in ascending order and no level is within
    the tolerance - as the code tests it, in float64 - of the level before
    it; when they are in ascending order and the second pass differs, it
    has merged levels and returns fewer of them.  A pass never returns
    more levels than it is given.  (With exact means the clustered levels
    always pass this test; a mean rounded to float64 can fail it.) *)
Theorem cluster_levels_second_pass
  (tolerance : num) (levels once : list Q) :
  cluster_levels64 levels tolerance = map Fin once ->
  (cluster_levels64 once tolerance = map Fin once
   <-> ascending once /\ unmerged tolerance once)
  /\ (ascending once ->
      cluster_levels64 once tolerance <> map Fin once ->
      (length (cluster_levels64 once tolerance) < length once)%nat)
  /\ (length (cluster_levels64 once tolerance) <= length once
      <= length levels)%nat.
Proof.
  intros H.
  pose proof (cluster_levels64_binary64 levels tolerance once H) as Hb.
  pose proof (cluster_levels64_length levels tolerance) as Hlen.
  rewrite H, length_map in Hlen.
  pose proof (cluster_levels64_length once tolerance) as Hle.
  split; [apply cluster_levels64_fixed, Hb |].
  split; [| split; [exact Hle | exact Hlen]].
  intros Hasc Hne.
  destruct (Nat.eq_dec (length (cluster_levels64 once tolerance))
              (length once)) as [Heq | Hneq]; [| lia].
  exfalso. apply Hne. apply cluster_levels64_kept; assumption.
Qed.

Lemma cluster_levels_second_pass_witness :
  cluster_levels64 [201 # 2; 120] tolerance64 = map Fin [201 # 2; 120].
Proof.
  apply (proj1 (cluster_levels_second_pass tolerance64 [100; 101; 120]
                  [201 # 2; 120] ltac:(vm_compute; reflexivity))).
  split.
  - cbn. repeat split; repeat constructor; discriminate.
  - cbn [unmerged]. split; [vm_compute; reflexivity | exact I].
Defined.

(** ** MACD crossovers, on every series *)

Lemma lookup_nth_lt {A} (l : list A) (i : nat) (d : A) :
  (i < length l)%nat -> l !! i = Some (nth i l d).
Proof.
  intros Hi. destruct (lookup_lt_is_Some_2 l i Hi) as [x Hx].
  rewrite Hx. f_equal. symmetry. apply nth_lookup_Some. exact Hx.
Qed.

(** C3 (amended): on every close series, increasing or not, 'MACD_Cross'
    reports "Sell" at a bar only where the MACD line is below its signal
    line and was at or above it on the bar before.  The histogram is
    non-negative exactly where the MACD line is at or above the signal
    line; so from a bar on which the MACD line stays at or above the signal
    line, the histogram is non-negative and "Sell" is not reported.
    Increasing closes do not keep the MACD line above its signal line: the
    two lines are compared as computed, and after a jump of the closes, or
    through the rounding of two lines that are equal in exact arithmetic,
    the MACD line comes out below. *)
Theorem sell_marks_downward_cross
  (fast slow signal : Z) (df df' : DataFrame) (macd sig hist : list Q) :
  (1 <= fast)%Z -> (1 <= slow)%Z -> (1 <= signal)%Z ->
  calculate_macd fast slow signal df = (Ok (macd, sig, hist), df') ->
  exists labels,
    cols df' !! "MACD_Cross" = Some (StrCol labels)
    /\ length labels = length (rows df)
    /\ (forall i, labels !! i = Some "Sell" ->
          exists j m s m' s',
            i = S j
            /\ macd !! j = Some m /\ sig !! j = Some s
            /\ macd !! i = Some m' /\ sig !! i = Some s'
            /\ s <= m /\ m' < s')
    /\ (forall i m s h,
          macd !! i = Some m -> sig !! i = Some s -> hist !! i = Some h ->
          (0 <= h <-> s <= m))
    /\ (forall k,
          (forall i m s, (k <= i)%nat ->
                         macd !! i = Some m -> sig !! i = Some s -> s <= m) ->
          (forall i h, (k <= i)%nat -> hist !! i = Some h -> 0 <= h)
          /\ (forall i, (k <= i)%nat -> labels !! i <> Some "Sell")).
Proof.
  intros _ _ _ H. rewrite calculate_macd_run in H. injection H as <- <- <- <-.
  set (close := map Close (rows df)).
  set (m := macd_series fast slow close).
  set (s := signal_series fast slow signal close).
  assert (Hm : length m = length (rows df))
    by (subst m close; rewrite macd_series_length; apply length_map).
  assert (Hs : length s = length (rows df))
    by (subst s close; rewrite signal_series_length; apply length_map).
  assert (Hsell : forall i, cross_labels m s !! i = Some "Sell" ->
            exists j x y x' y',
              i = S j /\ m !! j = Some x /\ s !! j = Some y
              /\ m !! i = Some x' /\ s !! i = Some y'
              /\ y <= x /\ x' < y').
  { intros i Hl.
    assert (Hi : (i < length m)%nat).
    { apply lookup_lt_Some in Hl. rewrite cross_labels_length in Hl.
      exact Hl. }
    rewrite (cross_labels_lookup m s i Hi) in Hl. injection Hl as Hl.
    destruct i as [| j]; [discriminate |].
    apply cross_label_sell in Hl as [H1 H2].
    exists j, (nth j m 0), (nth j s 0), (nth (S j) m 0), (nth (S j) s 0).
    split; [reflexivity |].
    split; [apply lookup_nth_lt; lia |].
    split; [apply lookup_nth_lt; lia |].
    split; [apply lookup_nth_lt; lia |].
    split; [apply lookup_nth_lt; lia |].
    split; lra. }
  assert (Hhist : forall i x y h,
            m !! i = Some x -> s !! i = Some y ->
            histogram_series fast slow signal close !! i = Some h ->
            h = x - y).
  { intros i x y h Hx Hy Hh. apply histogram_series_lookup in Hh.
    fold m s in Hh.
    rewrite (nth_lookup_Some _ _ 0 _ Hx), (nth_lookup_Some _ _ 0 _ Hy) in Hh.
    exact Hh. }
  exists (cross_labels m s).
  split; [unfold macd_frame; cbn [cols]; apply lookup_insert_eq |].
  split; [rewrite cross_labels_length; exact Hm |].
  split; [exact Hsell |].
  split.
  - intros i x y h Hx Hy Hh. rewrite (Hhist i x y h Hx Hy Hh). split; lra.
  - intros k Hk. split.
    + intros i h Hi Hh.
      assert (Hlt : (i < length (rows df))%nat).
      { apply lookup_lt_Some in Hh.
        rewrite histogram_series_length in Hh. subst close.
        rewrite length_map in Hh. exact Hh. }
      pose proof (lookup_nth_lt m i 0 ltac:(lia)) as Hx.
      pose proof (lookup_nth_lt s i 0 ltac:(lia)) as Hy.
      rewrite (Hhist i _ _ h Hx Hy Hh).
      pose proof (Hk i _ _ Hi Hx Hy). lra.
    + intros i Hi Hl.
      destruct (Hsell i Hl) as (j & x & y & x' & y' & _ & _ & _ & Hx & Hy
                                & _ & Hlt).
      pose proof (Hk i x' y' Hi Hx Hy). lra.
Qed.

Lemma sell_marks_downward_cross_witness :
  exists labels,
    cols (macd_frame 12 26 9 steady_frame) !! "MACD_Cross"
    = Some (StrCol labels)
    /\ length labels = length (rows steady_frame).
Proof.
  destruct (sell_marks_downward_cross 12 26 9 steady_frame
              (macd_frame 12 26 9 steady_frame)
              (macd_series 12 26 (map Close (rows steady_frame)))
              (signal_series 12 26 9 (map Close (rows steady_frame)))
              (histogram_series 12 26 9 (map Close (rows steady_frame))))
    as (labels & H1 & H2 & _).
  - lia.
  - lia.
  - lia.
  - apply calculate_macd_run.
  - exists labels. split; [exact H1 | exact H2].
Defined.
